(** * Tariff synchronisation pipeline: WB API -> PostgreSQL -> Google Sheets

    A shallow embedding of the TypeScript sources

    - [src/services/WBTariffsSync.ts]      (the fetcher, [WBTariffsSync]),
    - [src/services/GoogleTablesSync.ts]   (the publisher, [TariffSheetSyncService]),
    - [src/cron.ts]                        (the hourly job, [startCron]),
    - [src/config/env/env.ts]              (the configuration, [envSchema]),
    - the migration creating the [tariffs] table,

    together with the ECMAScript built-ins these sources call
    ([Number], [isNaN], [parseFloat], [parseInt],
    [Number.prototype.toFixed], [String.prototype.trim/replace/padStart/split],
    the [Date] getters and [toISOString]), which are modelled after ECMA-262.

    - Strings are lists of UTF-16 code units; Numbers are IEEE 754 binary64
      values ([spec_float] with precision 53), rounded to nearest even.
    - Time values and the retry counter are integral Numbers and are
      modelled as integers; [maxRetries] and the retry delay are Numbers,
      and the timers follow Node's [setTimeout] (a delay outside
      [1 .. 2^31 - 1] runs 1 ms).
    - Asynchronous methods are computations in a monad of state (the
      table, the trace of effects, the number of requests made) and
      exceptions, read against an environment [Env] that fixes what the
      outside answers: the clock, the upstream API, failures of the
      database and of the spreadsheet API, the time zone.
    - The table follows the migration: a list of rows with the upsert of
      [insert ... on conflict (warehouse_name, date) do update]. *)

From Stdlib Require Import ZArith NArith Bool Ascii String List Lia SpecFloat.
From Stdlib Require Import Sorting.Sorted Sorting.Permutation.
Import ListNotations.

Set Warnings "-register-all".
Local Open Scope char_scope.
Local Open Scope Z_scope.

(* ================================================================== *)
(** * ECMAScript strings and numbers *)
(* ================================================================== *)

Module JS.

(** ** Strings: sequences of UTF-16 code units *)

Definition code_unit := N.
Definition jsstring := list code_unit.

(** An ASCII literal as a JavaScript string. *)
Definition lit (s : string) : jsstring :=
  List.map N_of_ascii (list_ascii_of_string s).

(** The code unit of an ASCII character. *)
Definition cu (a : ascii) : code_unit := N_of_ascii a.

Definition cu_eqb (a b : code_unit) : bool := N.eqb a b.

Fixpoint str_eqb (a b : jsstring) : bool :=
  match a, b with
  | [], [] => true
  | x :: a', y :: b' => cu_eqb x y && str_eqb a' b'
  | _, _ => false
  end.

(** WhiteSpace and LineTerminator code points (ECMA-262, StrWhiteSpaceChar):
    TAB, LF, VT, FF, CR, SP, NBSP, U+1680, U+2000..U+200A, LS, PS,
    U+202F, U+205F, U+3000 and the byte order mark. *)
Definition isStrWhiteSpaceChar (c : code_unit) : bool :=
  (existsb (cu_eqb c)
     [9; 10; 11; 12; 13; 32; 160; 5760; 8232; 8233; 8239; 8287; 12288; 65279]
   || ((8192 <=? c) && (c <=? 8202)))%N.

Fixpoint trimStart (s : jsstring) : jsstring :=
  match s with
  | c :: r => if isStrWhiteSpaceChar c then trimStart r else s
  | [] => []
  end.

Definition trimEnd (s : jsstring) : jsstring := rev (trimStart (rev s)).

(** [String.prototype.trim] *)
Definition trim (s : jsstring) : jsstring := trimEnd (trimStart s).

Fixpoint isPrefix (p s : jsstring) : bool :=
  match p, s with
  | [], _ => true
  | x :: p', y :: s' => cu_eqb x y && isPrefix p' s'
  | _ :: _, [] => false
  end.

(** [String.prototype.replace] with a string pattern: only the first
    occurrence is replaced.  (The replacement strings used by the sources
    contain no [$], so no replacement pattern is expanded.) *)
Fixpoint replace (pat rep s : jsstring) : jsstring :=
  if isPrefix pat s then rep ++ skipn (length pat) s
  else match s with
       | [] => []
       | c :: r => c :: replace pat rep r
       end.

(** [String.prototype.padStart(maxLength, fillString)] for a one-unit
    filler. *)
Definition padStart (maxLength : nat) (fill : code_unit) (s : jsstring) : jsstring :=
  repeat fill (maxLength - length s) ++ s.

(** ** Decimal digits *)

Definition digitChar (d : Z) : code_unit := (cu "0" + Z.to_N d)%N.

Definition digitValue (c : code_unit) : option Z :=
  if ((cu "0" <=? c) && (c <=? cu "9"))%N then Some (Z.of_N (c - cu "0")) else None.

Fixpoint decimalDigits (fuel : nat) (n : Z) (acc : jsstring) : jsstring :=
  match fuel with
  | O => acc
  | S f =>
      let acc' := digitChar (n mod 10) :: acc in
      if n <? 10 then acc' else decimalDigits f (n / 10) acc'
  end.

(** The decimal representation of a non-negative integer, most significant
    digit first, without leading zeros ("0" for zero). *)
Definition natToString (n : Z) : jsstring :=
  decimalDigits (S (Z.to_nat (Z.log2 n))) n [].

(** [ToString] of an integral Number of magnitude below 10^21. *)
Definition intToString (n : Z) : jsstring :=
  if n <? 0 then lit "-"%string ++ natToString (- n) else natToString n.

(** ** Numbers: IEEE 754 binary64 *)

Definition number := spec_float.

Definition prec : Z := 53.
Definition emax : Z := 1024.

Definition NaN : number := S754_nan.
Definition posZero : number := S754_zero false.
Definition Infinity (neg : bool) : number := S754_infinity neg.

Definition isNaN_num (x : number) : bool :=
  match x with S754_nan => true | _ => false end.

(** The Number nearest to [p / q] (round to nearest, ties to even). *)
Definition roundRatio (neg : bool) (p q : positive) : number :=
  let '(m, e, l) := SFdiv_core_binary prec emax (Zpos p) 0 (Zpos q) 0 in
  binary_round_aux prec emax neg m e l.

(** The Number value of the mathematical value [(-1)^neg * m * 10^e]
    (RoundMVResult with correct rounding). *)
Definition ofDecimal (neg : bool) (m e : Z) : number :=
  match m with
  | Zpos p =>
      match e with
      | Zneg k => roundRatio neg p (10 ^ k)
      | _ => binary_round prec emax neg (p * Z.to_pos (10 ^ e)) 0
      end
  | _ => S754_zero neg
  end.

(** The Number value of an integer. *)
Definition ofZ (n : Z) : number := binary_normalize prec emax n 0 false.

(** ** Numeric literals in strings *)

Fixpoint takeDigits (s : jsstring) : list Z * jsstring :=
  match s with
  | c :: r =>
      match digitValue c with
      | Some d => let '(ds, r') := takeDigits r in (d :: ds, r')
      | None => ([], s)
      end
  | [] => ([], [])
  end.

Definition digitsValue (ds : list Z) : Z :=
  fold_left (fun a d => 10 * a + d) ds 0.

(** ExponentPart, when a complete one starts [s]; otherwise exponent 0 and
    nothing is consumed. *)
Definition exponentPart (s : jsstring) : Z * jsstring :=
  match s with
  | c :: r =>
      if cu_eqb c (cu "e") || cu_eqb c (cu "E") then
        let '(neg, r1) :=
          match r with
          | c1 :: r1 =>
              if cu_eqb c1 (cu "+") then (false, r1)
              else if cu_eqb c1 (cu "-") then (true, r1)
              else (false, r)
          | [] => (false, r)
          end in
        match takeDigits r1 with
        | ([], _) => (0, s)
        | (ds, r2) => ((if neg then - digitsValue ds else digitsValue ds), r2)
        end
      else (0, s)
  | [] => (0, s)
  end.

(** The longest prefix of [s] that is a StrUnsignedDecimalLiteral: its
    Number value (with sign [neg]) and the rest of [s]. *)
Definition strUnsignedDecimalLiteral (neg : bool) (s : jsstring)
  : option (number * jsstring) :=
  if isPrefix (lit "Infinity"%string) s then Some (Infinity neg, skipn 8 s)
  else
    let '(ip, r) := takeDigits s in
    let dot :=
      match r with
      | c :: r1 => if cu_eqb c (cu ".") then Some r1 else None
      | [] => None
      end in
    match ip, dot with
    | _ :: _, Some r1 =>
        let '(fp, r2) := takeDigits r1 in
        let '(e, r3) := exponentPart r2 in
        Some (ofDecimal neg (digitsValue (ip ++ fp)) (e - Z.of_nat (length fp)), r3)
    | _ :: _, None =>
        let '(e, r3) := exponentPart r in
        Some (ofDecimal neg (digitsValue ip) e, r3)
    | [], Some r1 =>
        match takeDigits r1 with
        | ([], _) => None
        | (fp, r2) =>
            let '(e, r3) := exponentPart r2 in
            Some (ofDecimal neg (digitsValue fp) (e - Z.of_nat (length fp)), r3)
        end
    | [], None => None
    end.

(** The longest prefix that is a StrDecimalLiteral (optionally signed). *)
Definition strDecimalLiteral (s : jsstring) : option (number * jsstring) :=
  match s with
  | c :: r =>
      if cu_eqb c (cu "+") then strUnsignedDecimalLiteral false r
      else if cu_eqb c (cu "-") then strUnsignedDecimalLiteral true r
      else strUnsignedDecimalLiteral false s
  | [] => None
  end.

(** The global [parseFloat] applied to a string. *)
Definition parseFloat (s : jsstring) : number :=
  match strDecimalLiteral (trimStart s) with
  | Some (x, _) => x
  | None => NaN
  end.

(** NonDecimalIntegerLiteral: [0x], [0o] and [0b] literals. *)
Definition radixDigitValue (radix : Z) (c : code_unit) : option Z :=
  let v :=
    if ((cu "0" <=? c) && (c <=? cu "9"))%N then Z.of_N (c - cu "0")
    else if ((cu "a" <=? c) && (c <=? cu "z"))%N then Z.of_N (c - cu "a") + 10
    else if ((cu "A" <=? c) && (c <=? cu "Z"))%N then Z.of_N (c - cu "A") + 10
    else radix in
  if v <? radix then Some v else None.

Fixpoint radixValue (radix : Z) (s : jsstring) (acc : Z) : option Z :=
  match s with
  | [] => Some acc
  | c :: r =>
      match radixDigitValue radix c with
      | Some d => radixValue radix r (radix * acc + d)
      | None => None
      end
  end.

Definition nonDecimalIntegerLiteral (s : jsstring) : option number :=
  match s with
  | z :: x :: ((_ :: _) as ds) =>
      if cu_eqb z (cu "0") then
        let radix :=
          if cu_eqb x (cu "x") || cu_eqb x (cu "X") then Some 16
          else if cu_eqb x (cu "o") || cu_eqb x (cu "O") then Some 8
          else if cu_eqb x (cu "b") || cu_eqb x (cu "B") then Some 2
          else None in
        match radix with
        | Some b => option_map ofZ (radixValue b ds 0)
        | None => None
        end
      else None
  | _ => None
  end.

(** StringToNumber: the whole trimmed string must be a StringNumericLiteral;
    the empty string converts to [+0]. *)
Definition StringToNumber (s : jsstring) : number :=
  match trim s with
  | [] => posZero
  | t =>
      match nonDecimalIntegerLiteral t with
      | Some x => x
      | None =>
          match strDecimalLiteral t with
          | Some (x, []) => x
          | _ => NaN
          end
      end
  end.

(** ** Number to string *)

(** A positive finite Number [m * 2^e] as an exact fraction. *)
Definition fraction (m : positive) (e : Z) : Z * Z :=
  match e with
  | Zneg k => (Zpos m, 2 ^ Zpos k)
  | _ => (Zpos m * 2 ^ e, 1)
  end.

(** [p / q < 10^n] *)
Definition ltPow10 (p q n : Z) : bool :=
  if n <? 0 then p * 10 ^ (- n) <? q else p <? 10 ^ n * q.

Fixpoint magnitudeFrom (fuel : nat) (p q n : Z) : Z :=
  match fuel with
  | O => n
  | S f => if ltPow10 p q n then n else magnitudeFrom f p q (n + 1)
  end.

(** The integer [n] with [10^(n-1) <= p/q < 10^n]. *)
Definition magnitude (p q : Z) : Z :=
  let l := Z.log2 p - Z.log2 q - 1 in
  let lo := if l <? 0 then (4 * l) / 10 else (3 * l) / 10 in
  magnitudeFrom (Z.to_nat (Z.abs l) + 4) p q lo.

(** A candidate digit string for Number::toString: [s] with [k] digits and
    decimal exponent [n], accepted when [s * 10^(n-k)] rounds to [x]. *)
Definition candidate (x : number) (s k n : Z) : option (Z * Z * Z) :=
  let '(s, n) := if s =? 10 ^ k then (10 ^ (k - 1), n + 1) else (s, n) in
  if (10 ^ (k - 1) <=? s) && SFeqb (ofDecimal false s (n - k)) x
  then Some (s, k, n) else None.

Fixpoint shortestFrom (fuel : nat) (x : number) (p q n k : Z) : Z * Z * Z :=
  let '(num, den) :=
    if k - n <? 0 then (p, q * 10 ^ (n - k)) else (p * 10 ^ (k - n), q) in
  let lo := num / den in
  let hi := if num mod den =? 0 then lo else lo + 1 in
  let lower_is_closer := 2 * num <=? (2 * lo + 1) * den in
  let pick :=
    match candidate x lo k n, candidate x hi k n with
    | Some a, Some b => Some (if lower_is_closer then a else b)
    | Some a, None => Some a
    | None, Some b => Some b
    | None, None => None
    end in
  match pick, fuel with
  | Some r, _ => r
  | None, S f => shortestFrom f x p q n (k + 1)
  | None, O => (lo, k, n)
  end.

(** Number::toString(x, 10) *)
Definition NumberToString (x : number) : jsstring :=
  match x with
  | S754_nan => lit "NaN"%string
  | S754_zero _ => lit "0"%string
  | S754_infinity neg => (if neg then lit "-"%string else []) ++ lit "Infinity"%string
  | S754_finite neg m e =>
      let '(p, q) := fraction m e in
      let '(s, k, n) := shortestFrom 17 (S754_finite false m e) p q (magnitude p q) 1 in
      let ds := natToString s in
      let zeros c := repeat (cu "0") (Z.to_nat c) in
      let body :=
        if (k <=? n) && (n <=? 21) then ds ++ zeros (n - k)
        else if (0 <? n) && (n <=? 21) then
          firstn (Z.to_nat n) ds ++ lit "."%string ++ skipn (Z.to_nat n) ds
        else if (-6 <? n) && (n <=? 0) then
          lit "0."%string ++ zeros (- n) ++ ds
        else
          let ex := n - 1 in
          let exs := (if ex <? 0 then lit "-"%string else lit "+"%string)
                       ++ natToString (Z.abs ex) in
          match ds with
          | d :: ((_ :: _) as rest) => d :: lit "."%string ++ rest ++ lit "e"%string ++ exs
          | _ => ds ++ lit "e"%string ++ exs
          end in
      (if neg then lit "-"%string else []) ++ body
  end.

(** [Number.prototype.toFixed(f)] for [0 <= f <= 100]. *)
Definition toFixed (f : nat) (x : number) : jsstring :=
  match x with
  | S754_finite neg m e =>
      let '(p, q) := fraction m e in
      let sign := if neg then lit "-"%string else [] in
      if 10 ^ 21 * q <=? p then sign ++ NumberToString (S754_finite false m e)
      else
        (* the integer n for which n / 10^f - x is closest to zero,
           the larger one when there are two *)
        let n := (2 * p * 10 ^ Z.of_nat f + q) / (2 * q) in
        let ds := natToString n in
        match f with
        | O => sign ++ ds
        | _ =>
            let ds := repeat (cu "0") (f + 1 - length ds) ++ ds in
            let k := length ds in
            sign ++ firstn (k - f) ds ++ lit "."%string ++ skipn (k - f) ds
        end
  | S754_zero _ =>
      match f with
      | O => lit "0"%string
      | _ => lit "0."%string ++ repeat (cu "0") f
      end
  | _ => NumberToString x
  end.

(** ** Values *)

(** The values that JSON and the database driver produce, plus
    [undefined]. *)
Inductive value :=
| VUndefined
| VNull
| VBool (b : bool)
| VNumber (x : number)
| VString (s : jsstring)
| VArray (xs : list value)
| VObject (props : list (jsstring * value)).

(** ToBoolean *)
Definition truthy (v : value) : bool :=
  match v with
  | VUndefined | VNull => false
  | VBool b => b
  | VNumber x => match x with S754_zero _ | S754_nan => false | _ => true end
  | VString s => match s with [] => false | _ => true end
  | VArray _ | VObject _ => true
  end.

(** ToString; an array is joined with commas ([null] and [undefined]
    elements give the empty string), a plain object has the default
    representation. *)
Fixpoint ToString (v : value) : jsstring :=
  match v with
  | VUndefined => lit "undefined"%string
  | VNull => lit "null"%string
  | VBool b => if b then lit "true"%string else lit "false"%string
  | VNumber x => NumberToString x
  | VString s => s
  | VArray xs =>
      let elem v := match v with VUndefined | VNull => [] | _ => ToString v end in
      (fix join (l : list value) : jsstring :=
         match l with
         | [] => []
         | [v] => elem v
         | v :: l' => elem v ++ lit ","%string ++ join l'
         end) xs
  | VObject _ => lit "[object Object]"%string
  end.

(** ToNumber, which is what [Number(value)] computes for these values. *)
Definition ToNumber (v : value) : number :=
  match v with
  | VUndefined => NaN
  | VNull => posZero
  | VBool b => if b then ofZ 1 else posZero
  | VNumber x => x
  | VString s => StringToNumber s
  | VArray _ | VObject _ => StringToNumber (ToString v)
  end.

(** The global [isNaN]. *)
Definition isNaN (v : value) : bool := isNaN_num (ToNumber v).

(** Property read [v.name] on a value that is not null or undefined:
    own properties of plain objects, [undefined] otherwise (none of the
    names the sources read is inherited by a primitive or an array). *)
Fixpoint lookup (name : jsstring) (props : list (jsstring * value)) : value :=
  match props with
  | [] => VUndefined
  | (k, v) :: r => if str_eqb k name then v else lookup name r
  end.

Definition getProp (v : value) (name : jsstring) : value :=
  match v with
  | VObject props => lookup name props
  | _ => VUndefined
  end.

End JS.

(* ================================================================== *)
(** * ECMAScript dates *)
(* ================================================================== *)

Module JSDate.
Import JS.

(** A time value: milliseconds since the epoch, or [None] for [NaN]
    (an invalid date). *)
Definition timeValue := option Z.

Definition msPerDay : Z := 86400000.

Definition Day (t : Z) : Z := t / msPerDay.
Definition TimeWithinDay (t : Z) : Z := t mod msPerDay.

Definition isLeap (y : Z) : bool :=
  ((y mod 4 =? 0) && negb (y mod 100 =? 0)) || (y mod 400 =? 0).

Definition DaysInYear (y : Z) : Z := if isLeap y then 366 else 365.

Definition DayFromYear (y : Z) : Z :=
  365 * (y - 1970) + (y - 1969) / 4 - (y - 1901) / 100 + (y - 1601) / 400.

Fixpoint yearFrom (fuel : nat) (day y : Z) : Z :=
  match fuel with
  | O => y
  | S f => if DayFromYear (y + 1) <=? day then yearFrom f day (y + 1) else y
  end.

(** The largest [y] such that [DayFromYear y <= Day t]: searched upwards
    from an under-estimate. *)
Definition YearFromTime (t : Z) : Z :=
  let d := Day t in
  let y0 := 1970 + (if d <? 0 then d / 365 else d / 366) in
  yearFrom (Z.to_nat (Z.abs d / 100000) + 2) d y0.

Definition DayWithinYear (t : Z) : Z := Day t - DayFromYear (YearFromTime t).

Definition InLeapYear (t : Z) : Z :=
  if isLeap (YearFromTime t) then 1 else 0.

(** Months are numbered from 0 (January) to 11 (December). *)
Definition MonthFromTime (t : Z) : Z :=
  let d := DayWithinYear t in
  let l := InLeapYear t in
  if d <? 31 then 0
  else if d <? 59 + l then 1
  else if d <? 90 + l then 2
  else if d <? 120 + l then 3
  else if d <? 151 + l then 4
  else if d <? 181 + l then 5
  else if d <? 212 + l then 6
  else if d <? 243 + l then 7
  else if d <? 273 + l then 8
  else if d <? 304 + l then 9
  else if d <? 334 + l then 10
  else 11.

Definition DateFromTime (t : Z) : Z :=
  let d := DayWithinYear t in
  let l := InLeapYear t in
  match MonthFromTime t with
  | 0 => d + 1
  | 1 => d - 30
  | 2 => d - 58 - l
  | 3 => d - 89 - l
  | 4 => d - 119 - l
  | 5 => d - 150 - l
  | 6 => d - 180 - l
  | 7 => d - 211 - l
  | 8 => d - 242 - l
  | 9 => d - 272 - l
  | 10 => d - 303 - l
  | _ => d - 333 - l
  end.

Definition HourFromTime (t : Z) : Z := (t / 3600000) mod 24.
Definition MinFromTime (t : Z) : Z := (t / 60000) mod 60.
Definition SecFromTime (t : Z) : Z := (t / 1000) mod 60.
Definition msFromTime (t : Z) : Z := t mod 1000.

(** MakeDay / MakeDate for an in-range month and day: the time value of
    midnight UTC of the given calendar date. *)
Definition monthStart (y m : Z) : Z :=
  let l := if isLeap y then 1 else 0 in
  match m with
  | 0 => 0 | 1 => 31 | 2 => 59 + l | 3 => 90 + l | 4 => 120 + l
  | 5 => 151 + l | 6 => 181 + l | 7 => 212 + l | 8 => 243 + l
  | 9 => 273 + l | 10 => 304 + l | _ => 334 + l
  end.

Definition MakeDate (y m d : Z) : Z :=
  (DayFromYear y + monthStart y (m - 1) + (d - 1)) * msPerDay.

Definition TimeClip (t : timeValue) : timeValue :=
  match t with
  | Some v => if Z.abs v <=? 8640000000000000 then Some v else None
  | None => None
  end.

Definition pad (width : nat) (n : Z) : jsstring :=
  padStart width (cu "0") (natToString n).

(** [Date.prototype.toISOString] of a valid time value:
    [YYYY-MM-DDTHH:mm:ss.sssZ], with the expanded year
    [+YYYYYY] / [-YYYYYY] outside 0..9999. *)
Definition toISOString (t : Z) : jsstring :=
  let y := YearFromTime t in
  let year :=
    if (0 <=? y) && (y <=? 9999) then pad 4 y
    else (if y <? 0 then lit "-"%string else lit "+"%string) ++ pad 6 (Z.abs y) in
  year ++ lit "-"%string ++ pad 2 (MonthFromTime t + 1)
       ++ lit "-"%string ++ pad 2 (DateFromTime t)
       ++ lit "T"%string ++ pad 2 (HourFromTime t)
       ++ lit ":"%string ++ pad 2 (MinFromTime t)
       ++ lit ":"%string ++ pad 2 (SecFromTime t)
       ++ lit "."%string ++ pad 3 (msFromTime t) ++ lit "Z"%string.

(** [s.split(sep)[0]] for a one-unit separator: the part of [s] before the
    first occurrence of [sep]. *)
Fixpoint splitHead (sep : code_unit) (s : jsstring) : jsstring :=
  match s with
  | [] => []
  | c :: r => if cu_eqb c sep then [] else c :: splitHead sep r
  end.

End JSDate.

(* ================================================================== *)
(** * Shared types *)
(* ================================================================== *)

Module Types.
Import JS JSDate.

(** A thrown or rejected [Error] object (the sources cast whatever they
    catch to [Error] and read [message] and [stack]). *)
Record Error := mkError { message : jsstring; stack : jsstring }.

Inductive result (A : Type) :=
| Ok (a : A)
| Throw (e : Error).
Arguments Ok {A} a.
Arguments Throw {A} e.

(** What [formatDate] accepts: [string | Date | null]. *)
Inductive dateArg :=
| DNull
| DString (s : jsstring)
| DDate (t : timeValue).

(** A cell of the grid sent to the spreadsheet: [string | number | null]. *)
Inductive cell :=
| CString (s : jsstring)
| CNumber (x : number)
| CNull.

Definition cellOf (o : option jsstring) : cell :=
  match o with
  | Some s => CString s
  | None => CNull
  end.

End Types.

(** [TariffBox] (types.ts) as the publisher reads it: the rows that
    [knex("tariffs").select("*")] resolves to.  How the driver represents
    a [date] or a [decimal] column in JavaScript is decided by the module
    [#postgres/knex.js]; the fields therefore range over everything that
    [formatDate] and [formatNumber] accept. *)
Module TariffBox.
Import JS Types.
Record t := mk {
  date : dateArg;
  warehouse_name : jsstring;
  delivery_and_storage_expr : value;
  delivery_base : value;
  delivery_liter : value;
  storage_base : value;
  storage_liter : value
}.
End TariffBox.

(** The object literal that [WBTariffsSync.sync] builds for each entry of
    the upstream list: the [TariffBox] fields and [updated_at]. *)
Module Tariff.
Import JS Types.
Record t := mk {
  warehouse_name : value;          (* [w.warehouseName], of type [any] *)
  delivery_base : option number;
  delivery_liter : option number;
  delivery_and_storage_expr : option number;
  storage_base : option number;
  storage_liter : option number;
  date : jsstring;                 (* [today], an ISO calendar date *)
  updated_at : Z                   (* [new Date()], a time value *)
}.
End Tariff.

(* ================================================================== *)
(** * The logger *)
(* ================================================================== *)

Module Logger.
Import JS Types.

Inductive level := info | warn | error.

(** One constructor for each message of the sources. *)
Inductive message :=
| StartingSync (today : jsstring)          (* "Starting WB tariffs sync for ${today}" *)
| InvalidDataFormat                        (* "Invalid data format from WB API" *)
| FailedToConvert (value : jsstring)       (* { value }, "Failed to convert value to number" *)
| FoundTariffs (n : nat)                   (* "Found ${tariffs.length} tariffs to insert/update" *)
| SyncCompleted                            (* "WB tariffs sync completed" *)
| SyncError (err : Error)                  (* { err }, "Error occurred during WB tariffs sync" *)
| Synced (spreadsheetId : jsstring) (rows : Z)
                                           (* "Synced: ${spreadsheetId} (${rows.length - 1} rows)" *)
| AttemptFailed (attempt : Z) (err : Error) (spreadsheetId : jsstring)
                                           (* "Attempt ${attempt} failed: ${err.message}" *)
| Retrying (delay : number)                (* "Retrying in ${delay / 1000}s..." *)
| SyncFailedAfter (maxRetries : number)    (* "Sync failed after ${maxRetries} attempts" *)
| RunningHourlyJob                         (* "Running hourly job: ..." *)
| TariffsFetched                           (* "Tariffs fetched and saved to DB" *)
| CronJobError (err : Error)               (* "Cron job error:", error *)
| CronJobScheduled.                        (* "Cron job scheduled to run every hour" *)

End Logger.

(* ================================================================== *)
(** * The [tariffs] table *)
(* ================================================================== *)

Module Db.
Import JS Types.

(** A row of the table created by the migration:
    [id] serial primary key, [warehouse_name] not null, [date] not null
    (held as the ISO calendar date that was inserted), five
    [decimal(10, 2)] columns (an integer number of hundredths, [None] for
    NULL), [updated_at] (a time value), and
    [unique (warehouse_name, date)]. *)
Record row := mkRow {
  id : Z;
  warehouse_name : jsstring;
  date : jsstring;
  delivery_and_storage_expr : option Z;
  delivery_base : option Z;
  delivery_liter : option Z;
  storage_base : option Z;
  storage_liter : option Z;
  updated_at : Z
}.

Record table := mkTable { rows : list row; next_id : Z }.

(** The migration [up]: an empty table. *)
Definition up : table := {| rows := []; next_id := 1 |}.

Definition key (r : row) : jsstring * jsstring := (warehouse_name r, date r).

Definition key_eqb (a b : jsstring * jsstring) : bool :=
  str_eqb (fst a) (fst b) && str_eqb (snd a) (snd b).

(** Storing a Number in a [decimal(precision, scale)] column: the driver
    sends its decimal text (Number::toString), the server rounds it half
    away from zero to [scale] fractional digits and rejects a value that
    needs more than [precision] digits.  The result counts units of
    [10^-scale].  ([NaN] is never inserted: [parseNumeric] returns null
    for it.) *)
Definition decimal (precision scale : Z) (x : number) : option Z :=
  match x with
  | S754_zero _ => Some 0
  | S754_finite neg m e =>
      let '(p, q) := fraction m e in
      let '(s, k, n) :=
        shortestFrom 17 (S754_finite false m e) p q (magnitude p q) 1 in
      let ex := n - k + scale in
      let h := if ex <? 0 then (2 * s + 10 ^ (- ex)) / (2 * 10 ^ (- ex))
               else s * 10 ^ ex in
      if h <? 10 ^ precision then Some (if neg then - h else h) else None
  | _ => None
  end.

Definition column (v : option number) : option (option Z) :=
  match v with
  | None => Some None
  | Some x => option_map Some (decimal 10 2 x)
  end.

Definition notNullViolation : Error :=
  mkError (lit "null value in column violates not-null constraint"%string) [].
Definition numericOverflow : Error :=
  mkError (lit "numeric field overflow"%string) [].
Definition cardinalityViolation : Error :=
  mkError (lit "ON CONFLICT DO UPDATE command cannot affect row a second time"%string) [].

(** The row proposed for insertion by one element of [insert(chunk)].
    [text] is the driver's text encoding of a parameter that is neither a
    string nor null. *)
Definition propose (text : value -> jsstring) (new_id : Z) (t : Tariff.t)
  : result row :=
  let name :=
    match Tariff.warehouse_name t with
    | VUndefined | VNull => None
    | VString s => Some s
    | v => Some (text v)
    end in
  match name with
  | None => Throw notNullViolation
  | Some name =>
      match column (Tariff.delivery_and_storage_expr t),
            column (Tariff.delivery_base t),
            column (Tariff.delivery_liter t),
            column (Tariff.storage_base t),
            column (Tariff.storage_liter t) with
      | Some dse, Some db, Some dl, Some sb, Some sl =>
          Ok (mkRow new_id name (Tariff.date t) dse db dl sb sl (Tariff.updated_at t))
      | _, _, _, _, _ => Throw numericOverflow
      end
  end.

Fixpoint proposeAll (text : value -> jsstring) (new_id : Z) (chunk : list Tariff.t)
  : result (list row) :=
  match chunk with
  | [] => Ok []
  | t :: ts =>
      match propose text new_id t with
      | Throw e => Throw e
      | Ok r =>
          match proposeAll text (new_id + 1) ts with
          | Throw e => Throw e
          | Ok rs => Ok (r :: rs)
          end
      end
  end.

(** [.merge()] without arguments: on conflict every inserted column takes
    the proposed value; [id] is not among them. *)
Definition merge (old new : row) : row :=
  mkRow (id old) (warehouse_name new) (date new)
        (delivery_and_storage_expr new) (delivery_base new) (delivery_liter new)
        (storage_base new) (storage_liter new) (updated_at new).

Fixpoint upsert (new : row) (rs : list row) : list row :=
  match rs with
  | [] => [new]
  | r :: rest =>
      if key_eqb (key r) (key new) then merge r new :: rest
      else r :: upsert new rest
  end.

(** The proposed rows are applied in order; a row that was inserted or
    updated by this statement cannot be affected a second time. *)
Fixpoint upsertAll (touched : list (jsstring * jsstring)) (news rs : list row)
  : result (list row) :=
  match news with
  | [] => Ok rs
  | n :: ns =>
      if existsb (key_eqb (key n)) touched then Throw cardinalityViolation
      else upsertAll (key n :: touched) ns (upsert n rs)
  end.

(** [knex("tariffs").insert(chunk).onConflict(["warehouse_name", "date"]).merge()]
    as one statement: all of it is applied, or nothing is. *)
Definition insertOnConflictMerge (text : value -> jsstring)
    (chunk : list Tariff.t) (tb : table) : result table :=
  match proposeAll text (next_id tb) chunk with
  | Throw e => Throw e
  | Ok news =>
      match upsertAll [] news (rows tb) with
      | Throw e => Throw e
      | Ok rs => Ok {| rows := rs; next_id := next_id tb + Z.of_nat (length chunk) |}
      end
  end.

(** Ascending order of a nullable decimal column: NULL sorts last. *)
Definition ascNullsLast (a b : option Z) : bool :=
  match a, b with
  | Some x, Some y => x <=? y
  | _, None => true
  | None, Some _ => false
  end.

Fixpoint insertSorted (r : row) (l : list row) : list row :=
  match l with
  | [] => [r]
  | h :: t =>
      if ascNullsLast (delivery_liter r) (delivery_liter h) then r :: l
      else h :: insertSorted r t
  end.

(** [select("*").orderBy("delivery_liter", "asc")] *)
Definition selectOrderByDeliveryLiter (tb : table) : list row :=
  fold_right insertSorted [] (rows tb).

End Db.

(* ================================================================== *)
(** * Effects: the outside world, exceptions, and the log *)
(* ================================================================== *)

Module Eff.
Import JS JSDate Types.

(** What a run does to the outside, in order. *)
Inductive Event :=
| Log (l : Logger.level) (m : Logger.message)
| HttpGet (url : jsstring)
| DbSelect
| DbInsert (chunk : list Tariff.t)
| SheetsClear (spreadsheetId range : jsstring)
| SheetsUpdate (spreadsheetId range : jsstring) (values : list (list cell))
| Sleep (ms : Z).

(** The state threaded through a run: the table, the events so far
    (oldest first) and the number of requests made to the outside. *)
Record World := mkWorld {
  tariffs : Db.table;
  trace : list Event;
  tick : nat
}.

(** The behaviour of the outside, indexed by the request number: the
    clock, the upstream API (as seen through the retrying HTTP client),
    failures of the database or of the spreadsheet API that the program
    does not cause itself, and the parts of the runtime that are
    configured outside the sources. *)
Record Env := mkEnv {
  now : nat -> Z;
  http_get : nat -> jsstring -> result value;
  fault : nat -> option Error;
  pg_text : value -> jsstring;
  pg_decode : Db.row -> TariffBox.t;
  LocalTZA : Z -> Z;
  Date_parse : jsstring -> timeValue
}.

Definition M (A : Type) : Type := Env -> World -> result A * World.

Definition ret {A} (a : A) : M A := fun _ w => (Ok a, w).

Definition bind {A B} (m : M A) (k : A -> M B) : M B :=
  fun env w =>
    match m env w with
    | (Ok a, w') => k a env w'
    | (Throw e, w') => (Throw e, w')
    end.

Definition throw {A} (e : Error) : M A := fun _ w => (Throw e, w).

(** [try { body } catch (err) { handler }] *)
Definition try_catch {A} (body : M A) (handler : Error -> M A) : M A :=
  fun env w =>
    match body env w with
    | (Ok a, w') => (Ok a, w')
    | (Throw e, w') => handler e env w'
    end.

Declare Scope eff_scope.
Delimit Scope eff_scope with eff.
Notation "x <- m ;; k" := (bind m (fun x => k))
  (at level 61, m at next level, right associativity) : eff_scope.
Notation "m ;; k" := (bind m (fun _ => k))
  (at level 61, right associativity) : eff_scope.
Local Open Scope eff_scope.

Definition emit (e : Event) : M unit :=
  fun _ w => (Ok tt, mkWorld (tariffs w) (trace w ++ [e]) (tick w)).

(** A request to the outside: its number, which the next request will not
    reuse. *)
Definition request : M nat :=
  fun _ w => (Ok (tick w), mkWorld (tariffs w) (trace w) (S (tick w))).

Definition ask : M Env := fun env w => (Ok env, w).

Definition getTable : M Db.table := fun _ w => (Ok (tariffs w), w).

Definition setTable (tb : Db.table) : M unit :=
  fun _ w => (Ok tt, mkWorld tb (trace w) (tick w)).

Definition log (l : Logger.level) (m : Logger.message) : M unit :=
  emit (Log l m).

(** [new Date()]: the current time value. *)
Definition newDate : M Z :=
  n <- request ;; env <- ask ;; ret (now env n).

(** [await axiosInstance.get(url)] *)
Definition axiosGet (url : jsstring) : M value :=
  n <- request ;; emit (HttpGet url) ;; env <- ask ;;
  match http_get env n url with
  | Ok v => ret v
  | Throw e => throw e
  end.

(** [await knex("tariffs").select("*").orderBy("delivery_liter", "asc")] *)
Definition knexSelect : M (list TariffBox.t) :=
  n <- request ;; emit DbSelect ;; env <- ask ;;
  match fault env n with
  | Some e => throw e
  | None =>
      tb <- getTable ;;
      ret (List.map (pg_decode env) (Db.selectOrderByDeliveryLiter tb))
  end.

(** [await knex("tariffs").insert(chunk).onConflict([...]).merge()] *)
Definition knexInsert (chunk : list Tariff.t) : M unit :=
  n <- request ;; emit (DbInsert chunk) ;; env <- ask ;;
  match fault env n with
  | Some e => throw e
  | None =>
      tb <- getTable ;;
      match Db.insertOnConflictMerge (pg_text env) chunk tb with
      | Ok tb' => setTable tb'
      | Throw e => throw e
      end
  end.

(** [await sheetsClient.spreadsheets.values.clear({ spreadsheetId, range })] *)
Definition sheetsClear (spreadsheetId range : jsstring) : M unit :=
  n <- request ;; emit (SheetsClear spreadsheetId range) ;; env <- ask ;;
  match fault env n with
  | Some e => throw e
  | None => ret tt
  end.

(** [await sheetsClient.spreadsheets.values.update({ ..., requestBody: { values } })] *)
Definition sheetsUpdate (spreadsheetId range : jsstring) (values : list (list cell))
  : M unit :=
  n <- request ;; emit (SheetsUpdate spreadsheetId range values) ;; env <- ask ;;
  match fault env n with
  | Some e => throw e
  | None => ret tt
  end.

(** A timer of [ms] milliseconds, awaited. *)
Definition sleep (ms : Z) : M unit := emit (Sleep ms).

(** The time Node gives the timer of [setTimeout(callback, delay)]: its
    [TIMEOUT_MAX] is [2^31 - 1], a delay that is not a number from 1 to
    [TIMEOUT_MAX] (also [Infinity] and [NaN]) is replaced by 1, and the
    delay is cut to whole milliseconds. *)
Definition TIMEOUT_MAX : Z := 2 ^ 31 - 1.

Definition timeoutOf (delay : number) : Z :=
  match delay with
  | S754_finite false m e =>
      let '(p, q) := fraction m e in
      if (q <=? p) && (p <=? TIMEOUT_MAX * q) then p / q else 1
  | _ => 1
  end.

Fixpoint mapM {A B} (f : A -> M B) (l : list A) : M (list B) :=
  match l with
  | [] => ret []
  | a :: r => b <- f a ;; bs <- mapM f r ;; ret (b :: bs)
  end.

Fixpoint forEach {A} (l : list A) (f : A -> M unit) : M unit :=
  match l with
  | [] => ret tt
  | a :: r => f a ;; forEach r f
  end.

End Eff.

(* ================================================================== *)
(** * src/services/WBTariffsSync.ts *)
(* ================================================================== *)

Module WBTariffsSync.
Import JS JSDate Types Eff.
Local Open Scope eff_scope.

Definition notAFunction : Error :=
  mkError (lit "value.trim is not a function"%string) [].
Definition cannotReadProperties : Error :=
  mkError (lit "Cannot read properties of undefined or null"%string) [].

(** [parseNumeric(value)], on its declared parameter type
    [string | null | undefined]; [None] stands for null and undefined. *)
Definition parseNumeric (value : option jsstring) : M (option number) :=
  match value with
  | None => ret None
  | Some s =>
      if negb (truthy (VString s)) || str_eqb (trim s) (lit "-"%string)
      then ret None
      else
        let parsed := parseFloat (replace (lit ","%string) (lit "."%string) s) in
        if isNaN (VNumber parsed) then
          log Logger.warn (Logger.FailedToConvert s) ;;
          ret None
        else ret (Some parsed)
  end.

(** The call [this.parseNumeric(v)] with [v : any], which the compiler
    does not check: a falsy value of another type returns null at the
    first test, and a truthy one has no [trim] method, so that calling it
    throws a TypeError. *)
Definition parseNumericAny (v : value) : M (option number) :=
  match v with
  | VUndefined | VNull => parseNumeric None
  | VString s => parseNumeric (Some s)
  | _ => if truthy v then throw notAFunction else ret None
  end.

(** [v?.name] *)
Definition optGet (v : value) (name : string) : value :=
  match v with
  | VUndefined | VNull => VUndefined
  | _ => getProp v (lit name)
  end.

(** [w.name] for [w : any] *)
Definition get (w : value) (name : string) : M value :=
  match w with
  | VUndefined | VNull => throw cannotReadProperties
  | _ => ret (getProp w (lit name))
  end.

(** The callback of [warehouseList.map]. *)
Definition toTariff (today : jsstring) (w : value) : M Tariff.t :=
  warehouseName <- get w "warehouseName" ;;
  boxDeliveryBase <- get w "boxDeliveryBase" ;;
  delivery_base <- parseNumericAny boxDeliveryBase ;;
  boxDeliveryLiter <- get w "boxDeliveryLiter" ;;
  delivery_liter <- parseNumericAny boxDeliveryLiter ;;
  boxDeliveryAndStorageExpr <- get w "boxDeliveryAndStorageExpr" ;;
  delivery_and_storage_expr <- parseNumericAny boxDeliveryAndStorageExpr ;;
  boxStorageBase <- get w "boxStorageBase" ;;
  storage_base <- parseNumericAny boxStorageBase ;;
  boxStorageLiter <- get w "boxStorageLiter" ;;
  storage_liter <- parseNumericAny boxStorageLiter ;;
  updated_at <- newDate ;;
  ret (Tariff.mk warehouseName delivery_base delivery_liter
         delivery_and_storage_expr storage_base storage_liter today updated_at).

(** [tariffs.slice(i, j)] *)
Definition slice {A} (i j : nat) (l : list A) : list A :=
  firstn (j - i) (skipn i l).

Definition chunkSize : nat := 100.

(** [for (let i = 0; i < tariffs.length; i += chunkSize) { ... }], started
    at [i]; every iteration consumes one unit of [fuel]. *)
Fixpoint insertChunks (fuel : nat) (i : nat) (tariffs : list Tariff.t) : M unit :=
  match fuel with
  | O => ret tt
  | S f =>
      if (i <? length tariffs)%nat then
        let chunk := slice i (i + chunkSize) tariffs in
        knexInsert chunk ;;
        insertChunks f (i + chunkSize) tariffs
      else ret tt
  end.

Definition url (today : jsstring) : jsstring :=
  lit "/tariffs/box?date="%string ++ today.

(** [response?.data?.response?.data?.warehouseList] *)
Definition warehouseListOf (response : value) : value :=
  optGet (optGet (optGet (optGet response "data") "response") "data")
         "warehouseList".

(** [date.toISOString().split("T")[0]] *)
Definition isoDate (d : Z) : jsstring := splitHead (cu "T") (toISOString d).

(** [sync()] *)
Definition sync : M unit :=
  d <- newDate ;;
  let today := isoDate d in
  log Logger.info (Logger.StartingSync today) ;;
  try_catch
    (response <- axiosGet (url today) ;;
     match warehouseListOf response with
     | VArray ws =>
         tariffs <- mapM (toTariff today) ws ;;
         log Logger.info (Logger.FoundTariffs (length tariffs)) ;;
         insertChunks (length tariffs) 0 tariffs ;;
         log Logger.info Logger.SyncCompleted
     | _ =>
         log Logger.warn Logger.InvalidDataFormat
     end)
    (fun err => log Logger.error (Logger.SyncError err)).

End WBTariffsSync.

(* ================================================================== *)
(** * src/services/GoogleTablesSync.ts *)
(* ================================================================== *)

Module TariffSheetSyncService.
Import JS JSDate Types Eff.
Local Open Scope eff_scope.

(** The fields of the service ([sheetsClient] is the outside world).
    [maxRetries] is declared a [number]: any Number can be given. *)
Record t := mk {
  spreadsheetId : jsstring;
  sheetName : jsstring;
  maxRetries : number
}.

(** The constructor, with its defaults. *)
Definition new (spreadsheetId : jsstring) (sheetName : option jsstring)
    (maxRetries : option number) : t :=
  mk spreadsheetId
     (match sheetName with Some n => n | None => lit "stocks_coefs"%string end)
     (match maxRetries with Some n => n | None => ofZ 3 end).

(** [getTariffData()] *)
Definition getTariffData : M (list TariffBox.t) := knexSelect.

(** [formatNumber(value)] *)
Definition formatNumber (value : value) : option jsstring :=
  let num := ToNumber value in
  if isNaN (VNumber num) then None
  else Some (replace (lit "."%string) (lit ","%string) (toFixed 2 num)).

(** [new Date(iso)] for a string or a Date. *)
Definition newDateOf (env : Env) (iso : dateArg) : timeValue :=
  match iso with
  | DNull => Some 0
  | DString s => TimeClip (Date_parse env s)
  | DDate t => TimeClip t
  end.

Definition LocalTime (env : Env) (t : Z) : Z := t + LocalTZA env t.

(** [getDate()], [getMonth()] and [getFullYear()]; [None] is [NaN]. *)
Definition getDate (env : Env) (d : timeValue) : option Z :=
  option_map (fun t => DateFromTime (LocalTime env t)) d.
Definition getMonth (env : Env) (d : timeValue) : option Z :=
  option_map (fun t => MonthFromTime (LocalTime env t)) d.
Definition getFullYear (env : Env) (d : timeValue) : option Z :=
  option_map (fun t => YearFromTime (LocalTime env t)) d.

(** [String(n)] / [`${n}`] for an integral Number or [NaN]. *)
Definition StringOf (n : option Z) : jsstring :=
  match n with
  | Some z => intToString z
  | None => lit "NaN"%string
  end.

(** [formatDate(iso)] *)
Definition formatDate (env : Env) (iso : dateArg) : option jsstring :=
  let falsy :=
    match iso with
    | DNull => true
    | DString s => negb (truthy (VString s))
    | DDate _ => false
    end in
  if falsy then None
  else
    let date := newDateOf env iso in
    let day := padStart 2 (cu "0") (StringOf (getDate env date)) in
    let month :=
      padStart 2 (cu "0") (StringOf (option_map (fun m => m + 1) (getMonth env date))) in
    let year := getFullYear env date in
    Some (day ++ lit "."%string ++ month ++ lit "."%string ++ StringOf year).

Definition headers : list cell :=
  List.map (fun h => CString (lit h))
    ["Date"; "Warehouse"; "DeliveryBase"; "DeliveryLiter";
     "DeliveryAndStorageExpr"; "StorageBase"; "StorageLiter"]%string.

(** [formatRows(data)] *)
Definition formatRows (env : Env) (data : list TariffBox.t) : list (list cell) :=
  let rows :=
    List.map (fun row =>
      [ cellOf (formatDate env (TariffBox.date row));
        CString (TariffBox.warehouse_name row);
        cellOf (formatNumber (TariffBox.delivery_base row));
        cellOf (formatNumber (TariffBox.delivery_liter row));
        cellOf (formatNumber (TariffBox.delivery_and_storage_expr row));
        cellOf (formatNumber (TariffBox.storage_base row));
        cellOf (formatNumber (TariffBox.storage_liter row)) ]) data in
  headers :: rows.

(** [clearSheet()] *)
Definition clearSheet (this : t) : M unit :=
  sheetsClear (spreadsheetId this) (sheetName this ++ lit "!A1:Z1000"%string).

(** [updateSheet(values)] *)
Definition updateSheet (this : t) (values : list (list cell)) : M unit :=
  sheetsUpdate (spreadsheetId this) (sheetName this ++ lit "!A1"%string) values.

(** The [try] block of one attempt. *)
Definition attemptBody (this : t) : M unit :=
  data <- getTariffData ;;
  env <- ask ;;
  let rows := formatRows env data in
  clearSheet this ;;
  updateSheet this rows ;;
  log Logger.info (Logger.Synced (spreadsheetId this) (Z.of_nat (length rows) - 1)).

(** The loop counter [attempt] starts at 1 and is only ever incremented:
    it is an integral Number, kept here as the integer it is.  Integers
    up to [2^53] are Numbers, and [2^53 + 1] rounds back to [2^53], where
    [attempt++] leaves the counter. *)
Definition increment (attempt : Z) : Z :=
  if attempt <? 2 ^ 53 then attempt + 1 else attempt.

(** [attempt <= x] and [attempt < x] for the counter and a Number [x],
    compared exactly ([NaN] compares false). *)
Definition leNumber (attempt : Z) (x : number) : bool :=
  match x with
  | S754_zero _ => attempt <=? 0
  | S754_infinity neg => negb neg
  | S754_nan => false
  | S754_finite neg m e =>
      let '(p, q) := fraction m e in
      attempt * q <=? (if neg then - p else p)
  end.

Definition ltNumber (attempt : Z) (x : number) : bool :=
  match x with
  | S754_zero _ => attempt <? 0
  | S754_infinity neg => negb neg
  | S754_nan => false
  | S754_finite neg m e =>
      let '(p, q) := fraction m e in
      attempt * q <? (if neg then - p else p)
  end.

(** [1000 * Math.pow(2, attempt)]: the power and the product are exact
    while they are below [2^1024], and [Infinity] from there on, which is
    what rounding the exact product gives. *)
Definition delayOf (attempt : Z) : number := ofZ (1000 * 2 ^ attempt).

(** The [catch] block of attempt number [attempt]; the timer is set by
    [setTimeout(res, delay)]. *)
Definition attemptFailed (this : t) (attempt : Z) (err : Error) : M unit :=
  log Logger.error (Logger.AttemptFailed attempt err (spreadsheetId this)) ;;
  if ltNumber attempt (maxRetries this) then
    let delay := delayOf attempt in
    log Logger.warn (Logger.Retrying delay) ;;
    sleep (timeoutOf delay)
  else
    log Logger.error (Logger.SyncFailedAfter (maxRetries this)).

(** [for (let attempt = ...; attempt <= this.maxRetries; attempt++) { ... }];
    the boolean of an iteration tells whether it ended in [break]. *)
Fixpoint attempts (fuel : nat) (this : t) (attempt : Z) : M unit :=
  match fuel with
  | O => ret tt
  | S f =>
      if leNumber attempt (maxRetries this) then
        broke <- try_catch
                   (attemptBody this ;; ret true)
                   (fun err => attemptFailed this attempt err ;; ret false) ;;
        if broke : bool then ret tt else attempts f this (increment attempt)
      else ret tt
  end.

(** The number of attempts the loop can make: the integral part of a
    positive [maxRetries], none for a [maxRetries] below 1 or [NaN].  For
    [Infinity] there is no bound ([None]). *)
Definition attemptsBound (maxRetries : number) : option Z :=
  match maxRetries with
  | S754_finite false m e => let '(p, q) := fraction m e in Some (p / q)
  | S754_infinity false => None
  | _ => Some 0
  end.

(** [sync()].  With a [maxRetries] below [2^53] the loop ends after at most
    [attemptsBound] attempts, which is the fuel given to it.  From [2^53]
    on (and for [Infinity]) the counter stops below the limit and the
    source loop ends only with a successful attempt: such a run is
    followed for that many attempts, or for [2^53] of them. *)
Definition attemptsLimit (maxRetries : number) : nat :=
  match attemptsBound maxRetries with
  | Some n => Z.to_nat n
  | None => Z.to_nat (2 ^ 53)
  end.

Definition sync (this : t) : M unit :=
  attempts (attemptsLimit (maxRetries this)) this 1.

End TariffSheetSyncService.

(* ================================================================== *)
(** * src/cron.ts *)
(* ================================================================== *)

Module Cron.
Import JS Types Eff.
Local Open Scope eff_scope.

(** The callback given to [cron.schedule("0 * * * *", ...)], over the two
    [sync] methods it calls. *)
Definition jobOf (fetch : M unit) (publish : jsstring -> M unit)
    (spreadsheetIds : list jsstring) : M unit :=
  log Logger.info Logger.RunningHourlyJob ;;
  try_catch
    (fetch ;;
     log Logger.info Logger.TariffsFetched ;;
     forEach spreadsheetIds publish)
    (fun error => log Logger.error (Logger.CronJobError error)).

Definition job (spreadsheetIds : list jsstring) : M unit :=
  jobOf WBTariffsSync.sync
        (fun spreadsheetId =>
           TariffSheetSyncService.sync
             (TariffSheetSyncService.new spreadsheetId None None))
        spreadsheetIds.

(** [n] firings of the schedule, one after the other (a firing that is
    still running when the next hour begins is not modelled).  A firing
    whose callback lets an error escape ends the process, and with it the
    schedule. *)
Fixpoint firings (callback : M unit) (n : nat) : M unit :=
  match n with
  | O => ret tt
  | S k => callback ;; firings callback k
  end.

(** [startCron()], followed by the first [n] firings of the schedule it
    sets up; [spreadsheetIds] is [env.GOOGLE_SHEETS_IDS]. *)
Definition startCron (spreadsheetIds : list jsstring) (n : nat) : M unit :=
  log Logger.info Logger.CronJobScheduled ;;
  firings (job spreadsheetIds) n.

End Cron.

(* ================================================================== *)
(** * src/config/env/env.ts *)
(* ================================================================== *)

(** The entries of [process.env] that the module reads, after
    [dotenv.config()]: each one is a string or undefined. *)
Module ProcessEnv.
Import JS.

Record t := mk {
  NODE_ENV : option jsstring;
  POSTGRES_HOST : option jsstring;
  POSTGRES_PORT : option jsstring;
  POSTGRES_DB : option jsstring;
  POSTGRES_USER : option jsstring;
  POSTGRES_PASSWORD : option jsstring;
  APP_PORT : option jsstring;
  WB_API_KEY : option jsstring;
  GOOGLE_SHEETS_IDS : option jsstring;
  GOOGLE_API_CREDENTIALS_PATH : option jsstring
}.

End ProcessEnv.

Module Config.
Import JS.

(** [str.split(sep)] for a separator of one code unit: the pieces between
    the separators, empty ones included. *)
Fixpoint split (sep : code_unit) (str : jsstring) : list jsstring :=
  match str with
  | [] => [[]]
  | c :: r =>
      if cu_eqb c sep then [] :: split sep r
      else
        match split sep r with
        | piece :: pieces => (c :: piece) :: pieces
        | [] => [[c]]
        end
  end.

(** The digits of radix [radix] that start [s]. *)
Fixpoint takeRadixDigits (radix : Z) (s : jsstring) : list Z :=
  match s with
  | c :: r =>
      match radixDigitValue radix c with
      | Some d => d :: takeRadixDigits radix r
      | None => []
      end
  | [] => []
  end.

(** The global [parseInt(string)], without a radix: leading white space
    and a sign are skipped, [0x] selects radix 16, the digits that follow
    are read up to the first other code unit, and there is [NaN] when
    there is none.  (Beyond 20 significant digits an engine may
    approximate; the nearest Number is taken here.) *)
Definition parseInt (string : jsstring) : number :=
  let s0 := trimStart string in
  let '(neg, s1) :=
    match s0 with
    | c :: r =>
        if cu_eqb c (cu "-") then (true, r)
        else if cu_eqb c (cu "+") then (false, r)
        else (false, s0)
    | [] => (false, s0)
    end in
  let '(radix, s2) :=
    match s1 with
    | z :: x :: r =>
        if cu_eqb z (cu "0") && (cu_eqb x (cu "x") || cu_eqb x (cu "X"))
        then (16, r) else (10, s1)
    | _ => (10, s1)
    end in
  match takeRadixDigits radix s2 with
  | [] => NaN
  | ds =>
      let mathInt := fold_left (fun a d => radix * a + d) ds 0 in
      if mathInt =? 0 then S754_zero neg
      else ofZ (if neg then - mathInt else mathInt)
  end.

Definition isDecimalDigit (c : code_unit) : bool :=
  ((cu "0" <=? c) && (c <=? cu "9"))%N.

(** [/^[0-9]+$/.test(s)] *)
Definition allDigits (s : jsstring) : bool :=
  match s with
  | [] => false
  | _ => forallb isDecimalDigit s
  end.

(** The class [[a-zA-Z0-9-_]]: the three ranges, the hyphen and the
    underscore. *)
Definition isIdChar (c : code_unit) : bool :=
  (((cu "a" <=? c) && (c <=? cu "z"))
   || ((cu "A" <=? c) && (c <=? cu "Z"))
   || ((cu "0" <=? c) && (c <=? cu "9"))
   || cu_eqb c (cu "-") || cu_eqb c (cu "_"))%N.

(** [/^[a-zA-Z0-9-_]+$/.test(id)] *)
Definition isId (id : jsstring) : bool :=
  match id with
  | [] => false
  | _ => forallb isIdChar id
  end.

Inductive NodeEnv := development | production.

(** The parsed configuration that the module exports. *)
Record t := mk {
  NODE_ENV : option NodeEnv;
  POSTGRES_HOST : option jsstring;
  POSTGRES_PORT : number;
  POSTGRES_DB : jsstring;
  POSTGRES_USER : jsstring;
  POSTGRES_PASSWORD : jsstring;
  APP_PORT : option number;
  WB_API_KEY : jsstring;
  GOOGLE_SHEETS_IDS : list jsstring;
  GOOGLE_API_CREDENTIALS_PATH : jsstring
}.

(** The schemas of the fields; [None] is a validation issue.

    [z.union([z.undefined(), z.enum(["development", "production"])])] *)
Definition nodeEnv (v : option jsstring) : option (option NodeEnv) :=
  match v with
  | None => Some None
  | Some s =>
      if str_eqb s (lit "development"%string) then Some (Some development)
      else if str_eqb s (lit "production"%string) then Some (Some production)
      else None
  end.

(** [z.union([z.undefined(), z.string()])] *)
Definition optionalString (v : option jsstring) : option (option jsstring) :=
  Some v.

(** [z.string()] *)
Definition requiredString (v : option jsstring) : option jsstring := v.

(** [z.string().regex(/^[0-9]+$/).transform((value) => parseInt(value))]:
    the transform runs only on a string that passed the check. *)
Definition port (v : option jsstring) : option number :=
  match v with
  | Some value => if allDigits value then Some (parseInt value) else None
  | None => None
  end.

(** [z.union([z.undefined(), z.string().regex(...).transform(...)])] *)
Definition optionalPort (v : option jsstring) : option (option number) :=
  match v with
  | None => Some None
  | Some _ => option_map Some (port v)
  end.

(** [z.string().min(1).transform((str) => str.split(",").map((id) => id.trim()))
      .refine((arr) => arr.every((id) => /^[a-zA-Z0-9-_]+$/.test(id)))] *)
Definition sheetIds (v : option jsstring) : option (list jsstring) :=
  match v with
  | Some str =>
      if (1 <=? length str)%nat then
        let arr := List.map trim (split (cu ",") str) in
        if forallb isId arr then Some arr else None
      else None
  | None => None
  end.

Definition issue {A} (path : string) (r : option A) : list string :=
  match r with
  | Some _ => []
  | None => [path]
  end.
Arguments issue {A} path%_string r.

(** [envSchema.parse({ ... })]: the configuration, or the paths of the
    issues of the ZodError that is thrown, in the order of the schema. *)
Definition parse (e : ProcessEnv.t) : list string + t :=
  let node_env := nodeEnv (ProcessEnv.NODE_ENV e) in
  let host := optionalString (ProcessEnv.POSTGRES_HOST e) in
  let pg_port := port (ProcessEnv.POSTGRES_PORT e) in
  let db := requiredString (ProcessEnv.POSTGRES_DB e) in
  let user := requiredString (ProcessEnv.POSTGRES_USER e) in
  let password := requiredString (ProcessEnv.POSTGRES_PASSWORD e) in
  let app_port := optionalPort (ProcessEnv.APP_PORT e) in
  let api_key := requiredString (ProcessEnv.WB_API_KEY e) in
  let ids := sheetIds (ProcessEnv.GOOGLE_SHEETS_IDS e) in
  let credentials := requiredString (ProcessEnv.GOOGLE_API_CREDENTIALS_PATH e) in
  match node_env, host, pg_port, db, user, password, app_port, api_key, ids,
        credentials with
  | Some a, Some b, Some c, Some d, Some f, Some g, Some h, Some i, Some j, Some k =>
      inr (mk a b c d f g h i j k)
  | _, _, _, _, _, _, _, _, _, _ =>
      inl (issue "NODE_ENV" node_env ++ issue "POSTGRES_HOST" host
           ++ issue "POSTGRES_PORT" pg_port ++ issue "POSTGRES_DB" db
           ++ issue "POSTGRES_USER" user ++ issue "POSTGRES_PASSWORD" password
           ++ issue "APP_PORT" app_port ++ issue "WB_API_KEY" api_key
           ++ issue "GOOGLE_SHEETS_IDS" ids
           ++ issue "GOOGLE_API_CREDENTIALS_PATH" credentials)
  end.

End Config.

(* ================================================================== *)
(** * Observations on runs *)
(* ================================================================== *)

Module Observe.
Import JS Types Eff.

(** The number of write statements sent to the database. *)
Definition dbWrites (tr : list Event) : nat :=
  length (filter (fun e => match e with DbInsert _ => true | _ => false end) tr).

(** The messages logged at a level. *)
Definition logged (l : Logger.level) (tr : list Event) : list Logger.message :=
  flat_map (fun e =>
    match e with
    | Log l' m =>
        match l, l' with
        | Logger.info, Logger.info
        | Logger.warn, Logger.warn
        | Logger.error, Logger.error => [m]
        | _, _ => []
        end
    | _ => []
    end) tr.

(** The retry loop seen from outside: every attempt begins with the read
    of the table; between attempts the service sleeps. *)
Inductive step :=
| Attempt
| Slept (ms : Z).

Definition steps (tr : list Event) : list step :=
  flat_map (fun e =>
    match e with
    | DbSelect => [Attempt]
    | Sleep ms => [Slept ms]
    | _ => []
    end) tr.

Definition sleeps (tr : list Event) : list Z :=
  flat_map (fun e => match e with Sleep ms => [ms] | _ => [] end) tr.

(** [n] attempts, the first one numbered [a], with a sleep of [delay i]
    milliseconds after attempt [i] when another attempt follows. *)
Fixpoint scheduleOf (delay : Z -> Z) (a : Z) (n : nat) : list step :=
  match n with
  | O => []
  | S m =>
      Attempt ::
      match m with
      | O => []
      | S _ => Slept (delay a) :: scheduleOf delay (a + 1) m
      end
  end.

(** The schedule with the delay [1000 * 2^i] after attempt [i]. *)
Definition scheduleFrom : Z -> nat -> list step :=
  scheduleOf (fun a => 1000 * 2 ^ a).

(** The time the timer set after attempt [attempt] runs. *)
Definition timer (attempt : Z) : Z :=
  timeoutOf (TariffSheetSyncService.delayOf attempt).

(** The failed attempts that were logged, with their errors. *)
Definition attemptLog (tr : list Event) : list (Z * Error) :=
  flat_map (fun e =>
    match e with
    | Log Logger.error (Logger.AttemptFailed a err _) => [(a, err)]
    | _ => []
    end) tr.


(** The failed attempts that were logged. *)
Definition failures (tr : list Event) : nat :=
  length (filter (fun e =>
    match e with
    | Log Logger.error (Logger.AttemptFailed _ _ _) => true
    | _ => false
    end) tr).

Definition isSynced (e : Event) : bool :=
  match e with
  | Log Logger.info (Logger.Synced _ _) => true
  | _ => false
  end.



Definition isDigit (c : code_unit) : bool :=
  ((cu "0" <=? c) && (c <=? cu "9"))%N.

(** The fixed-width form [DD.MM.YYYY]. *)
Definition isDDMMYYYY (s : jsstring) : bool :=
  match s with
  | [d1; d2; p1; m1; m2; p2; y1; y2; y3; y4] =>
      forallb isDigit [d1; d2; m1; m2; y1; y2; y3; y4]
      && cu_eqb p1 (cu ".") && cu_eqb p2 (cu ".")
  | _ => false
  end.

(** An optional minus sign, at least one digit, a comma, exactly two
    digits. *)
Definition isMoney (s : jsstring) : bool :=
  let body :=
    match s with
    | c :: r => if cu_eqb c (cu "-") then r else s
    | [] => s
    end in
  match rev body with
  | d2 :: d1 :: comma :: i :: ip =>
      isDigit d2 && isDigit d1 && cu_eqb comma (cu ",") && forallb isDigit (i :: ip)
  | _ => false
  end.

(** *** One attempt of the publisher, seen from outside *)

Section Attempt.
Import TariffSheetSyncService.
Variable this : TariffSheetSyncService.t.
Variable env : Env.

(** The records an attempt started in [w] reads. *)
Definition recordsRead (w : World) : list TariffBox.t :=
  List.map (pg_decode env) (Db.selectOrderByDeliveryLiter (tariffs w)).

(** The events of an attempt started in [w], up to its failure or its
    success: the three requests fail or succeed as the outside decides. *)
Definition attemptEvents (w : World) : list Event :=
  let grid := formatRows env (recordsRead w) in
  let clear := SheetsClear (spreadsheetId this)
                 (sheetName this ++ lit "!A1:Z1000"%string) in
  let update := SheetsUpdate (spreadsheetId this)
                  (sheetName this ++ lit "!A1"%string) grid in
  match fault env (tick w) with
  | Some _ => [DbSelect]
  | None =>
      match fault env (S (tick w)) with
      | Some _ => [DbSelect; clear]
      | None =>
          [DbSelect; clear; update]
          ++ match fault env (S (S (tick w))) with
             | Some _ => []
             | None => [Log Logger.info
                          (Logger.Synced (spreadsheetId this)
                             (Z.of_nat (length grid) - 1))]
             end
      end
  end.

Definition attemptResult (w : World) : result unit :=
  match fault env (tick w) with
  | Some e => Throw e
  | None =>
      match fault env (S (tick w)) with
      | Some e => Throw e
      | None =>
          match fault env (S (S (tick w))) with
          | Some e => Throw e
          | None => Ok tt
          end
      end
  end.

Definition attemptTicks (w : World) : nat :=
  match fault env (tick w) with
  | Some _ => 1
  | None => match fault env (S (tick w)) with Some _ => 2 | None => 3 end
  end.

(** The error of an attempt whose first request is request number [t]:
    that of the first of its three requests that fails, as the outside
    decides; and the number of requests the attempt makes. *)
Definition attemptError (t : nat) : option Error :=
  match fault env t with
  | Some e => Some e
  | None =>
      match fault env (S t) with
      | Some e => Some e
      | None => fault env (S (S t))
      end
  end.

Definition attemptRequests (t : nat) : nat :=
  match fault env t with
  | Some _ => 1
  | None => match fault env (S t) with Some _ => 2 | None => 3 end
  end.

(** The attempts that fail, with their numbers and errors, when the first
    of at most [n] attempts is attempt number [a] and begins with request
    number [t]: the outcomes the outside decides, up to the first attempt
    that succeeds. *)
Fixpoint failedAttempts (t : nat) (a : Z) (n : nat) : list (Z * Error) :=
  match n with
  | O => []
  | S m =>
      match attemptError t with
      | Some e => (a, e) :: failedAttempts (attemptRequests t + t) (a + 1) m
      | None => []
      end
  end.

(** The number of attempts made then: one more than the failed ones,
    and no more than [n]. *)
Definition attemptsMade (t : nat) (a : Z) (n : nat) : nat :=
  Nat.min n (S (length (failedAttempts t a n))).

(** How a run of the retry loop that starts with attempt number [a] at
    request number [t] and may make [fuel] attempts ended: it made the [k]
    attempts the outside decides, logged the failed ones, slept as long as
    the timers run, and either an attempt succeeded and its last event is
    the success message (after [k - 1] failures), or all [fuel] attempts
    failed and its last event is the terminal failure message. *)
Definition loopOutcome (t : nat) (a : Z) (fuel : nat) (k : nat)
    (tr : list Event) : Prop :=
  (1 <= k <= fuel)%nat
  /\ steps tr = scheduleOf timer a k
  /\ k = attemptsMade t a fuel
  /\ attemptLog tr = failedAttempts t a fuel
  /\ (((length (failedAttempts t a fuel) < fuel)%nat
       /\ exists pre n,
          tr = pre ++ [Log Logger.info (Logger.Synced (spreadsheetId this) n)]
          /\ filter isSynced pre = []
          /\ failures tr = (k - 1)%nat)
      \/ (k = fuel
          /\ length (failedAttempts t a fuel) = fuel
          /\ (exists pre,
                tr = pre ++ [Log Logger.error
                               (Logger.SyncFailedAfter (maxRetries this))])
          /\ filter isSynced tr = []
          /\ failures tr = k)).

End Attempt.

(** The row of the grid for one record, column by column. *)
Definition gridRow (env : Env) (r : TariffBox.t) : list cell :=
  [ cellOf (TariffSheetSyncService.formatDate env (TariffBox.date r));
    CString (TariffBox.warehouse_name r);
    cellOf (TariffSheetSyncService.formatNumber (TariffBox.delivery_base r));
    cellOf (TariffSheetSyncService.formatNumber (TariffBox.delivery_liter r));
    cellOf (TariffSheetSyncService.formatNumber (TariffBox.delivery_and_storage_expr r));
    cellOf (TariffSheetSyncService.formatNumber (TariffBox.storage_base r));
    cellOf (TariffSheetSyncService.formatNumber (TariffBox.storage_liter r)) ].

(** Ascending [delivery_liter], NULL last. *)
Definition byDeliveryLiter (a b : Db.row) : Prop :=
  Db.ascNullsLast (Db.delivery_liter a) (Db.delivery_liter b) = true.

(** *** Relations between the worlds before and after a computation *)

Definition isJobStart (e : Event) : bool :=
  match e with
  | Log Logger.info Logger.RunningHourlyJob => true
  | _ => false
  end.

(** The number of firings of the hourly job that were logged. *)
Definition jobStarts (tr : list Event) : nat := length (filter isJobStart tr).

(** [m] relates the world it starts in to the world it leaves, whether it
    returns or throws. *)
Definition respects (I : World -> World -> Prop) {A} (m : M A) : Prop :=
  forall env w, I w (snd (m env w)).


(** The trace only grows, and not by the start of another job. *)
Definition traceGrows (w w' : World) : Prop :=
  exists tr, trace w' = trace w ++ tr /\ jobStarts tr = 0%nat.

(** The world after a message is logged / after a computation. *)
Definition afterLog (l : Logger.level) (m : Logger.message) (w : World) : World :=
  mkWorld (tariffs w) (trace w ++ [Log l m]) (tick w).

Definition after {A} (m : M A) (env : Env) (w : World) : World := snd (m env w).




(** *** Numeric strings *)

(** The string made of the decimal digits [ds]. *)
Definition digits (ds : list Z) : jsstring := List.map digitChar ds.

Definition areDigits (ds : list Z) : Prop :=
  ds <> [] /\ Forall (fun d => 0 <= d <= 9) ds.

(** A number written with a comma for the decimal point:
    [-]ddd,ddd *)
Definition commaDecimal (neg : bool) (ip fp : list Z) : jsstring :=
  (if neg then lit "-"%string else [])
    ++ digits ip ++ lit ","%string ++ digits fp.

(** The code units with which a numeric string can start, once its first
    comma is a period. *)
Definition startsNumber (c : code_unit) : bool :=
  isDigit c
  || existsb (cu_eqb c) [cu "+"; cu "-"; cu "."; cu ","; cu "I"].

(** Text that is not empty and, after its leading white space, does not
    start like a number. *)
Definition isGarbage (s : jsstring) : bool :=
  match s with
  | [] => false
  | _ =>
      match trimStart s with
      | [] => true
      | c :: _ => negb (startsNumber c)
      end
  end.

(** *** Fixed-width decimal numbers *)

Definition twoDigits (n : Z) : jsstring :=
  [digitChar (n / 10); digitChar (n mod 10)].

Definition fourDigits (n : Z) : jsstring :=
  [digitChar (n / 1000); digitChar (n / 100 mod 10);
   digitChar (n / 10 mod 10); digitChar (n mod 10)].

(** The number of days of month [m] (1 to 12) of year [y]. *)
Definition daysInMonth (y m : Z) : Z :=
  if m =? 12 then 31
  else JSDate.monthStart y m - JSDate.monthStart y (m - 1).

(** The number that a string of decimal digits denotes. *)
Definition valueOf (s : jsstring) : Z :=
  fold_left (fun a c => 10 * a + (Z.of_N c - Z.of_N (cu "0"))) s 0.

(** The grids written to the spreadsheets. *)
Definition grids (tr : list Event) : list (list (list cell)) :=
  flat_map (fun e => match e with SheetsUpdate _ _ g => [g] | _ => [] end) tr.

(** A row of text cells. *)
Definition textRow (cells : list string) : list cell :=
  List.map (fun c => CString (lit c)) cells.

(** *** What a computation adds to the trace *)

(** The events that [w'] has on top of [w]. *)
Definition since (w w' : World) : list Event :=
  skipn (length (trace w)) (trace w').

(** The chunks given to [insert], in order. *)
Definition inserts (tr : list Event) : list (list Tariff.t) :=
  flat_map (fun e => match e with DbInsert c => [c] | _ => [] end) tr.

(** The numbers of HTTP requests and of reads of the table. *)
Definition httpGets (tr : list Event) : nat :=
  length (filter (fun e => match e with HttpGet _ => true | _ => false end) tr).

Definition selects (tr : list Event) : nat :=
  length (filter (fun e => match e with DbSelect => true | _ => false end) tr).

(** The requests made to the spreadsheet API. *)
Definition sheetRequests (tr : list Event) : nat :=
  length (filter (fun e =>
    match e with
    | SheetsClear _ _ | SheetsUpdate _ _ _ => true
    | _ => false
    end) tr).

(** The time slept, in milliseconds. *)
Definition totalSleep (tr : list Event) : Z := fold_right Z.add 0 (sleeps tr).

(** The events of the kinds that the fetcher and the publisher produce. *)
Definition isFetcherEvent (e : Event) : bool :=
  match e with
  | Log _ _ | HttpGet _ | DbInsert _ => true
  | _ => false
  end.

Definition isPublisherEvent (e : Event) : bool :=
  match e with
  | Log _ _ | DbSelect | SheetsClear _ _ | SheetsUpdate _ _ _ | Sleep _ => true
  | _ => false
  end.

Definition isLog (e : Event) : bool :=
  match e with
  | Log _ _ => true
  | _ => false
  end.

(** The trace grows by events that satisfy [P]. *)
Definition grows (P : Event -> bool) (w w' : World) : Prop :=
  exists tr, trace w' = trace w ++ tr /\ forallb P tr = true.

(** The trace grows by events that satisfy [P], and the table stays as
    it is. *)
Definition keeps (P : Event -> bool) (w w' : World) : Prop :=
  tariffs w' = tariffs w /\ grows P w w'.


(** *** Chunks *)

(** A list cut into pieces of [n] elements, the last one possibly
    shorter; [fuel] bounds the number of pieces. *)
Fixpoint chunksOf {A} (fuel n : nat) (l : list A) : list (list A) :=
  match fuel with
  | O => []
  | S f =>
      match l with
      | [] => []
      | _ => firstn n l :: chunksOf f n (skipn n l)
      end
  end.

Definition chunks {A} (n : nat) (l : list A) : list (list A) :=
  chunksOf (length l) n l.

(** The table after the statements for the chunks [cs] were all applied
    to [tb], one after the other; [None] when one of them is rejected. *)
Fixpoint commit (text : value -> jsstring) (cs : list (list Tariff.t))
    (tb : Db.table) : option Db.table :=
  match cs with
  | [] => Some tb
  | c :: r =>
      match Db.insertOnConflictMerge text c tb with
      | Ok tb' => commit text r tb'
      | Throw _ => None
      end
  end.

(** *** Records *)

Definition notNaN (v : option number) : bool :=
  match v with
  | Some x => negb (isNaN_num x)
  | None => true
  end.

(** A record that carries the date [today] and no [NaN]. *)
Definition stamped (today : jsstring) (t : Tariff.t) : Prop :=
  Tariff.date t = today
  /\ notNaN (Tariff.delivery_base t) = true
  /\ notNaN (Tariff.delivery_liter t) = true
  /\ notNaN (Tariff.delivery_and_storage_expr t) = true
  /\ notNaN (Tariff.storage_base t) = true
  /\ notNaN (Tariff.storage_liter t) = true.

(** The numeric fields of an entry of the upstream list. *)
Definition numericFields : list string :=
  ["boxDeliveryBase"; "boxDeliveryLiter"; "boxDeliveryAndStorageExpr";
   "boxStorageBase"; "boxStorageLiter"]%string.

(** A value that is truthy and not a string. *)
Definition truthyNonString (v : value) : bool :=
  match v with
  | VString _ => false
  | _ => truthy v
  end.

(** An entry that is null or undefined, or that has such a value in a
    numeric field. *)
Definition badEntry (w : value) : bool :=
  match w with
  | VUndefined | VNull => true
  | _ => existsb (fun name => truthyNonString (getProp w (lit name))) numericFields
  end.

(** The key under which a record is stored, when its name is a string. *)
Definition keyOf (t : Tariff.t) : option (jsstring * jsstring) :=
  match Tariff.warehouse_name t with
  | VString s => Some (s, Tariff.date t)
  | _ => None
  end.

(** Text that can follow a decimal literal without being read as part
    of it: nothing, or text that starts with neither a digit nor the
    letter of an exponent. *)
Definition endsNumber (rest : jsstring) : bool :=
  match rest with
  | [] => true
  | c :: _ => negb (isDigit c || cu_eqb c (cu "e") || cu_eqb c (cu "E"))
  end.

(** *** Configuration *)

(** [ids.join(sep)] *)
Fixpoint joinWith (sep : code_unit) (l : list jsstring) : jsstring :=
  match l with
  | [] => []
  | [a] => a
  | a :: r => a ++ sep :: joinWith sep r
  end.

(** An id written with white space before and after it: the text, the
    id, and whether the parts are what they should be. *)
Definition padId (p : jsstring * jsstring * jsstring) : jsstring :=
  let '(lead, id, trail) := p in lead ++ id ++ trail.

Definition idOf (p : jsstring * jsstring * jsstring) : jsstring :=
  let '(_, id, _) := p in id.

Definition isPadded (p : jsstring * jsstring * jsstring) : bool :=
  let '(lead, id, trail) := p in
  forallb isStrWhiteSpaceChar lead && Config.isId id
  && forallb isStrWhiteSpaceChar trail.

(** The integer that a Number is, if it is one. *)
Definition integerOf (x : number) : option Z :=
  match x with
  | S754_zero _ => Some 0
  | S754_finite neg m e =>
      let n := if neg then Zneg m else Zpos m in
      if 0 <=? e then Some (n * 2 ^ e)
      else if n mod 2 ^ (- e) =? 0 then Some (n / 2 ^ (- e)) else None
  | _ => None
  end.

(** The number of occurrences of a code unit. *)
Definition occurrences (c : code_unit) (s : jsstring) : nat :=
  length (filter (cu_eqb c) s).


End Observe.

(* ================================================================== *)
(** * A concrete outside world *)
(* ================================================================== *)

Module Example.
Import JS JSDate Types Eff.

Definition sheet : jsstring := lit "sheet-1"%string.

(** An entry of the upstream list. *)
Definition warehouse (name base liter expr sbase sliter : string) : value :=
  VObject [ (lit "warehouseName"%string, VString (lit name));
            (lit "boxDeliveryBase"%string, VString (lit base));
            (lit "boxDeliveryLiter"%string, VString (lit liter));
            (lit "boxDeliveryAndStorageExpr"%string, VString (lit expr));
            (lit "boxStorageBase"%string, VString (lit sbase));
            (lit "boxStorageLiter"%string, VString (lit sliter)) ].

(** The response object for a body [{ response: { data } }]. *)
Definition responseOf (data : list (jsstring * value)) : value :=
  VObject [ (lit "data"%string,
             VObject [ (lit "response"%string,
                        VObject [ (lit "data"%string, VObject data) ]) ]) ].

Definition response (ws : list value) : value :=
  responseOf [ (lit "warehouseList"%string, VArray ws) ].

Definition responseWithoutList : value := responseOf [].

Definition twoWarehouses : list value :=
  [ warehouse "Koledino" "48" "11,2" "-" "0,14" "0,07";
    warehouse "Tula" "52,5" "5,5" "13" "0,16" "-" ]%string.

(** The driver's defaults: a [decimal] column is read as its text, a
    [date] column as the Date of local midnight. *)
Definition decimalText (h : Z) : jsstring :=
  (if h <? 0 then lit "-"%string else [])
    ++ natToString (Z.abs h / 100) ++ lit "."%string ++ pad 2 (Z.abs h mod 100).

Definition numberOf (ds : list code_unit) : Z :=
  digitsValue (List.map (fun c => Z.of_N c - 48) ds).

(** The time value of midnight UTC of [YYYY-MM-DD]. *)
Definition parseIsoDate (s : jsstring) : timeValue :=
  match s with
  | [y1; y2; y3; y4; _; m1; m2; _; d1; d2] =>
      Some (MakeDate (numberOf [y1; y2; y3; y4]) (numberOf [m1; m2])
                     (numberOf [d1; d2]))
  | _ => None
  end.

(** Moscow time. *)
Definition tz : Z := 3 * 3600000.

Definition decodeColumn (c : option Z) : value :=
  match c with
  | Some h => VString (decimalText h)
  | None => VNull
  end.

Definition decode (r : Db.row) : TariffBox.t :=
  TariffBox.mk
    (DDate (option_map (fun t => t - tz) (parseIsoDate (Db.date r))))
    (Db.warehouse_name r)
    (decodeColumn (Db.delivery_and_storage_expr r))
    (decodeColumn (Db.delivery_base r))
    (decodeColumn (Db.delivery_liter r))
    (decodeColumn (Db.storage_base r))
    (decodeColumn (Db.storage_liter r)).

(** 2024-03-05T09:13:20Z *)
Definition start : Z := 1709630000000.

(** An outside with a clock that advances by one millisecond per request,
    an upstream that answers [r], and the failures [f]. *)
Definition envOf (clock : nat -> Z) (r : value) (f : nat -> option Error) : Env :=
  mkEnv clock (fun _ _ => Ok r) f ToString decode (fun _ => tz) parseIsoDate.

Definition ticking (n : nat) : Z := start + Z.of_nat n.

Definition noFault (n : nat) : option Error := None.



Definition env : Env := envOf ticking (response twoWarehouses) noFault.

Definition world : World := mkWorld Db.up [] 0.

(** The world after one run of the fetcher. *)
Definition fetched : World := snd (WBTariffsSync.sync env world).





(** The same outside, in New York in winter (UTC-5). *)
Definition envWest : Env :=
  mkEnv ticking (fun _ _ => Ok (response twoWarehouses)) noFault ToString
        decode (fun _ => - 5 * 3600000) parseIsoDate.

Definition koledino : jsstring * jsstring :=
  (lit "Koledino"%string, lit "2024-03-05"%string).

(** Two records for the same warehouse and day, the second one stamped a
    minute later. *)
Definition recordA : Tariff.t :=
  Tariff.mk (VString (lit "Koledino"%string))
    (Some (ofDecimal false 48 0)) (Some (ofDecimal false 112 (-1))) None
    (Some (ofDecimal false 14 (-2))) (Some (ofDecimal false 7 (-2)))
    (lit "2024-03-05"%string) start.

Definition recordB : Tariff.t :=
  Tariff.mk (VString (lit "Koledino"%string))
    (Some (ofDecimal false 50 0)) (Some (ofDecimal false 12 0)) None
    (Some (ofDecimal false 15 (-2))) (Some (ofDecimal false 8 (-2)))
    (lit "2024-03-05"%string) (start + 60000).


Definition tableOf (r : result Db.table) : Db.table :=
  match r with
  | Ok tb => tb
  | Throw _ => Db.up
  end.

Definition tableA : Db.table :=
  tableOf (Db.insertOnConflictMerge ToString [recordA] Db.up).

Definition tableB : Db.table :=
  tableOf (Db.insertOnConflictMerge ToString [recordB] tableA).



(** The error of a request that timed out. *)
Definition timedOut : Error :=
  mkError (lit "timeout of 10000ms exceeded"%string) [].


Definition envDown : Env :=
  mkEnv ticking (fun _ _ => Throw timedOut) noFault ToString decode
        (fun _ => tz) parseIsoDate.

(** A list whose second entry is null. *)
Definition withNull : list value :=
  [ warehouse "Koledino" "48" "11,2" "-" "0,14" "0,07"; VNull ]%string.

Definition envWithNull : Env := envOf ticking (response withNull) noFault.

(** The publisher that the job creates for [sheet]. *)
Definition publisher : TariffSheetSyncService.t :=
  TariffSheetSyncService.new sheet None None.

(** The world after that publisher ran on the empty table. *)
Definition published : World :=
  snd (TariffSheetSyncService.sync publisher env world).

(** The variables of a deployment. *)
Definition processEnv : ProcessEnv.t :=
  ProcessEnv.mk (Some (lit "production"%string)) (Some (lit "postgres"%string))
    (Some (lit "5432"%string)) (Some (lit "postgres"%string))
    (Some (lit "postgres"%string)) (Some (lit "postgres"%string))
    (Some (lit "5000"%string)) (Some (lit "key"%string))
    (Some (lit "sheet-1, sheet_2"%string))
    (Some (lit "./credentials.json"%string)).

End Example.

(* ================================================================== *)
(** * Properties *)
(* ================================================================== *)

Import JS JSDate Types Eff Observe.
Local Open Scope eff_scope.

(** ** Strings *)

Lemma cu_eqb_eq (a b : code_unit) : cu_eqb a b = true <-> a = b.
Proof. apply N.eqb_eq. Qed.

Lemma cu_eqb_refl (a : code_unit) : cu_eqb a a = true.
Proof. apply N.eqb_refl. Qed.

Lemma str_eqb_eq (a b : jsstring) : str_eqb a b = true <-> a = b.
Proof.
  revert b; induction a as [|x a IH]; intros [|y b]; simpl; split;
    try congruence; try discriminate; auto.
  - rewrite andb_true_iff, cu_eqb_eq, IH. intros [-> ->]; reflexivity.
  - intros E; injection E as -> ->.
    rewrite cu_eqb_refl. apply IH. reflexivity.
Qed.

Lemma str_eqb_refl (a : jsstring) : str_eqb a a = true.
Proof. apply str_eqb_eq; reflexivity. Qed.

Lemma str_eqb_neq (a b : jsstring) : a <> b -> str_eqb a b = false.
Proof.
  intros N. destruct (str_eqb a b) eqn:E; auto.
  apply str_eqb_eq in E. contradiction.
Qed.

(** Splits a goal about a decimal digit [d] into its ten cases. *)
Ltac digit_cases d H :=
  let C := fresh in
  assert (C : d = 0 \/ d = 1 \/ d = 2 \/ d = 3 \/ d = 4
              \/ d = 5 \/ d = 6 \/ d = 7 \/ d = 8 \/ d = 9) by lia;
  clear H;
  repeat (destruct C as [C|C]; [subst d|]); [..|subst d].

Lemma isDigit_digitChar (d : Z) : 0 <= d <= 9 -> isDigit (digitChar d) = true.
Proof. intros H. digit_cases d H; reflexivity. Qed.

Lemma decimalDigits_digits (fuel : nat) :
  forall n acc,
    Forall (fun c => isDigit c = true) acc ->
    Forall (fun c => isDigit c = true) (decimalDigits fuel n acc).
Proof.
  induction fuel as [|f IH]; intros n acc Hacc; cbn [decimalDigits]; [exact Hacc|].
  assert (Hd : isDigit (digitChar (n mod 10)) = true).
  { apply isDigit_digitChar. pose proof (Z.mod_pos_bound n 10). lia. }
  destruct (n <? 10); [constructor; assumption|].
  apply IH. constructor; assumption.
Qed.

Lemma decimalDigits_length (fuel : nat) :
  forall n acc, (length acc <= length (decimalDigits fuel n acc))%nat.
Proof.
  induction fuel as [|f IH]; intros n acc; cbn [decimalDigits]; [lia|].
  destruct (n <? 10); [cbn [length]; lia|].
  specialize (IH (n / 10) (digitChar (n mod 10) :: acc)). cbn [length] in IH. lia.
Qed.

Lemma natToString_digits (n : Z) :
  Forall (fun c => isDigit c = true) (natToString n).
Proof. apply decimalDigits_digits. constructor. Qed.

Lemma natToString_nonempty (n : Z) : (1 <= length (natToString n))%nat.
Proof.
  unfold natToString. cbn [decimalDigits].
  destruct (n <? 10); [cbn [length]; lia|].
  pose proof (decimalDigits_length (Z.to_nat (Z.log2 n)) (n / 10)
                [digitChar (n mod 10)]) as H.
  cbn [length] in H. exact H.
Qed.

(** [replace] with one-unit pattern and replacement changes the first
    occurrence. *)
Lemma replace_unit (x y : code_unit) (a b : jsstring) :
  Forall (fun c => cu_eqb x c = false) a ->
  replace [x] [y] (a ++ x :: b) = a ++ y :: b.
Proof.
  intros Ha. induction Ha as [|c a Hc _ IH].
  - cbn [app]. unfold replace at 1. fold replace.
    cbn [isPrefix]. rewrite cu_eqb_refl. reflexivity.
  - cbn [app]. unfold replace at 1. fold replace.
    cbn [isPrefix]. rewrite Hc. cbn [andb]. f_equal. exact IH.
Qed.

(** ** Running the effects *)

(** Steps through the effect primitives of a run. *)
Ltac run :=
  repeat (progress unfold bind, ret, throw, try_catch, request, ask, emit, log,
            sleep, newDate, axiosGet, getTable, setTable);
  cbn [tick tariffs trace fst snd].

(** ** The fetcher on a response without a list *)

Section FetcherShape.
Variable env : Env.
Variable w : World.

Let today : jsstring := WBTariffsSync.isoDate (now env (tick w)).

(** C3. When the upstream response has no array at
    [response.data.warehouseList], [WBTariffsSync.sync] returns normally,
    logs the warning about the data format, sends no write to the
    database and leaves the table as it was. *)
Theorem sync_invalid_format_writes_nothing (response : value) :
  http_get env (S (tick w)) (WBTariffsSync.url today) = Ok response ->
  (forall ws, WBTariffsSync.warehouseListOf response <> VArray ws) ->
  let tr := [ Log Logger.info (Logger.StartingSync today);
              HttpGet (WBTariffsSync.url today);
              Log Logger.warn Logger.InvalidDataFormat ] in
  WBTariffsSync.sync env w
    = (Ok tt, mkWorld (tariffs w) (trace w ++ tr) (S (S (tick w))))
  /\ dbWrites tr = 0%nat
  /\ logged Logger.warn tr = [Logger.InvalidDataFormat]
  /\ tariffs (snd (WBTariffsSync.sync env w)) = tariffs w.
Proof.
  intros Hget Hshape tr.
  assert (E : WBTariffsSync.sync env w
              = (Ok tt, mkWorld (tariffs w) (trace w ++ tr) (S (S (tick w))))).
  { unfold WBTariffsSync.sync. run. fold today. rewrite Hget.
    destruct (WBTariffsSync.warehouseListOf response) eqn:Ew;
      try (run; rewrite <- !app_assoc; reflexivity).
    exfalso. eapply Hshape. reflexivity. }
  rewrite E. repeat split; reflexivity.
Qed.

(** C10. An empty [warehouseList] is valid data: nothing is written, the
    format warning is not logged, and the run logs a count of 0 and then
    its completion. *)
Theorem sync_empty_list_is_valid (response : value) :
  http_get env (S (tick w)) (WBTariffsSync.url today) = Ok response ->
  WBTariffsSync.warehouseListOf response = VArray [] ->
  let tr := [ Log Logger.info (Logger.StartingSync today);
              HttpGet (WBTariffsSync.url today);
              Log Logger.info (Logger.FoundTariffs 0);
              Log Logger.info Logger.SyncCompleted ] in
  WBTariffsSync.sync env w
    = (Ok tt, mkWorld (tariffs w) (trace w ++ tr) (S (S (tick w))))
  /\ dbWrites tr = 0%nat
  /\ logged Logger.warn tr = []
  /\ logged Logger.info tr
     = [ Logger.StartingSync today; Logger.FoundTariffs 0; Logger.SyncCompleted ].
Proof.
  intros Hget Hlist tr.
  repeat split; try reflexivity.
  unfold WBTariffsSync.sync. run. fold today. rewrite Hget, Hlist.
  run. cbn [mapM]. run. cbn [WBTariffsSync.insertChunks length]. run.
  rewrite <- !app_assoc. reflexivity.
Qed.

End FetcherShape.

Lemma sync_invalid_format_witness :
  let env := Example.envOf Example.ticking Example.responseWithoutList
               Example.noFault in
  tariffs (snd (WBTariffsSync.sync env Example.world)) = tariffs Example.world.
Proof.
  intros env.
  destruct (sync_invalid_format_writes_nothing env Example.world
              Example.responseWithoutList) as (_ & _ & _ & H).
  - reflexivity.
  - intros ws E. vm_compute in E. discriminate E.
  - exact H.
Defined.

Lemma sync_empty_list_witness :
  let env := Example.envOf Example.ticking (Example.response [])
               Example.noFault in
  logged Logger.warn (trace (snd (WBTariffsSync.sync env Example.world))) = [].
Proof.
  intros env.
  destruct (sync_empty_list_is_valid env Example.world (Example.response []))
    as (E & _ & H & _).
  - reflexivity.
  - reflexivity.
  - rewrite E. exact H.
Defined.

(** ** Reading the table in order *)

Section OrderBy.

Lemma ascNullsLast_total (a b : option Z) :
  Db.ascNullsLast a b = true \/ Db.ascNullsLast b a = true.
Proof.
  destruct a as [x|], b as [y|]; simpl; auto.
  destruct (Z.leb_spec x y); [left; reflexivity|right; apply Z.leb_le; lia].
Qed.

Lemma ascNullsLast_trans (a b c : option Z) :
  Db.ascNullsLast a b = true -> Db.ascNullsLast b c = true ->
  Db.ascNullsLast a c = true.
Proof.
  destruct a as [x|], b as [y|], c as [z|]; simpl; try congruence.
  rewrite !Z.leb_le. lia.
Qed.

Lemma insertSorted_perm (r : Db.row) (l : list Db.row) :
  Permutation (Db.insertSorted r l) (r :: l).
Proof.
  induction l as [|h t IH]; simpl; [reflexivity|].
  destruct (Db.ascNullsLast (Db.delivery_liter r) (Db.delivery_liter h));
    [reflexivity|].
  rewrite IH. apply perm_swap.
Qed.

Lemma insertSorted_HdRel (x r : Db.row) (l : list Db.row) :
  byDeliveryLiter x r -> HdRel byDeliveryLiter x l ->
  HdRel byDeliveryLiter x (Db.insertSorted r l).
Proof.
  intros Hxr Hl. destruct l as [|h t]; simpl; [constructor; exact Hxr|].
  destruct (Db.ascNullsLast (Db.delivery_liter r) (Db.delivery_liter h));
    constructor; [exact Hxr|].
  inversion Hl; assumption.
Qed.

Lemma insertSorted_sorted (r : Db.row) (l : list Db.row) :
  Sorted byDeliveryLiter l -> Sorted byDeliveryLiter (Db.insertSorted r l).
Proof.
  induction l as [|h t IH]; intros Hs; simpl; [repeat constructor|].
  destruct (Db.ascNullsLast (Db.delivery_liter r) (Db.delivery_liter h)) eqn:E.
  - constructor; [exact Hs|constructor; exact E].
  - inversion Hs as [|? ? Ht Hh]; subst. constructor; [apply IH; exact Ht|].
    apply insertSorted_HdRel; [|exact Hh].
    destruct (ascNullsLast_total (Db.delivery_liter r) (Db.delivery_liter h));
      [congruence|assumption].
Qed.

Lemma select_sorted (tb : Db.table) :
  StronglySorted byDeliveryLiter (Db.selectOrderByDeliveryLiter tb).
Proof.
  apply Sorted_StronglySorted.
  - intros a b c. apply ascNullsLast_trans.
  - unfold Db.selectOrderByDeliveryLiter.
    induction (Db.rows tb) as [|r l IH]; simpl; [constructor|].
    apply insertSorted_sorted, IH.
Qed.

Lemma select_perm (tb : Db.table) :
  Permutation (Db.selectOrderByDeliveryLiter tb) (Db.rows tb).
Proof.
  unfold Db.selectOrderByDeliveryLiter.
  induction (Db.rows tb) as [|r l IH]; simpl; [reflexivity|].
  rewrite insertSorted_perm, IH. reflexivity.
Qed.

End OrderBy.

(** ** The publisher: one attempt *)

Section Publisher.
Import TariffSheetSyncService.
Variable this : TariffSheetSyncService.t.
Variable env : Env.

Let recordsRead := Observe.recordsRead env.
Let attemptEvents := Observe.attemptEvents this env.
Let attemptResult := Observe.attemptResult env.
Let attemptTicks := Observe.attemptTicks env.
Let loopOutcome := Observe.loopOutcome this env.

Lemma attemptBody_run (w : World) :
  attemptBody this env w
  = (attemptResult w,
     mkWorld (tariffs w) (trace w ++ attemptEvents w) (attemptTicks w + tick w)).
Proof.
  unfold attemptBody, getTariffData, knexSelect, clearSheet, updateSheet,
    sheetsClear, sheetsUpdate, attemptResult, attemptEvents, attemptTicks,
    Observe.attemptResult, Observe.attemptEvents, Observe.attemptTicks,
    Observe.recordsRead.
  run.
  destruct (fault env (tick w)); run; [reflexivity|].
  destruct (fault env (S (tick w))); run;
    [rewrite <- !app_assoc; reflexivity|].
  destruct (fault env (S (S (tick w)))); run;
    rewrite <- !app_assoc; reflexivity.
Qed.

Lemma attemptEvents_steps (w : World) : steps (attemptEvents w) = [Attempt].
Proof.
  unfold attemptEvents, Observe.attemptEvents.
  destruct (fault env (tick w)); [reflexivity|].
  destruct (fault env (S (tick w))); [reflexivity|].
  destruct (fault env (S (S (tick w)))); reflexivity.
Qed.

Lemma attemptEvents_failures (w : World) : failures (attemptEvents w) = 0%nat.
Proof.
  unfold attemptEvents, Observe.attemptEvents.
  destruct (fault env (tick w)); [reflexivity|].
  destruct (fault env (S (tick w))); [reflexivity|].
  destruct (fault env (S (S (tick w)))); reflexivity.
Qed.

Lemma attemptEvents_failed (w : World) (e : Error) :
  attemptResult w = Throw e -> filter isSynced (attemptEvents w) = [].
Proof.
  unfold attemptResult, attemptEvents, Observe.attemptResult, Observe.attemptEvents.
  destruct (fault env (tick w)); [reflexivity|].
  destruct (fault env (S (tick w))); [reflexivity|].
  destruct (fault env (S (S (tick w)))); [reflexivity|discriminate].
Qed.

Lemma attemptEvents_succeeded (w : World) :
  attemptResult w = Ok tt ->
  attemptEvents w
  = [DbSelect;
     SheetsClear (spreadsheetId this) (sheetName this ++ lit "!A1:Z1000"%string);
     SheetsUpdate (spreadsheetId this) (sheetName this ++ lit "!A1"%string)
       (formatRows env (recordsRead w));
     Log Logger.info
       (Logger.Synced (spreadsheetId this)
          (Z.of_nat (length (formatRows env (recordsRead w))) - 1))].
Proof.
  unfold attemptResult, attemptEvents, Observe.attemptResult, Observe.attemptEvents.
  destruct (fault env (tick w)); [discriminate|].
  destruct (fault env (S (tick w))); [discriminate|].
  destruct (fault env (S (S (tick w)))); [discriminate|reflexivity].
Qed.

(** ** The publisher: the retry loop *)

Lemma steps_app (a b : list Event) : steps (a ++ b) = steps a ++ steps b.
Proof. apply flat_map_app. Qed.

Lemma failures_app (a b : list Event) :
  failures (a ++ b) = (failures a + failures b)%nat.
Proof. unfold failures. rewrite filter_app, length_app. reflexivity. Qed.

(** The loop tests, for an integral [maxRetries]. *)
Lemma leNumber_integer (x : number) (n a : Z) :
  integerOf x = Some n ->
  leNumber a x = (a <=? n) /\ ltNumber a x = (a <? n).
Proof.
  destruct x as [sg|sg| |sg m e]; cbn [integerOf]; try discriminate.
  - intros [= <-]. split; reflexivity.
  - unfold leNumber, ltNumber, fraction.
    destruct e as [|e|e].
    + cbn [Z.leb]. intros [= <-].
      destruct sg; split; f_equal; lia.
    + replace (0 <=? Z.pos e) with true by reflexivity. intros [= <-].
      destruct sg; split; f_equal; lia.
    + replace (0 <=? Z.neg e) with false by reflexivity.
      change (- Z.neg e) with (Z.pos e).
      assert (Hq : 0 < 2 ^ Z.pos e) by (apply Z.pow_pos_nonneg; lia).
      set (q := 2 ^ Z.pos e) in *.
      set (n0 := if sg then Z.neg m else Z.pos m).
      destruct (Z.eqb_spec (n0 mod q) 0) as [Hm|]; [|discriminate].
      intros [= <-].
      assert (En : n0 = q * (n0 / q))
        by (rewrite (Z.div_mod n0 q) at 1; lia).
      assert (Ep : (if sg then - Z.pos m else Z.pos m) = n0)
        by (unfold n0; destruct sg; reflexivity).
      rewrite Ep. split.
      * destruct (Z.leb_spec (a * q) n0), (Z.leb_spec a (n0 / q));
          try reflexivity; nia.
      * destruct (Z.ltb_spec (a * q) n0), (Z.ltb_spec a (n0 / q));
          try reflexivity; nia.
Qed.

Lemma attemptResult_error (w : World) :
  attemptResult w
  = match attemptError env (tick w) with
    | Some e => Throw e
    | None => Ok tt
    end.
Proof.
  unfold attemptResult, Observe.attemptResult, attemptError.
  destruct (fault env (tick w)); [reflexivity|].
  destruct (fault env (S (tick w))); [reflexivity|].
  destruct (fault env (S (S (tick w)))); reflexivity.
Qed.

Lemma attemptTicks_requests (w : World) :
  attemptTicks w = attemptRequests env (tick w).
Proof. reflexivity. Qed.

Lemma attemptEvents_log (w : World) : attemptLog (attemptEvents w) = [].
Proof.
  unfold attemptEvents, Observe.attemptEvents.
  destruct (fault env (tick w)); [reflexivity|].
  destruct (fault env (S (tick w))); [reflexivity|].
  destruct (fault env (S (S (tick w)))); reflexivity.
Qed.

Lemma attemptLog_app (a b : list Event) :
  attemptLog (a ++ b) = attemptLog a ++ attemptLog b.
Proof. apply flat_map_app. Qed.

Lemma failedAttempts_length (t : nat) (a : Z) (n : nat) :
  (length (failedAttempts env t a n) <= n)%nat.
Proof.
  revert t a; induction n as [|n IH]; intros t a; cbn [failedAttempts];
    [cbn; lia|].
  destruct (attemptError env t); cbn [length]; [|lia].
  specialize (IH (attemptRequests env t + t)%nat (a + 1)). lia.
Qed.

Lemma attempts_run (n : Z) (fuel : nat) :
  integerOf (maxRetries this) = Some n ->
  n < 2 ^ 53 ->
  forall (a : Z) (w : World),
    (1 <= fuel)%nat ->
    Z.of_nat fuel = n - a + 1 ->
    exists k tr w',
      attempts fuel this a env w = (Ok tt, w')
      /\ trace w' = trace w ++ tr
      /\ tariffs w' = tariffs w
      /\ loopOutcome (tick w) a fuel k tr.
Proof.
  intros Hn Hbig.
  induction fuel as [|f IH]; intros a w Hf Ha; [lia|].
  cbn [attempts].
  destruct (leNumber_integer _ n a Hn) as [Ele Elt].
  rewrite Ele.
  assert (Hle : (a <=? n) = true) by (apply Z.leb_le; lia).
  rewrite Hle. unfold bind at 1, try_catch. unfold bind at 1.
  rewrite attemptBody_run.
  pose proof (attemptResult_error w) as Herr.
  unfold loopOutcome, Observe.loopOutcome, attemptsMade.
  cbn [failedAttempts].
  destruct (attemptResult w) as [[]|e] eqn:Hres.
  - (* the attempt succeeded: break *)
    destruct (attemptError env (tick w)) as [e'|] eqn:He; [discriminate|].
    run. exists 1%nat, (attemptEvents w). eexists. split; [reflexivity|].
    cbn [trace tariffs length].
    split; [reflexivity|]. split; [reflexivity|].
    split; [lia|]. split; [apply attemptEvents_steps|].
    split; [lia|]. split; [apply attemptEvents_log|].
    left. split; [lia|]. rewrite (attemptEvents_succeeded w Hres).
    eexists [_; _; _], _. repeat split.
  - (* the attempt failed *)
    destruct (attemptError env (tick w)) as [e'|] eqn:He; [|discriminate].
    injection Herr as <-.
    unfold attemptFailed. rewrite Elt.
    destruct (a <? n) eqn:Hlt.
    + (* another attempt follows, after the timer *)
      apply Z.ltb_lt in Hlt. run.
      replace (increment a) with (a + 1)
        by (unfold increment;
            replace (a <? 2 ^ 53) with true by (symmetry; apply Z.ltb_lt; lia);
            reflexivity).
      destruct (IH (a + 1)
                  (mkWorld (tariffs w)
                     ((((trace w ++ attemptEvents w)
                        ++ [Log Logger.error
                              (Logger.AttemptFailed a e (spreadsheetId this))])
                       ++ [Log Logger.warn (Logger.Retrying (delayOf a))])
                      ++ [Sleep (timeoutOf (delayOf a))])
                     (attemptTicks w + tick w)))
        as (k & tr & w' & Hrun & Htr & Htb
            & (Hk & Hsteps & Hmade & Hlog & Hend)); [lia|lia|].
      cbn [trace tariffs tick] in Htr, Htb, Hmade, Hlog, Hend.
      rewrite attemptTicks_requests in Hmade, Hlog, Hend.
      unfold attemptsMade in Hmade.
      set (rest := failedAttempts env (attemptRequests env (tick w) + tick w)
                     (a + 1) f) in *.
      set (failed := [Log Logger.error
                        (Logger.AttemptFailed a e (spreadsheetId this));
                      Log Logger.warn (Logger.Retrying (delayOf a));
                      Sleep (timeoutOf (delayOf a))]).
      exists (S k), (attemptEvents w ++ failed ++ tr), w'.
      split; [exact Hrun|]. split.
      { rewrite Htr. unfold failed. rewrite <- !app_assoc. reflexivity. }
      split; [exact Htb|].
      assert (Hf0 : filter isSynced (attemptEvents w ++ failed) = []).
      { rewrite filter_app, (attemptEvents_failed w e Hres). reflexivity. }
      assert (Hf1 : failures (attemptEvents w ++ failed) = 1%nat).
      { rewrite failures_app, attemptEvents_failures. reflexivity. }
      cbn [length].
      split; [lia|]. split.
      { rewrite !steps_app, attemptEvents_steps, Hsteps.
        destruct k as [|k']; [lia|]. reflexivity. }
      split; [lia|]. split.
      { rewrite !attemptLog_app, attemptEvents_log, Hlog. reflexivity. }
      destruct Hend as [(Hlen & pre & m & Epre & Hpre & Hfail)
                       |(Ek & Hlen & (pre & Epre) & Hnone & Hfail)].
      * left. split; [lia|]. exists (attemptEvents w ++ failed ++ pre), m.
        split; [rewrite Epre, <- !app_assoc; reflexivity|].
        split.
        { rewrite app_assoc, filter_app, Hf0, Hpre. reflexivity. }
        rewrite app_assoc, failures_app, Hf1, Hfail. lia.
      * right. split; [lia|]. split; [lia|]. split.
        { exists (attemptEvents w ++ failed ++ pre).
          rewrite Epre, <- !app_assoc. reflexivity. }
        split.
        { rewrite app_assoc, filter_app, Hf0, Hnone. reflexivity. }
        rewrite app_assoc, failures_app, Hf1, Hfail. lia.
    + (* this was the last attempt: the terminal failure is logged *)
      apply Z.ltb_ge in Hlt.
      assert (f = 0%nat) by lia. subst f. run. cbn [attempts]. run.
      set (failed := [Log Logger.error
                        (Logger.AttemptFailed a e (spreadsheetId this));
                      Log Logger.error
                        (Logger.SyncFailedAfter (maxRetries this))]).
      exists 1%nat, (attemptEvents w ++ failed). eexists.
      split; [reflexivity|]. cbn [trace tariffs failedAttempts length].
      split; [unfold failed; rewrite <- !app_assoc; reflexivity|].
      split; [reflexivity|]. split; [lia|]. split.
      { rewrite steps_app, attemptEvents_steps. reflexivity. }
      split; [reflexivity|]. split.
      { rewrite attemptLog_app, attemptEvents_log. reflexivity. }
      right. split; [reflexivity|]. split; [reflexivity|]. split.
      { exists (attemptEvents w
                ++ [Log Logger.error
                      (Logger.AttemptFailed a e (spreadsheetId this))]).
        unfold failed. rewrite <- app_assoc. reflexivity. }
      split.
      { rewrite filter_app, (attemptEvents_failed w e Hres). reflexivity. }
      rewrite failures_app, attemptEvents_failures. reflexivity.
Qed.

(** ** The backoff schedule *)

Lemma sleeps_of_steps (tr : list Event) :
  sleeps tr
  = flat_map (fun s => match s with Slept ms => [ms] | Attempt => [] end)
      (steps tr).
Proof.
  induction tr as [|e tr IH]; [reflexivity|].
  destruct e; simpl; rewrite ?IH; reflexivity.
Qed.

Lemma scheduleFrom_next (a : Z) (k : nat) :
  scheduleFrom a (S (S k))
  = Attempt :: Slept (1000 * 2 ^ a) :: scheduleFrom (a + 1) (S k).
Proof. reflexivity. Qed.

Lemma schedule_delays (k a : nat) :
  flat_map (fun s => match s with Slept ms => [ms] | Attempt => [] end)
    (scheduleFrom (Z.of_nat a) k)
  = List.map (fun i => 1000 * 2 ^ Z.of_nat i) (seq a (k - 1)).
Proof.
  revert a; induction k as [|k IH]; intros a; [reflexivity|].
  destruct k as [|k]; [reflexivity|].
  rewrite scheduleFrom_next.
  replace (Z.of_nat a + 1) with (Z.of_nat (S a)) by lia.
  cbn [flat_map app]. rewrite IH.
  replace (S (S k) - 1)%nat with (S (S k - 1)) by lia.
  reflexivity.
Qed.


(** The timers: up to attempt 21 the delay [1000 * 2^attempt] is a time
    Node's timers take as it is. *)
Lemma timer_nominal (a : Z) : 1 <= a <= 21 -> timer a = 1000 * 2 ^ a.
Proof.
  intros Ha.
  assert (Hall : forallb (fun i => timer (Z.of_nat i) =? 1000 * 2 ^ Z.of_nat i)
                   (seq 1 21) = true) by (vm_compute; reflexivity).
  rewrite forallb_forall in Hall.
  specialize (Hall (Z.to_nat a)).
  rewrite Z2Nat.id in Hall by lia.
  apply Z.eqb_eq, Hall, in_seq. lia.
Qed.

Lemma schedule_nominal (k : nat) :
  forall a, 1 <= a -> a + Z.of_nat k <= 23 ->
    scheduleOf timer a k = scheduleFrom a k.
Proof.
  induction k as [|k IH]; intros a Ha Hk; [reflexivity|].
  destruct k as [|k]; [reflexivity|].
  change (scheduleOf timer a (S (S k)))
    with (Attempt :: Slept (timer a) :: scheduleOf timer (a + 1) (S k)).
  rewrite scheduleFrom_next, timer_nominal, IH by lia. reflexivity.
Qed.

Lemma fraction_pos (m : positive) (e : Z) :
  0 < fst (fraction m e) /\ 0 < snd (fraction m e).
Proof.
  unfold fraction. destruct e; cbn [fst snd]; split; try lia;
    try (apply Z.mul_pos_pos; [lia|]); apply Z.pow_pos_nonneg; lia.
Qed.

(** The bound on the attempts, for an integral [maxRetries]. *)
Lemma attemptsBound_integer (x : number) (n : Z) :
  integerOf x = Some n -> 1 <= n -> attemptsBound x = Some n.
Proof.
  intros Hn Hr.
  pose proof (leNumber_integer _ n 1 Hn) as [E1 _].
  pose proof (leNumber_integer _ n n Hn) as [E2 _].
  pose proof (leNumber_integer _ n (n + 1) Hn) as [E3 _].
  replace (1 <=? n) with true in E1 by (symmetry; apply Z.leb_le; lia).
  replace (n <=? n) with true in E2 by (symmetry; apply Z.leb_le; lia).
  replace (n + 1 <=? n) with false in E3 by (symmetry; apply Z.leb_gt; lia).
  destruct x as [sg|sg| |sg m e]; try discriminate.
  unfold attemptsBound. unfold leNumber in E1, E2, E3.
  destruct (fraction m e) as [p q] eqn:Ef.
  assert (Hq : 0 < p /\ 0 < q).
  { pose proof (fraction_pos m e) as Hp. rewrite Ef in Hp. exact Hp. }
  apply Z.leb_le in E1, E2. apply Z.leb_gt in E3.
  destruct sg; [lia|].
  f_equal. symmetry. apply Z.div_unique with (r := p - q * n); nia.
Qed.

(** The run of [sync] for an integral [maxRetries] below [2^53]. *)
Lemma sync_run (n : Z) (w : World) :
  integerOf (maxRetries this) = Some n ->
  1 <= n < 2 ^ 53 ->
  exists k tr w',
    sync this env w = (Ok tt, w')
    /\ trace w' = trace w ++ tr
    /\ tariffs w' = tariffs w
    /\ loopOutcome (tick w) 1 (Z.to_nat n) k tr.
Proof.
  intros Hn Hr. unfold sync, attemptsLimit.
  rewrite (attemptsBound_integer _ n Hn) by lia.
  apply (attempts_run n (Z.to_nat n) Hn); lia.
Qed.


(** An integral [maxRetries] below 1 fails the loop test at once. *)
Lemma below_one (x : number) (n : Z) :
  integerOf x = Some n -> n < 1 -> leNumber 1 x = false.
Proof.
  intros Hn Hlt. rewrite (proj1 (leNumber_integer x n 1 Hn)).
  apply Z.leb_gt. lia.
Qed.

(** C9. With [maxRetries < 1] (with any [maxRetries] for which the loop
    test [1 <= maxRetries] is false: every Number below 1, and [NaN]) the
    loop body never runs: [sync] returns at once; the world, and with it
    the table, the log and the requests made, is unchanged. *)
Theorem sync_without_attempts (w : World) :
  leNumber 1 (maxRetries this) = false -> sync this env w = (Ok tt, w).
Proof.
  intros Hmax. unfold sync.
  destruct (attemptsLimit (maxRetries this)); [reflexivity|].
  cbn [attempts]. rewrite Hmax. reflexivity.
Qed.

(** C5. A successful attempt reads the rows of the table in ascending
    order of [delivery_liter] and writes the grid made of the header row
    of 7 columns followed by one row of 7 cells per record, in the order
    date, warehouse, delivery_base, delivery_liter,
    delivery_and_storage_expr, storage_base, storage_liter; for [n]
    records the grid has [n + 1] rows. *)
Theorem successful_attempt_grid (w w' : World) :
  attemptBody this env w = (Ok tt, w') ->
  let rows := Db.selectOrderByDeliveryLiter (tariffs w) in
  let records := List.map (pg_decode env) rows in
  let grid := headers :: List.map (gridRow env) records in
  StronglySorted byDeliveryLiter rows
  /\ Permutation rows (Db.rows (tariffs w))
  /\ trace w'
     = trace w
       ++ [DbSelect;
           SheetsClear (spreadsheetId this) (sheetName this ++ lit "!A1:Z1000"%string);
           SheetsUpdate (spreadsheetId this) (sheetName this ++ lit "!A1"%string) grid;
           Log Logger.info
             (Logger.Synced (spreadsheetId this) (Z.of_nat (length records)))]
  /\ length headers = 7%nat
  /\ Forall (fun r => length r = 7%nat) grid
  /\ length grid = S (length records)
  /\ tariffs w' = tariffs w.
Proof.
  intros Hrun rows records grid.
  rewrite attemptBody_run in Hrun. injection Hrun as Hres Hw'.
  subst w'. cbn [trace tariffs].
  rewrite (attemptEvents_succeeded w Hres).
  split; [apply select_sorted|].
  split; [apply select_perm|].
  split.
  { unfold formatRows. fold (gridRow env).
    change (recordsRead w) with records. cbn [length]. rewrite length_map.
    replace (Z.of_nat (S (length records)) - 1)
      with (Z.of_nat (length records)) by lia.
    reflexivity. }
  split; [reflexivity|].
  split.
  { constructor; [reflexivity|].
    apply Forall_forall. intros r Hr.
    apply in_map_iff in Hr. destruct Hr as (x & <- & _). reflexivity. }
  split; [unfold grid; cbn [length]; rewrite length_map; reflexivity|].
  reflexivity.
Qed.

End Publisher.



Lemma sync_without_attempts_witness :
  TariffSheetSyncService.sync
    (TariffSheetSyncService.new Example.sheet None (Some (ofZ 0)))
    Example.env Example.world
  = (Ok tt, Example.world).
Proof.
  apply sync_without_attempts. vm_compute. reflexivity.
Defined.

Lemma successful_attempt_witness :
  let this := TariffSheetSyncService.new Example.sheet None None in
  length (TariffSheetSyncService.headers
            :: List.map (gridRow Example.env)
                 (List.map Example.decode
                    (Db.selectOrderByDeliveryLiter (tariffs Example.fetched))))
  = 3%nat.
Proof.
  intros this.
  destruct (successful_attempt_grid this Example.env Example.fetched
              (snd (TariffSheetSyncService.attemptBody this Example.env
                      Example.fetched)))
    as (_ & _ & _ & _ & _ & H & _).
  - vm_compute. reflexivity.
  - cbn [pg_decode Example.env Example.envOf] in H. rewrite H.
    vm_compute. reflexivity.
Defined.

(** ** Relations that every computation of the pipeline respects *)

Section Respects.
Variable I : World -> World -> Prop.
Hypothesis I_refl : forall w, I w w.
Hypothesis I_trans : forall a b c, I a b -> I b c -> I a c.
Hypothesis I_emit :
  forall w e, isJobStart e = false ->
    I w (mkWorld (tariffs w) (trace w ++ [e]) (tick w)).
Hypothesis I_request :
  forall w, I w (mkWorld (tariffs w) (trace w) (S (tick w))).
Hypothesis I_insert :
  forall w text chunk tb',
    Db.insertOnConflictMerge text chunk (tariffs w) = Ok tb' ->
    I w (mkWorld tb' (trace w) (tick w)).

Lemma respects_ret {A} (a : A) : respects I (ret a).
Proof. intros env w. apply I_refl. Qed.

Lemma respects_throw {A} (e : Error) : respects I (@throw A e).
Proof. intros env w. apply I_refl. Qed.

Lemma respects_bind {A B} (m : M A) (k : A -> M B) :
  respects I m -> (forall a, respects I (k a)) -> respects I (bind m k).
Proof.
  intros Hm Hk env w. unfold bind. specialize (Hm env w).
  destruct (m env w) as [[a|e] w1]; cbn [snd] in *; [|exact Hm].
  eapply I_trans; [exact Hm|apply Hk].
Qed.

Lemma respects_try_catch {A} (body : M A) (handler : Error -> M A) :
  respects I body -> (forall e, respects I (handler e)) ->
  respects I (try_catch body handler).
Proof.
  intros Hb Hh env w. unfold try_catch. specialize (Hb env w).
  destruct (body env w) as [[a|e] w1]; cbn [snd] in *; [exact Hb|].
  eapply I_trans; [exact Hb|apply Hh].
Qed.

Lemma respects_emit (e : Event) : isJobStart e = false -> respects I (emit e).
Proof. intros He env w. apply I_emit, He. Qed.

Lemma respects_request : respects I request.
Proof. intros env w. apply I_request. Qed.

Lemma respects_ask : respects I ask.
Proof. intros env w. apply I_refl. Qed.

Lemma respects_getTable : respects I getTable.
Proof. intros env w. apply I_refl. Qed.

(** Applies the rules above along the structure of a computation. *)
Ltac respect :=
  repeat first
    [ apply respects_ret
    | apply respects_throw
    | apply respects_request
    | apply respects_ask
    | apply respects_getTable
    | apply respects_emit; reflexivity
    | apply respects_bind; [|intros ?]
    | apply respects_try_catch; [|intros ?]
    | match goal with
      | |- respects _ (match ?x with _ => _ end) => destruct x
      | |- respects _ (if ?x then _ else _) => destruct x
      end
    | assumption ].

Lemma respects_log l m :
  isJobStart (Log l m) = false -> respects I (log l m).
Proof. apply respects_emit. Qed.

Lemma respects_newDate : respects I newDate.
Proof. unfold newDate. respect. Qed.

Lemma respects_axiosGet url : respects I (axiosGet url).
Proof. unfold axiosGet. respect. Qed.

Lemma respects_knexSelect : respects I knexSelect.
Proof. unfold knexSelect. respect. Qed.

Lemma respects_sheetsClear a b : respects I (sheetsClear a b).
Proof. unfold sheetsClear. respect. Qed.

Lemma respects_sheetsUpdate a b c : respects I (sheetsUpdate a b c).
Proof. unfold sheetsUpdate. respect. Qed.

Lemma respects_sleep ms : respects I (sleep ms).
Proof. unfold sleep. respect. Qed.

Lemma respects_knexInsert chunk : respects I (knexInsert chunk).
Proof.
  unfold knexInsert.
  apply respects_bind; [apply respects_request|intros n].
  apply respects_bind; [apply respects_emit; reflexivity|intros _].
  apply respects_bind; [apply respects_ask|intros env'].
  destruct (fault env' n); [apply respects_throw|].
  intros env w. cbn [getTable bind snd].
  destruct (Db.insertOnConflictMerge (pg_text env') chunk (tariffs w)) eqn:E;
    cbn [setTable throw snd]; [|apply I_refl].
  eapply I_insert, E.
Qed.

Lemma respects_mapM {A B} (f : A -> M B) (l : list A) :
  (forall a, respects I (f a)) -> respects I (mapM f l).
Proof. intros Hf. induction l; cbn [mapM]; respect. apply Hf. Qed.

Lemma respects_forEach {A} (l : list A) (f : A -> M unit) :
  (forall a, respects I (f a)) -> respects I (forEach l f).
Proof. intros Hf. induction l; cbn [forEach]; respect. apply Hf. Qed.

Lemma respects_parseNumeric v : respects I (WBTariffsSync.parseNumeric v).
Proof. unfold WBTariffsSync.parseNumeric, log. respect. Qed.

Lemma respects_parseNumericAny v : respects I (WBTariffsSync.parseNumericAny v).
Proof.
  unfold WBTariffsSync.parseNumericAny.
  destruct v; try apply respects_parseNumeric;
    destruct (truthy _); first [apply respects_throw|apply respects_ret].
Qed.

Lemma respects_get w name : respects I (WBTariffsSync.get w name).
Proof. unfold WBTariffsSync.get. respect. Qed.

Lemma respects_toTariff today w : respects I (WBTariffsSync.toTariff today w).
Proof.
  unfold WBTariffsSync.toTariff.
  repeat first [ apply respects_get | apply respects_parseNumericAny
               | apply respects_newDate | apply respects_ret
               | apply respects_bind; [|intros ?] ].
Qed.

Lemma respects_insertChunks fuel i l :
  respects I (WBTariffsSync.insertChunks fuel i l).
Proof.
  revert i; induction fuel as [|f IH]; intros i;
    cbn [WBTariffsSync.insertChunks]; [apply respects_ret|].
  destruct (i <? length l)%nat; [|apply respects_ret].
  apply respects_bind; [apply respects_knexInsert|intros _; apply IH].
Qed.

Lemma respects_fetcher : respects I WBTariffsSync.sync.
Proof.
  unfold WBTariffsSync.sync, log.
  repeat first [ apply respects_newDate | apply respects_axiosGet
               | apply respects_insertChunks
               | apply respects_mapM; intros ?; apply respects_toTariff
               | apply respects_emit; reflexivity
               | apply respects_bind; [|intros ?]
               | apply respects_try_catch; [|intros ?]
               | match goal with
                 | |- respects _ (match ?x with _ => _ end) => destruct x
                 end ].
Qed.

Lemma respects_attemptBody this :
  respects I (TariffSheetSyncService.attemptBody this).
Proof.
  unfold TariffSheetSyncService.attemptBody,
    TariffSheetSyncService.getTariffData, TariffSheetSyncService.clearSheet,
    TariffSheetSyncService.updateSheet, log.
  repeat first [ apply respects_knexSelect | apply respects_sheetsClear
               | apply respects_sheetsUpdate | apply respects_ask
               | apply respects_emit; reflexivity
               | apply respects_bind; [|intros ?] ].
Qed.

Lemma respects_attemptFailed this a e :
  respects I (TariffSheetSyncService.attemptFailed this a e).
Proof.
  unfold TariffSheetSyncService.attemptFailed, log, sleep. respect.
Qed.

Lemma respects_attempts fuel this a :
  respects I (TariffSheetSyncService.attempts fuel this a).
Proof.
  revert a; induction fuel as [|f IH]; intros a;
    cbn [TariffSheetSyncService.attempts].
  - apply respects_ret.
  - destruct (TariffSheetSyncService.leNumber a
               (TariffSheetSyncService.maxRetries this));
      [|apply respects_ret].
    apply respects_bind.
    + apply respects_try_catch.
      * apply respects_bind; [apply respects_attemptBody|intros ?; apply respects_ret].
      * intros e. apply respects_bind;
          [apply respects_attemptFailed|intros ?; apply respects_ret].
    + intros [|]; [apply respects_ret|apply IH].
Qed.

Lemma respects_publisher this : respects I (TariffSheetSyncService.sync this).
Proof. apply respects_attempts. Qed.

(** A firing, after its first log line. *)
Lemma respects_cycle ids :
  respects I
    (try_catch
       (WBTariffsSync.sync ;;
        log Logger.info Logger.TariffsFetched ;;
        forEach ids (fun spreadsheetId =>
          TariffSheetSyncService.sync
            (TariffSheetSyncService.new spreadsheetId None None)))
       (fun error => log Logger.error (Logger.CronJobError error))).
Proof.
  apply respects_try_catch.
  - apply respects_bind; [apply respects_fetcher|intros _].
    apply respects_bind; [apply respects_emit; reflexivity|intros _].
    apply respects_forEach. intros id. apply respects_publisher.
  - intros e. apply respects_emit. reflexivity.
Qed.

End Respects.

(** ** The table: unique keys, and rows that stay *)

Section Table.

Lemma key_eqb_eq (a b : jsstring * jsstring) : Db.key_eqb a b = true <-> a = b.
Proof.
  destruct a as [a1 a2], b as [b1 b2]. unfold Db.key_eqb. cbn [fst snd].
  rewrite andb_true_iff, !str_eqb_eq. split.
  - intros [-> ->]; reflexivity.
  - intros E; injection E as -> ->; split; reflexivity.
Qed.

Lemma key_eqb_refl (k : jsstring * jsstring) : Db.key_eqb k k = true.
Proof. apply key_eqb_eq; reflexivity. Qed.


Lemma key_merge (old new : Db.row) : Db.key (Db.merge old new) = Db.key new.
Proof. reflexivity. Qed.

Lemma upsert_keys_present (new : Db.row) (rs : list Db.row) :
  In (Db.key new) (List.map Db.key rs) ->
  List.map Db.key (Db.upsert new rs) = List.map Db.key rs.
Proof.
  induction rs as [|r rs IH]; intros Hin; [destruct Hin|].
  cbn [Db.upsert]. destruct (Db.key_eqb (Db.key r) (Db.key new)) eqn:E.
  - apply key_eqb_eq in E. cbn [List.map]. rewrite key_merge, E. reflexivity.
  - cbn [List.map]. f_equal. apply IH.
    destruct Hin as [Hin|Hin]; [|exact Hin].
    rewrite Hin, key_eqb_refl in E. discriminate.
Qed.














(** *** Upserting the same key again *)


















End Table.


(** ** The hourly job *)

Section Scheduler.

Lemma fetcher_returns (env : Env) (w : World) :
  fst (WBTariffsSync.sync env w) = Ok tt.
Proof.
  unfold WBTariffsSync.sync. run.
  match goal with
  | |- fst (let (r, w') := ?body in _) = _ => destruct body as [[[]|e] w1]
  end; reflexivity.
Qed.

Lemma attempts_returns (fuel : nat) (this : TariffSheetSyncService.t) :
  forall a env w, fst (TariffSheetSyncService.attempts fuel this a env w) = Ok tt.
Proof.
  induction fuel as [|f IH]; intros a env w;
    cbn [TariffSheetSyncService.attempts]; [reflexivity|].
  destruct (TariffSheetSyncService.leNumber a
               (TariffSheetSyncService.maxRetries this)); [|reflexivity].
  unfold bind at 1, try_catch. unfold bind at 1.
  destruct (TariffSheetSyncService.attemptBody this env w) as [[[]|e] w1].
  - reflexivity.
  - unfold bind at 1. unfold TariffSheetSyncService.attemptFailed.
    destruct (TariffSheetSyncService.ltNumber a
                 (TariffSheetSyncService.maxRetries this)); run; apply IH.
Qed.

Lemma publisher_returns (this : TariffSheetSyncService.t) (env : Env) (w : World) :
  fst (TariffSheetSyncService.sync this env w) = Ok tt.
Proof. apply attempts_returns. Qed.

Lemma returns_run {A} (m : M A) (a : A) (env : Env) (w : World) :
  fst (m env w) = Ok a -> m env w = (Ok a, after m env w).
Proof. unfold after. destruct (m env w) as [r w1]. cbn. intros ->. reflexivity. Qed.

Lemma forEach_run {A} (f : A -> M unit) (l : list A) (env : Env) :
  (forall a w, fst (f a env w) = Ok tt) ->
  forall w,
    forEach l f env w
    = (Ok tt, fold_left (fun w a => after (f a) env w) l w).
Proof.
  intros Hf. induction l as [|a l IH]; intros w; cbn [forEach fold_left];
    [reflexivity|].
  unfold bind. rewrite (returns_run (f a) tt env w (Hf a w)). apply IH.
Qed.

Lemma jobOf_returns (fetch : M unit) (publish : jsstring -> M unit)
    (ids : list jsstring) (env : Env) (w : World) :
  fst (Cron.jobOf fetch publish ids env w) = Ok tt.
Proof.
  unfold Cron.jobOf. run.
  match goal with
  | |- fst (let (r, w') := ?body in _) = _ => destruct body as [[[]|e] w1]
  end; reflexivity.
Qed.

Lemma job_run (ids : list jsstring) (env : Env) (w : World) :
  Cron.job ids env w
  = (Ok tt,
     fold_left
       (fun w id =>
          after (TariffSheetSyncService.sync
                   (TariffSheetSyncService.new id None None)) env w)
       ids
       (afterLog Logger.info Logger.TariffsFetched
          (after WBTariffsSync.sync env
             (afterLog Logger.info Logger.RunningHourlyJob w)))).
Proof.
  unfold Cron.job, Cron.jobOf. unfold bind at 1, log at 1, emit.
  unfold try_catch, bind at 1.
  fold (afterLog Logger.info Logger.RunningHourlyJob w).
  rewrite (returns_run WBTariffsSync.sync tt env _ (fetcher_returns env _)).
  unfold bind at 1, log at 1, emit.
  match goal with
  | |- context [forEach ids ?f env ?w1] =>
      rewrite (forEach_run f ids env
                 (fun a w0 => publisher_returns _ env w0) w1)
  end.
  reflexivity.
Qed.

Lemma jobStarts_app (a b : list Event) :
  jobStarts (a ++ b) = (jobStarts a + jobStarts b)%nat.
Proof. unfold jobStarts. rewrite filter_app, length_app. reflexivity. Qed.

Lemma traceGrows_same (w w' : World) : trace w' = trace w -> traceGrows w w'.
Proof.
  intros E. exists []. split; [rewrite app_nil_r; exact E|reflexivity].
Qed.

Lemma traceGrows_refl (w : World) : traceGrows w w.
Proof. apply traceGrows_same. reflexivity. Qed.

Lemma traceGrows_trans (a b c : World) :
  traceGrows a b -> traceGrows b c -> traceGrows a c.
Proof.
  intros (t1 & E1 & N1) (t2 & E2 & N2). exists (t1 ++ t2). split.
  - rewrite E2, E1, app_assoc. reflexivity.
  - rewrite jobStarts_app, N1, N2. reflexivity.
Qed.

Lemma job_starts_once (ids : list jsstring) (env : Env) (w : World) :
  exists tr, trace (after (Cron.job ids) env w) = trace w ++ tr
             /\ jobStarts tr = 1%nat.
Proof.
  unfold after, Cron.job, Cron.jobOf. unfold bind at 1, log at 1, emit.
  match goal with
  | |- context [snd (?m env ?w1)] =>
      assert (H : traceGrows w1 (snd (m env w1)))
  end.
  { apply (respects_cycle traceGrows).
    - apply traceGrows_refl.
    - apply traceGrows_trans.
    - intros w0 e He. exists [e]. split; [reflexivity|].
      unfold jobStarts. cbn [filter]. rewrite He. reflexivity.
    - intros w0. apply traceGrows_same. reflexivity.
    - intros w0 text chunk tb' _. apply traceGrows_same. reflexivity. }
  destruct H as (tr & E & N). cbn [trace] in E.
  exists (Log Logger.info Logger.RunningHourlyJob :: tr). split.
  - rewrite E, <- app_assoc. reflexivity.
  - change (jobStarts (Log Logger.info Logger.RunningHourlyJob :: tr))
      with (S (jobStarts tr)). rewrite N. reflexivity.
Qed.

Lemma firings_run (ids : list jsstring) (env : Env) (n : nat) :
  forall w, exists w' tr,
    Cron.firings (Cron.job ids) n env w = (Ok tt, w')
    /\ trace w' = trace w ++ tr
    /\ jobStarts tr = n.
Proof.
  induction n as [|n IH]; intros w; cbn [Cron.firings].
  - exists w, []. repeat split. rewrite app_nil_r. reflexivity.
  - unfold bind.
    rewrite (returns_run (Cron.job ids) tt env w (jobOf_returns _ _ _ env w)).
    destruct (job_starts_once ids env w) as (t1 & E1 & N1).
    destruct (IH (after (Cron.job ids) env w)) as (w' & t2 & Hrun & E2 & N2).
    exists w', (t1 ++ t2). split; [exact Hrun|]. split.
    + rewrite E2, E1, app_assoc. reflexivity.
    + rewrite jobStarts_app, N1, N2. reflexivity.
Qed.

Lemma jobOf_run (fetch : M unit) (publish : jsstring -> M unit)
    (ids : list jsstring) (env : Env) (w : World) :
  Cron.jobOf fetch publish ids env w
  = match (fetch ;;
           log Logger.info Logger.TariffsFetched ;;
           forEach ids publish) env
          (afterLog Logger.info Logger.RunningHourlyJob w) with
    | (Ok _, w1) => (Ok tt, w1)
    | (Throw e, w1) =>
        (Ok tt, afterLog Logger.error (Logger.CronJobError e) w1)
    end.
Proof.
  unfold Cron.jobOf. unfold bind at 1, log at 1, emit, try_catch.
  fold (afterLog Logger.info Logger.RunningHourlyJob w).
  match goal with
  | |- match ?b with _ => _ end = _ => destruct b as [[[]|e] w1]
  end; reflexivity.
Qed.

Lemma startCron_run (ids : list jsstring) (env : Env) (n : nat) (w : World) :
  exists w' tr,
    Cron.startCron ids n env w = (Ok tt, w')
    /\ trace w' = trace w ++ Log Logger.info Logger.CronJobScheduled :: tr
    /\ jobStarts tr = n.
Proof.
  unfold Cron.startCron. unfold bind at 1, log at 1, emit.
  destruct (firings_run ids env n
              (afterLog Logger.info Logger.CronJobScheduled w))
    as (w' & tr & Hrun & Htr & Hn).
  exists w', tr. split; [exact Hrun|]. split; [|exact Hn].
  rewrite Htr. cbn [afterLog trace]. rewrite <- app_assoc. reflexivity.
Qed.

(** C8. A firing of the job returns normally whatever the two [sync]
    methods do: an error that escapes them is caught and logged, and the
    firing ends.  With the methods of the sources a firing first runs the
    fetcher to its end, then runs the publisher once for each configured
    spreadsheet, in the configured order, each one in the world the
    previous one left.  Hence, after [startCron], [n] firings in a row all
    start: no firing ends the schedule. *)
Theorem job_runs_fetcher_then_publishers :
  (forall fetch publish ids env w,
      Cron.jobOf fetch publish ids env w
      = match (fetch ;;
               log Logger.info Logger.TariffsFetched ;;
               forEach ids publish) env
              (afterLog Logger.info Logger.RunningHourlyJob w) with
        | (Ok _, w1) => (Ok tt, w1)
        | (Throw e, w1) =>
            (Ok tt, afterLog Logger.error (Logger.CronJobError e) w1)
        end)
  /\ (forall ids env w,
        Cron.job ids env w
        = (Ok tt,
           fold_left
             (fun w id =>
                after (TariffSheetSyncService.sync
                         (TariffSheetSyncService.new id None None)) env w)
             ids
             (afterLog Logger.info Logger.TariffsFetched
                (after WBTariffsSync.sync env
                   (afterLog Logger.info Logger.RunningHourlyJob w)))))
  /\ (forall ids env n w,
        exists w' tr,
          Cron.startCron ids n env w = (Ok tt, w')
          /\ trace w' = trace w ++ Log Logger.info Logger.CronJobScheduled :: tr
          /\ jobStarts tr = n).
Proof.
  split; [exact jobOf_run|].
  split; [exact job_run|].
  intros ids env n w. apply startCron_run.
Qed.

(** One firing on the example: two entries are fetched, stored and
    published in ascending order of their delivery rate per liter.  The
    fields that the upstream gave as a dash are NULL in the table and
    "0,00" in the sheet. *)
Lemma job_example :
  let w := after (Cron.job [Example.sheet]) Example.env Example.world in
  List.map Db.delivery_and_storage_expr (Db.rows (tariffs w)) = [None; Some 1300]
  /\ grids (trace w)
     = [[ TariffSheetSyncService.headers;
          textRow ["05.03.2024"; "Tula"; "52,50"; "5,50"; "13,00"; "0,16"; "0,00"];
          textRow ["05.03.2024"; "Koledino"; "48,00"; "11,20"; "0,00"; "0,14"; "0,07"]
        ]]%string.
Proof. split; vm_compute; reflexivity. Qed.

End Scheduler.

(** ** Rounding never produces [NaN] *)

Section Rounding.

Lemma shr_1_nonneg (mrs : shr_record) :
  0 <= shr_m mrs -> 0 <= shr_m (shr_1 mrs).
Proof.
  destruct mrs as [m r s]. cbn [shr_m].
  destruct m as [|[p|p|]|[p|p|]]; cbn; lia.
Qed.

Lemma iter_shr_1_nonneg (p : positive) :
  forall mrs, 0 <= shr_m mrs -> 0 <= shr_m (iter_pos shr_1 p mrs).
Proof.
  induction p as [p IH|p IH|]; intros mrs H; cbn [iter_pos].
  - apply IH, IH, shr_1_nonneg, H.
  - apply IH, IH, H.
  - apply shr_1_nonneg, H.
Qed.

Lemma shr_fexp_nonneg (m e : Z) (l : location) :
  0 <= m -> 0 <= shr_m (fst (shr_fexp JS.prec JS.emax m e l)).
Proof.
  intros H. unfold shr_fexp, shr.
  assert (H0 : 0 <= shr_m (shr_record_of_loc m l))
    by (destruct l as [|[]]; exact H).
  destruct (fexp JS.prec JS.emax (Zdigits2 m + e) - e); cbn [fst];
    [exact H0|apply iter_shr_1_nonneg, H0|exact H0].
Qed.

Lemma round_nearest_even_nonneg (m : Z) (l : location) :
  0 <= m -> 0 <= round_nearest_even m l.
Proof.
  intros H. destruct l as [|[]]; cbn [round_nearest_even]; try lia.
  destruct (Z.even m); lia.
Qed.

Lemma binary_round_aux_not_NaN (sx : bool) (mx ex : Z) (lx : location) :
  0 <= mx -> isNaN_num (binary_round_aux JS.prec JS.emax sx mx ex lx) = false.
Proof.
  intros H. unfold binary_round_aux.
  pose proof (shr_fexp_nonneg mx ex lx H) as H1.
  destruct (shr_fexp JS.prec JS.emax mx ex lx) as [mrs' e']. cbn [fst] in H1.
  pose proof (shr_fexp_nonneg
                (round_nearest_even (shr_m mrs') (loc_of_shr_record mrs'))
                e' loc_Exact (round_nearest_even_nonneg _ _ H1)) as H2.
  destruct (shr_fexp JS.prec JS.emax _ e' loc_Exact) as [mrs'' e''].
  cbn [fst] in H2.
  destruct (shr_m mrs'') as [|m|m]; [reflexivity| |lia].
  destruct (e'' <=? JS.emax - JS.prec); reflexivity.
Qed.

Lemma roundRatio_not_NaN (neg : bool) (p q : positive) :
  isNaN_num (roundRatio neg p q) = false.
Proof.
  unfold roundRatio, SFdiv_core_binary.
  set (e' := Z.min _ _). set (m' := match 0 - 0 - e' with
                                    | 0 => Z.pos p
                                    | Z.pos _ => Z.shiftl (Z.pos p) (0 - 0 - e')
                                    | Z.neg _ => 0
                                    end).
  assert (Hm : 0 <= m').
  { unfold m'. destruct (0 - 0 - e'); [lia| |lia].
    apply Z.shiftl_nonneg. lia. }
  pose proof (Z.div_pos m' (Z.pos q) Hm eq_refl) as Hq.
  unfold Z.div in Hq.
  destruct (Z.div_eucl m' (Z.pos q)) as [q0 r0]. cbn [fst] in Hq.
  apply binary_round_aux_not_NaN, Hq.
Qed.

Lemma ofDecimal_not_NaN (neg : bool) (m e : Z) :
  isNaN_num (ofDecimal neg m e) = false.
Proof.
  unfold ofDecimal. destruct m as [|p|p]; try reflexivity.
  destruct e as [|k|k]; try apply roundRatio_not_NaN;
    unfold binary_round;
    match goal with
    | |- context [shl_align ?a ?b ?c] => destruct (shl_align a b c) as [mz ez]
    end; apply binary_round_aux_not_NaN; lia.
Qed.

End Rounding.

(** ** [parseNumeric] *)

Section ParseNumeric.
Import WBTariffsSync.

Lemma digitValue_digitChar (d : Z) :
  0 <= d <= 9 -> digitValue (digitChar d) = Some d.
Proof. intros H. digit_cases d H; reflexivity. Qed.

Lemma digitChar_plain (d : Z) :
  0 <= d <= 9 ->
  isStrWhiteSpaceChar (digitChar d) = false
  /\ cu_eqb (cu ",") (digitChar d) = false
  /\ cu_eqb (digitChar d) (cu "+") = false
  /\ cu_eqb (digitChar d) (cu "-") = false
  /\ cu_eqb (cu "I") (digitChar d) = false.
Proof. intros H. digit_cases d H; repeat split; reflexivity. Qed.

Lemma takeDigits_digits (ds : list Z) (rest : jsstring) :
  Forall (fun d => 0 <= d <= 9) ds ->
  match rest with c :: _ => digitValue c = None | [] => True end ->
  takeDigits (digits ds ++ rest) = (ds, rest).
Proof.
  intros Hds Hrest. induction Hds as [|d ds Hd _ IH].
  - destruct rest as [|c r]; [reflexivity|]. cbn. rewrite Hrest. reflexivity.
  - cbn [digits List.map app takeDigits]. rewrite (digitValue_digitChar d Hd).
    fold (digits ds). rewrite IH. reflexivity.
Qed.

Lemma replace_comma (a b : jsstring) :
  Forall (fun c => cu_eqb (cu ",") c = false) a ->
  replace (lit ","%string) (lit "."%string) (a ++ lit ","%string ++ b)
  = a ++ lit "."%string ++ b.
Proof.
  intros Ha. induction Ha as [|c a Hc _ IH].
  - reflexivity.
  - cbn [app]. unfold replace at 1. fold replace.
    change (isPrefix (lit ","%string) (c :: a ++ lit ","%string ++ b))
      with (cu_eqb (cu ",") c && true).
    rewrite Hc. cbn [andb]. f_equal. exact IH.
Qed.

Lemma replace_head (c : code_unit) (r : jsstring) :
  cu_eqb (cu ",") c = false ->
  replace (lit ","%string) (lit "."%string) (c :: r)
  = c :: replace (lit ","%string) (lit "."%string) r.
Proof.
  intros Hc. unfold replace at 1. fold replace.
  change (isPrefix (lit ","%string) (c :: r)) with (cu_eqb (cu ",") c && true).
  rewrite Hc. reflexivity.
Qed.

Lemma comma_not_space (c : code_unit) :
  cu_eqb (cu ",") c = true -> isStrWhiteSpaceChar c = false.
Proof. intros H. apply cu_eqb_eq in H. subst c. reflexivity. Qed.

Lemma trimStart_replace (s : jsstring) :
  trimStart (replace (lit ","%string) (lit "."%string) s)
  = replace (lit ","%string) (lit "."%string) (trimStart s).
Proof.
  induction s as [|c r IH]; [reflexivity|].
  destruct (cu_eqb (cu ",") c) eqn:Hc.
  - cbn [trimStart]. rewrite (comma_not_space c Hc).
    apply cu_eqb_eq in Hc. subst c. reflexivity.
  - rewrite (replace_head c r Hc). cbn [trimStart].
    destruct (isStrWhiteSpaceChar c); [exact IH|].
    rewrite (replace_head c r Hc). reflexivity.
Qed.

Lemma trimStart_head (s : jsstring) (c : code_unit) (r : jsstring) :
  trimStart s = c :: r -> isStrWhiteSpaceChar c = false.
Proof.
  induction s as [|x s IH]; cbn [trimStart]; [discriminate|].
  destruct (isStrWhiteSpaceChar x) eqn:E; [exact IH|].
  intros H; injection H as <- _. exact E.
Qed.

Lemma trimStart_plain (c : code_unit) (r : jsstring) :
  isStrWhiteSpaceChar c = false -> trimStart (c :: r) = c :: r.
Proof. intros H. cbn [trimStart]. rewrite H. reflexivity. Qed.

Lemma trimStart_last (l : jsstring) (c : code_unit) :
  isStrWhiteSpaceChar c = false ->
  exists l', trimStart (l ++ [c]) = l' ++ [c].
Proof.
  intros Hc. induction l as [|x l IH]; cbn [app trimStart].
  - rewrite Hc. exists []. reflexivity.
  - destruct (isStrWhiteSpaceChar x); [exact IH|].
    exists (x :: l). reflexivity.
Qed.

Lemma trimEnd_head (c : code_unit) (r : jsstring) :
  isStrWhiteSpaceChar c = false -> exists r', trimEnd (c :: r) = c :: r'.
Proof.
  intros Hc. unfold trimEnd. cbn [rev].
  destruct (trimStart_last (rev r) c Hc) as (l' & E). rewrite E.
  rewrite rev_app_distr. exists (rev l'). reflexivity.
Qed.

Lemma trimEnd_last (l : jsstring) (c : code_unit) :
  isStrWhiteSpaceChar c = false -> trimEnd (l ++ [c]) = l ++ [c].
Proof.
  intros Hc. unfold trimEnd. rewrite rev_app_distr. cbn [rev app].
  rewrite (trimStart_plain c (rev l) Hc).
  cbn [rev]. rewrite rev_involutive. reflexivity.
Qed.

Lemma unsigned_decimal (neg : bool) (ip fp : list Z) :
  areDigits ip -> areDigits fp ->
  strUnsignedDecimalLiteral neg (digits ip ++ lit "."%string ++ digits fp)
  = Some (ofDecimal neg (digitsValue (ip ++ fp)) (0 - Z.of_nat (length fp)), []).
Proof.
  intros [Hne Hip] [_ Hfp]. unfold strUnsignedDecimalLiteral.
  destruct ip as [|d ip]; [contradiction|].
  assert (Hd : 0 <= d <= 9) by (inversion Hip; assumption).
  replace (isPrefix (lit "Infinity"%string)
             (digits (d :: ip) ++ lit "."%string ++ digits fp)) with false.
  2:{ cbn [digits List.map app lit list_ascii_of_string isPrefix].
      change (N_of_ascii "I") with (cu "I").
      destruct (digitChar_plain d Hd) as (_ & _ & _ & _ & ->). reflexivity. }
  rewrite (takeDigits_digits (d :: ip) (lit "."%string ++ digits fp) Hip eq_refl).
  cbn [lit list_ascii_of_string List.map app].
  change (cu_eqb (N_of_ascii ".") (cu ".")) with true. cbn iota.
  pose proof (takeDigits_digits fp [] Hfp I) as Efp.
  rewrite app_nil_r in Efp. rewrite Efp.
  reflexivity.
Qed.

Lemma commaDecimal_replace (neg : bool) (ip fp : list Z) :
  areDigits ip ->
  replace (lit ","%string) (lit "."%string) (commaDecimal neg ip fp)
  = (if neg then lit "-"%string else [])
      ++ digits ip ++ lit "."%string ++ digits fp.
Proof.
  intros [_ Hip]. unfold commaDecimal.
  rewrite !app_assoc. rewrite <- (app_assoc _ (lit ","%string)).
  rewrite replace_comma; [rewrite <- !app_assoc; reflexivity|].
  apply Forall_app. split.
  - destruct neg; repeat constructor.
  - unfold digits. apply Forall_map.
    eapply Forall_impl; [|exact Hip].
    intros d Hd. apply (digitChar_plain d Hd).
Qed.

Lemma commaDecimal_parseFloat (neg : bool) (ip fp : list Z) :
  areDigits ip -> areDigits fp ->
  parseFloat (replace (lit ","%string) (lit "."%string) (commaDecimal neg ip fp))
  = ofDecimal neg (digitsValue (ip ++ fp)) (- Z.of_nat (length fp)).
Proof.
  intros Hip Hfp. rewrite (commaDecimal_replace neg ip fp Hip).
  unfold parseFloat.
  destruct Hip as [Hne Hds]. destruct ip as [|d ip]; [contradiction|].
  assert (Hd : 0 <= d <= 9) by (inversion Hds; assumption).
  destruct (digitChar_plain d Hd) as (Hws & _ & Hplus & Hminus & _).
  destruct neg.
  - cbn [lit list_ascii_of_string List.map app trimStart].
    change (isStrWhiteSpaceChar (N_of_ascii "-")) with false. cbn iota.
    unfold strDecimalLiteral.
    change (cu_eqb (N_of_ascii "-") (cu "+")) with false.
    change (cu_eqb (N_of_ascii "-") (cu "-")) with true. cbn iota.
    change (N_of_ascii "." :: digits fp) with (lit "."%string ++ digits fp).
    rewrite (unsigned_decimal true (d :: ip) fp (conj Hne Hds) Hfp).
    reflexivity.
  - cbn [app digits List.map]. rewrite (trimStart_plain _ _ Hws).
    unfold strDecimalLiteral. rewrite Hplus, Hminus.
    change (digitChar d :: List.map digitChar ip ++ lit "."%string ++ digits fp)
      with (digits (d :: ip) ++ lit "."%string ++ digits fp).
    rewrite (unsigned_decimal false (d :: ip) fp (conj Hne Hds) Hfp).
    reflexivity.
Qed.

Lemma commaDecimal_trim (neg : bool) (ip fp : list Z) :
  areDigits ip -> areDigits fp ->
  trim (commaDecimal neg ip fp) = commaDecimal neg ip fp.
Proof.
  intros [Hne Hip] [Hnf Hfp]. unfold trim.
  assert (E1 : trimStart (commaDecimal neg ip fp) = commaDecimal neg ip fp).
  { unfold commaDecimal. destruct neg.
    - reflexivity.
    - destruct ip as [|d ip]; [contradiction|].
      cbn [app digits List.map]. apply trimStart_plain.
      apply digitChar_plain. inversion Hip; assumption. }
  rewrite E1.
  destruct (exists_last Hnf) as (fp' & dl & ->).
  apply Forall_app in Hfp. destruct Hfp as [_ Hdl].
  inversion Hdl as [|? ? Hd _]; subst.
  unfold commaDecimal, digits. rewrite map_app. cbn [List.map].
  rewrite !app_assoc. apply trimEnd_last. apply digitChar_plain, Hd.
Qed.

Lemma commaDecimal_not_dash (neg : bool) (ip fp : list Z) :
  areDigits ip -> commaDecimal neg ip fp <> lit "-"%string.
Proof.
  intros [Hne _] E. apply (f_equal (@length _)) in E.
  unfold commaDecimal, digits in E. rewrite !length_app, length_map in E.
  destruct ip; [contradiction|]. destruct neg; cbn in E; lia.
Qed.

(** What [parseNumeric] does with a string that is neither empty nor a
    lone dash. *)
Lemma parseNumeric_string (s : jsstring) (env : Env) (w : World) :
  s <> [] -> trim s <> lit "-"%string ->
  parseNumeric (Some s) env w
  = let parsed := parseFloat (replace (lit ","%string) (lit "."%string) s) in
    if isNaN_num parsed
    then (Ok None, afterLog Logger.warn (Logger.FailedToConvert s) w)
    else (Ok (Some parsed), w).
Proof.
  intros Hs Hdash. unfold parseNumeric.
  destruct s as [|c r]; [contradiction|]. cbn [truthy negb orb].
  rewrite (str_eqb_neq _ _ Hdash). cbn zeta. unfold isNaN. cbn [ToNumber].
  destruct (isNaN_num _); reflexivity.
Qed.

Lemma parseNumeric_commaDecimal (neg : bool) (ip fp : list Z)
    (env : Env) (w : World) :
  areDigits ip -> areDigits fp ->
  parseNumeric (Some (commaDecimal neg ip fp)) env w
  = (Ok (Some (ofDecimal neg (digitsValue (ip ++ fp)) (- Z.of_nat (length fp)))),
     w).
Proof.
  intros Hip Hfp. rewrite parseNumeric_string.
  - cbn zeta. rewrite (commaDecimal_parseFloat neg ip fp Hip Hfp).
    rewrite ofDecimal_not_NaN. reflexivity.
  - intros E. apply (commaDecimal_not_dash neg ip fp Hip).
    rewrite E. destruct Hip as [Hne _]. destruct ip; [contradiction|].
    unfold commaDecimal in E. destruct neg; discriminate E.
  - rewrite (commaDecimal_trim neg ip fp Hip Hfp).
    apply commaDecimal_not_dash, Hip.
Qed.

Lemma garbage_parseFloat (s : jsstring) :
  isGarbage s = true ->
  parseFloat (replace (lit ","%string) (lit "."%string) s) = NaN.
Proof.
  unfold isGarbage, parseFloat. destruct s as [|x s0]; [discriminate|].
  rewrite trimStart_replace.
  destruct (trimStart (x :: s0)) as [|c r]; [reflexivity|].
  unfold startsNumber. cbn [existsb]. rewrite negb_true_iff, !orb_false_iff.
  intros (Hdig & Hplus & Hminus & Hdot & Hcomma & HI & _).
  assert (Hc : cu_eqb (cu ",") c = false).
  { destruct (cu_eqb (cu ",") c) eqn:E; [|reflexivity].
    apply cu_eqb_eq in E. subst c. discriminate Hcomma. }
  assert (HI' : cu_eqb (cu "I") c = false).
  { destruct (cu_eqb (cu "I") c) eqn:E; [|reflexivity].
    apply cu_eqb_eq in E. subst c. discriminate HI. }
  rewrite (replace_head c r Hc). unfold strDecimalLiteral.
  rewrite Hplus, Hminus. unfold strUnsignedDecimalLiteral.
  cbn [lit list_ascii_of_string List.map isPrefix].
  change (N_of_ascii "I") with (cu "I"). rewrite HI'. cbn [andb].
  cbn [takeDigits]. unfold digitValue. fold (isDigit c). rewrite Hdig.
  rewrite Hdot. reflexivity.
Qed.

Lemma garbage_trim (s : jsstring) :
  isGarbage s = true -> s <> [] /\ trim s <> lit "-"%string.
Proof.
  unfold isGarbage, trim. destruct s as [|x s0]; [discriminate|].
  intros H. split; [discriminate|].
  destruct (trimStart (x :: s0)) as [|c r] eqn:E; [discriminate|].
  destruct (trimEnd_head c r (trimStart_head _ _ _ E)) as (r' & ->).
  intros E'. injection E' as -> _. discriminate H.
Qed.

Lemma parseNumeric_garbage (s : jsstring) (env : Env) (w : World) :
  isGarbage s = true ->
  parseNumeric (Some s) env w
  = (Ok None, afterLog Logger.warn (Logger.FailedToConvert s) w).
Proof.
  intros H. destruct (garbage_trim s H) as [Hs Hdash].
  rewrite (parseNumeric_string s env w Hs Hdash). cbn zeta.
  rewrite (garbage_parseFloat s H). reflexivity.
Qed.

(** A numeric prefix is enough for [parseFloat], and only the first comma
    is replaced. *)
Lemma parseNumeric_prefix (env : Env) (w : World) :
  parseNumeric (Some (lit "12 rub"%string)) env w
  = (Ok (Some (ofDecimal false 12 0)), w)
  /\ parseNumeric (Some (lit "1 234,5"%string)) env w
     = (Ok (Some (ofDecimal false 1 0)), w)
  /\ parseNumeric (Some (lit "1,234,5"%string)) env w
     = (Ok (Some (ofDecimal false 1234 (-3))), w).
Proof. repeat split. Qed.

(** Through the unchecked call a Number reaches [value.trim()]. *)
Lemma parseNumericAny_number (env : Env) (w : World) :
  parseNumericAny (VNumber (ofDecimal false 48 0)) env w
  = (Throw notAFunction, w)
  /\ parseNumericAny (VNumber posZero) env w = (Ok None, w).
Proof. split; reflexivity. Qed.

Lemma unsigned_not_NaN (neg : bool) (s : jsstring) (x : number) (r : jsstring) :
  strUnsignedDecimalLiteral neg s = Some (x, r) -> isNaN_num x = false.
Proof.
  unfold strUnsignedDecimalLiteral.
  destruct (isPrefix (lit "Infinity"%string) s).
  { intros [= <- _]. destruct neg; reflexivity. }
  destruct (takeDigits s) as [ip r0].
  set (dot := match r0 with
              | c :: r1 => if cu_eqb c (cu ".") then Some r1 else None
              | [] => None
              end).
  destruct ip as [|d ip], dot as [r1|].
  - destruct (takeDigits r1) as [[|f fp] r2]; [discriminate|].
    destruct (exponentPart r2) as [e r3].
    intros [= <- _]. apply ofDecimal_not_NaN.
  - discriminate.
  - destruct (takeDigits r1) as [fp r2]. destruct (exponentPart r2) as [e r3].
    intros [= <- _]. apply ofDecimal_not_NaN.
  - destruct (exponentPart r0) as [e r3].
    intros [= <- _]. apply ofDecimal_not_NaN.
Qed.

Lemma literal_not_NaN (s : jsstring) (x : number) (r : jsstring) :
  strDecimalLiteral s = Some (x, r) -> isNaN_num x = false.
Proof.
  unfold strDecimalLiteral. destruct s as [|c s0]; [discriminate|].
  destruct (cu_eqb c (cu "+")); [apply unsigned_not_NaN|].
  destruct (cu_eqb c (cu "-")); apply unsigned_not_NaN.
Qed.

Lemma parseNumeric_literal (s : jsstring) (env : Env) (w : World) :
  s <> [] -> trim s <> lit "-"%string ->
  parseNumeric (Some s) env w
  = match strDecimalLiteral
            (trimStart (replace (lit ","%string) (lit "."%string) s)) with
    | Some (x, _) => (Ok (Some x), w)
    | None => (Ok None, afterLog Logger.warn (Logger.FailedToConvert s) w)
    end.
Proof.
  intros Hs Hdash. rewrite (parseNumeric_string s env w Hs Hdash).
  cbn zeta. unfold parseFloat.
  destruct (strDecimalLiteral _) as [[x r]|] eqn:E; [|reflexivity].
  rewrite (literal_not_NaN _ _ _ E). reflexivity.
Qed.

(** C2, as amended.  [parseNumeric] returns null, without a warning, for
    an absent argument (null or undefined), the empty string and a lone
    dash (also between white space); for every other string it replaces
    the first comma with a period and returns the Number that [parseFloat]
    reads, or null with a warning when that is [NaN].  [parseFloat] reads
    the longest decimal literal that begins the text after its leading
    white space, whatever follows it: when there is such a literal its
    value is returned and nothing is logged, and only when there is none
    is null returned with a warning.  So a comma decimal [-]ddd,ddd gives
    the Number nearest to its decimal value ("1234,56" gives 1234.56), and
    text that does not start like a number gives null with a warning; but
    "12abc" gives 12, "1 234,5" gives 1, "1,234,5" gives 1.234 and
    "Infinity" gives [Infinity], all without a warning.  For every
    argument of the declared type it returns normally. *)
Theorem parseNumeric_spec (env : Env) (w : World) :
  parseNumeric None env w = (Ok None, w)
  /\ parseNumeric (Some []) env w = (Ok None, w)
  /\ (forall s, trim s = lit "-"%string ->
        parseNumeric (Some s) env w = (Ok None, w))
  /\ (forall s, s <> [] -> trim s <> lit "-"%string ->
        parseNumeric (Some s) env w
        = let parsed := parseFloat (replace (lit ","%string) (lit "."%string) s) in
          if isNaN_num parsed
          then (Ok None, afterLog Logger.warn (Logger.FailedToConvert s) w)
          else (Ok (Some parsed), w))
  /\ (forall neg ip fp, areDigits ip -> areDigits fp ->
        parseNumeric (Some (commaDecimal neg ip fp)) env w
        = (Ok (Some (ofDecimal neg (digitsValue (ip ++ fp))
                       (- Z.of_nat (length fp)))), w))
  /\ parseNumeric (Some (lit "1234,56"%string)) env w
     = (Ok (Some (S754_finite false 5429652300748554 (-42))), w)
  /\ (forall s, isGarbage s = true ->
        parseNumeric (Some s) env w
        = (Ok None, afterLog Logger.warn (Logger.FailedToConvert s) w))
  /\ (forall value, exists r w', parseNumeric value env w = (Ok r, w'))
  /\ (forall s, s <> [] -> trim s <> lit "-"%string ->
        parseNumeric (Some s) env w
        = match strDecimalLiteral
                  (trimStart (replace (lit ","%string) (lit "."%string) s)) with
          | Some (x, _) => (Ok (Some x), w)
          | None => (Ok None, afterLog Logger.warn (Logger.FailedToConvert s) w)
          end)
  /\ parseNumeric (Some (lit "12abc"%string)) env w
     = (Ok (Some (ofDecimal false 12 0)), w)
  /\ parseNumeric (Some (lit "1 234,5"%string)) env w
     = (Ok (Some (ofDecimal false 1 0)), w)
  /\ parseNumeric (Some (lit "1,234,5"%string)) env w
     = (Ok (Some (ofDecimal false 1234 (-3))), w)
  /\ parseNumeric (Some (lit "Infinity"%string)) env w
     = (Ok (Some (Infinity false)), w).
Proof.
  split; [reflexivity|]. split; [reflexivity|].
  split.
  { intros s H. unfold parseNumeric. rewrite H, orb_true_r. reflexivity. }
  split; [intros s; apply parseNumeric_string|].
  split; [intros neg ip fp; apply parseNumeric_commaDecimal|].
  split; [reflexivity|].
  split; [intros s; apply parseNumeric_garbage|].
  split.
  { intros [s|]; [|eexists _, _; reflexivity].
    unfold parseNumeric.
    destruct (negb (truthy (VString s)) || str_eqb (trim s) (lit "-"%string)).
    - eexists _, _. reflexivity.
    - destruct (isNaN _); eexists _, _; reflexivity. }
  split; [intros s; apply parseNumeric_literal|].
  repeat split.
Qed.

(** C2 does not hold as stated for text that is no number: text that
    begins with a number is not refused.  "12abc" gives 12 and
    "1 234,5" gives 1, with nothing logged, and "Infinity" gives
    [Infinity]. *)
Lemma parseNumeric_reads_a_prefix :
  parseNumeric (Some (lit "12abc"%string)) Example.env Example.world
  = (Ok (Some (ofDecimal false 12 0)), Example.world)
  /\ parseNumeric (Some (lit "1 234,5"%string)) Example.env Example.world
     = (Ok (Some (ofDecimal false 1 0)), Example.world)
  /\ parseNumeric (Some (lit "Infinity"%string)) Example.env Example.world
     = (Ok (Some (Infinity false)), Example.world).
Proof. repeat split. Qed.

End ParseNumeric.

Lemma parseNumeric_witness :
  WBTariffsSync.parseNumeric (Some (commaDecimal true [4; 8] [5]))
    Example.env Example.world
  = (Ok (Some (ofDecimal true 485 (-1))), Example.world)
  /\ WBTariffsSync.parseNumeric (Some (lit "n/a"%string))
       Example.env Example.world
     = (Ok None,
        afterLog Logger.warn (Logger.FailedToConvert (lit "n/a"%string))
          Example.world)
  /\ WBTariffsSync.parseNumeric (Some (lit " - "%string))
       Example.env Example.world
     = (Ok None, Example.world).
Proof.
  destruct (parseNumeric_spec Example.env Example.world)
    as (_ & _ & Hdash & _ & Hdec & _ & Hgarbage & _).
  split; [|split].
  - apply (Hdec true [4; 8] [5]).
    + split; [discriminate|repeat constructor; lia].
    + split; [discriminate|repeat constructor; lia].
  - apply Hgarbage. reflexivity.
  - apply Hdash. reflexivity.
Defined.

(** ** [formatNumber] *)

Section FormatNumber.
Import TariffSheetSyncService.

(** C1. [formatNumber(null)] is the string "0,00", not null:
    [Number(null)] is [0], which is not [NaN]. *)
Theorem formatNumber_null : formatNumber VNull = Some (lit "0,00"%string).
Proof. vm_compute. reflexivity. Qed.

Lemma formatNumber_undefined : formatNumber VUndefined = None.
Proof. reflexivity. Qed.

(** 1234.5 is [5429388417957888 * 2^-42]. *)
Lemma formatNumber_1234_5 :
  formatNumber (VNumber (S754_finite false 5429388417957888 (-42)))
  = Some (lit "1234,50"%string).
Proof. vm_compute. reflexivity. Qed.

Lemma formatNumber_NaN : formatNumber (VNumber NaN) = None.
Proof. reflexivity. Qed.

Lemma formatNumber_text :
  formatNumber (VString (lit "12.5"%string)) = Some (lit "12,50"%string)
  /\ formatNumber (VString (lit "n/a"%string)) = None
  /\ formatNumber (VString []) = Some (lit "0,00"%string).
Proof. repeat split; vm_compute; reflexivity. Qed.

(** Number::toString on some landmarks. *)
Lemma NumberToString_examples :
  List.map NumberToString
    [ ofDecimal false 1 (-1); ofDecimal false 12345 (-1); ofDecimal true 25 (-1);
      ofDecimal false 1 21; ofDecimal false 1 (-6); ofDecimal false 1 (-7);
      ofDecimal false 5 (-324); ofDecimal false 17976931348623157 292;
      ofDecimal false 123456789012345678901 0 ]
  = List.map lit
      [ "0.1"; "1234.5"; "-2.5"; "1e+21"; "0.000001"; "1e-7"; "5e-324";
        "1.7976931348623157e+308"; "123456789012345680000" ]%string.
Proof. vm_compute. reflexivity. Qed.

(** [toFixed(2)] rounds the exact binary value: 1.005 is below its
    decimal name, 2.5 and 0.125 are exact. *)
Lemma toFixed_examples :
  List.map (toFixed 2)
    [ ofDecimal false 1005 (-3); ofDecimal false 25 (-1);
      ofDecimal false 125 (-3); ofDecimal true 1 (-3); S754_zero true ]
  = List.map lit [ "1.00"; "2.50"; "0.13"; "-0.00"; "0.00" ]%string.
Proof. vm_compute. reflexivity. Qed.

(** Outside the range of [toFixed] the result is not a money string. *)
Lemma formatNumber_out_of_range :
  formatNumber (VNumber (Infinity false)) = Some (lit "Infinity"%string)
  /\ formatNumber (VNumber (ofDecimal false 1 21)) = Some (lit "1e+21"%string).
Proof. split; vm_compute; reflexivity. Qed.

Lemma digits_no_dot (l : jsstring) :
  Forall (fun c => isDigit c = true) l ->
  Forall (fun c => cu_eqb (cu ".") c = false) l.
Proof.
  intros H. eapply Forall_impl; [|exact H].
  intros c Hc. destruct (cu_eqb (cu ".") c) eqn:E; [|reflexivity].
  apply cu_eqb_eq in E. subst c. discriminate Hc.
Qed.

Lemma isMoney_shape (neg : bool) (a b : jsstring) :
  a <> [] ->
  Forall (fun c => isDigit c = true) a ->
  Forall (fun c => isDigit c = true) b ->
  length b = 2%nat ->
  isMoney ((if neg then lit "-"%string else []) ++ a ++ cu "," :: b) = true.
Proof.
  intros Ha Hda Hdb Hlb.
  destruct b as [|d1 [|d2 [|? ?]]]; try discriminate Hlb.
  inversion Hdb as [|? ? H1 Hdb']; subst.
  inversion Hdb' as [|? ? H2 _]; subst.
  assert (Hbody : isMoney (a ++ [cu ","; d1; d2]) = true
                  /\ (exists c r, a = c :: r /\ cu_eqb c (cu "-") = false)).
  { destruct a as [|c r]; [contradiction|]. split.
    - unfold isMoney. cbn [app].
      assert (Hc : cu_eqb c (cu "-") = false).
      { inversion Hda as [|? ? Hd _]; subst.
        destruct (cu_eqb c (cu "-")) eqn:E; [|reflexivity].
        apply cu_eqb_eq in E. subst c. discriminate Hd. }
      rewrite Hc.
      change (c :: r ++ [cu ","; d1; d2]) with ((c :: r) ++ [cu ","; d1; d2]).
      rewrite rev_app_distr. cbn [rev app].
      destruct (rev r ++ [c]) as [|i ip] eqn:E;
        [destruct (rev r); discriminate E|].
      rewrite H1, H2, cu_eqb_refl. cbn [andb].
      apply forallb_forall. intros x Hx.
      rewrite <- E in Hx. change (rev r ++ [c]) with (rev (c :: r)) in Hx.
      apply in_rev in Hx.
      rewrite Forall_forall in Hda. apply Hda, Hx.
    - inversion Hda as [|? ? Hd _]; subst. exists c, r. split; [reflexivity|].
      destruct (cu_eqb c (cu "-")) eqn:E; [|reflexivity].
      apply cu_eqb_eq in E. subst c. discriminate Hd. }
  destruct Hbody as [Hm (c & r & -> & Hc)].
  destruct neg; [|exact Hm].
  unfold isMoney in *. cbn [lit list_ascii_of_string List.map app] in *.
  change (cu_eqb (N_of_ascii "-") (cu "-")) with true. cbn iota.
  rewrite Hc in Hm. exact Hm.
Qed.

(** A finite Number below [10^21] in magnitude is rendered with at least
    one integer digit, a comma and exactly two fractional digits. *)
Lemma formatNumber_money (neg : bool) (m : positive) (e : Z) :
  fst (fraction m e) < 10 ^ 21 * snd (fraction m e) ->
  exists s, formatNumber (VNumber (S754_finite neg m e)) = Some s
            /\ isMoney s = true.
Proof.
  intros Hrange. unfold formatNumber. cbn [ToNumber isNaN isNaN_num].
  unfold toFixed. destruct (fraction m e) as [p q]. cbn [fst snd] in Hrange.
  replace (10 ^ 21 * q <=? p) with false by (symmetry; apply Z.leb_gt; lia).
  set (n := (2 * p * 10 ^ Z.of_nat 2 + q) / (2 * q)).
  set (ds := repeat (cu "0") (2 + 1 - length (natToString n)) ++ natToString n).
  assert (Hds : Forall (fun c => isDigit c = true) ds).
  { apply Forall_app. split; [|apply natToString_digits].
    apply Forall_forall. intros c Hc. apply repeat_spec in Hc. subst c.
    reflexivity. }
  assert (Hlen : (3 <= length ds)%nat).
  { unfold ds. rewrite length_app, repeat_length.
    pose proof (natToString_nonempty n). lia. }
  set (a := firstn (length ds - 2) ds).
  set (b := skipn (length ds - 2) ds).
  assert (Hab : ds = a ++ b) by (symmetry; apply firstn_skipn).
  assert (Ha : a <> []).
  { intros E. apply (f_equal (@length _)) in E. unfold a in E.
    rewrite length_firstn in E. cbn [length] in E. lia. }
  assert (Hb : length b = 2%nat) by (unfold b; rewrite length_skipn; lia).
  rewrite Hab in Hds. apply Forall_app in Hds. destruct Hds as [Hda Hdb].
  exists ((if neg then lit "-"%string else []) ++ a ++ cu "," :: b).
  split; [|apply isMoney_shape; assumption].
  f_equal. rewrite app_assoc.
  change (lit "."%string ++ b) with (cu "." :: b).
  change (lit "."%string) with [cu "."]. change (lit ","%string) with [cu ","].
  rewrite replace_unit; [rewrite <- app_assoc; reflexivity|].
  apply Forall_app. split; [destruct neg; repeat constructor|].
  apply digits_no_dot, Hda.
Qed.

End FormatNumber.

(** ** The calendar *)

Section Calendar.

Lemma DayFromYear_next (y : Z) :
  DayFromYear (y + 1) = DayFromYear y + DaysInYear y.
Proof.
  unfold DayFromYear, DaysInYear, isLeap.
  destruct (Z.eqb_spec (y mod 4) 0), (Z.eqb_spec (y mod 100) 0),
    (Z.eqb_spec (y mod 400) 0); cbn [andb orb negb];
    Z.div_mod_to_equations; lia.
Qed.

Lemma yearFrom_spec (d : Z) (fuel : nat) :
  forall y,
    DayFromYear y <= d -> d < DayFromYear (y + Z.of_nat fuel) ->
    DayFromYear (yearFrom fuel d y) <= d < DayFromYear (yearFrom fuel d y + 1).
Proof.
  induction fuel as [|f IH]; intros y Hlo Hhi; cbn [yearFrom].
  - replace (y + Z.of_nat 0) with y in Hhi by lia. lia.
  - destruct (Z.leb_spec (DayFromYear (y + 1)) d) as [H|H].
    + apply IH; [exact H|].
      replace (y + 1 + Z.of_nat f) with (y + Z.of_nat (S f)) by lia. exact Hhi.
    + lia.
Qed.

Lemma DayFromYear_after (y : Z) :
  1970 <= y -> 365 * (y - 1970) <= DayFromYear y <= 366 * (y - 1970).
Proof. intros H. unfold DayFromYear. Z.div_mod_to_equations. lia. Qed.

Lemma DayFromYear_before (y : Z) :
  y <= 1970 -> 366 * (y - 1970) <= DayFromYear y <= 365 * (y - 1970).
Proof. intros H. unfold DayFromYear. Z.div_mod_to_equations. lia. Qed.

Lemma DayFromYear_mono (y : Z) : DayFromYear y < DayFromYear (y + 1).
Proof.
  rewrite DayFromYear_next. unfold DaysInYear. destruct (isLeap y); lia.
Qed.

Lemma YearFromTime_spec (t : Z) :
  DayFromYear (YearFromTime t) <= Day t < DayFromYear (YearFromTime t + 1).
Proof.
  unfold YearFromTime. set (d := Day t).
  apply yearFrom_spec.
  - destruct (Z.ltb_spec d 0) as [Hd|Hd].
    + pose proof (DayFromYear_before (1970 + d / 365)) as H.
      Z.div_mod_to_equations. lia.
    + pose proof (DayFromYear_after (1970 + d / 366)) as H.
      Z.div_mod_to_equations. lia.
  - rewrite Nat2Z.inj_add, Z2Nat.id by (apply Z.div_pos; lia).
    destruct (Z.ltb_spec d 0) as [Hd|Hd].
    + set (y := 1970 + d / 365 + (Z.abs d / 100000 + Z.of_nat 2)).
      destruct (Z.le_gt_cases y 1970) as [Hy|Hy].
      * pose proof (DayFromYear_before y Hy) as H. unfold y in *.
        Z.div_mod_to_equations. lia.
      * pose proof (DayFromYear_after y) as H. unfold y in *.
        Z.div_mod_to_equations. lia.
    + set (y := 1970 + d / 366 + (Z.abs d / 100000 + Z.of_nat 2)).
      pose proof (DayFromYear_after y) as H. unfold y in *.
      Z.div_mod_to_equations. lia.
Qed.

Lemma DayWithinYear_range (t : Z) :
  0 <= DayWithinYear t < 365 + InLeapYear t.
Proof.
  pose proof (YearFromTime_spec t) as H.
  rewrite DayFromYear_next in H.
  unfold DayWithinYear, InLeapYear. unfold DaysInYear in H.
  destruct (isLeap (YearFromTime t)); lia.
Qed.

Lemma InLeapYear_range (t : Z) : 0 <= InLeapYear t <= 1.
Proof. unfold InLeapYear. destruct (isLeap _); lia. Qed.

Lemma MonthFromTime_range (t : Z) : 0 <= MonthFromTime t <= 11.
Proof.
  unfold MonthFromTime.
  repeat match goal with
         | |- context [if ?c then _ else _] => destruct c
         end; lia.
Qed.

Lemma DateFromTime_range (t : Z) : 1 <= DateFromTime t <= 31.
Proof.
  pose proof (DayWithinYear_range t) as Hd.
  pose proof (InLeapYear_range t) as Hl.
  unfold DateFromTime, MonthFromTime.
  repeat match goal with
         | |- context [if ?a <? ?b then _ else _] =>
             destruct (Z.ltb_spec a b)
         end; lia.
Qed.

End Calendar.

(** ** [formatDate] *)

Section FormatDate.
Import TariffSheetSyncService.

(** A check that passes on [0 .. k-1] holds for every number below [k]. *)
Lemma range_check (f : Z -> bool) (k : nat) :
  forallb f (List.map Z.of_nat (seq 0 k)) = true ->
  forall n, 0 <= n < Z.of_nat k -> f n = true.
Proof.
  intros H n Hn. rewrite forallb_forall in H. apply H.
  apply in_map_iff. exists (Z.to_nat n). split; [lia|].
  apply in_seq. lia.
Qed.

Lemma padStart_twoDigits (n : Z) :
  0 <= n < 100 -> padStart 2 (cu "0") (intToString n) = twoDigits n.
Proof.
  intros Hn. apply str_eqb_eq.
  apply (range_check
           (fun n => str_eqb (padStart 2 (cu "0") (intToString n)) (twoDigits n))
           100); [vm_compute; reflexivity|exact Hn].
Qed.

Lemma intToString_fourDigits (n : Z) :
  1000 <= n <= 9999 -> intToString n = fourDigits n.
Proof.
  intros Hn. apply str_eqb_eq.
  assert (H : (n <? 1000) || str_eqb (intToString n) (fourDigits n) = true).
  { apply (range_check
             (fun n => (n <? 1000) || str_eqb (intToString n) (fourDigits n))
             (Z.to_nat 10000)); [vm_compute; reflexivity|].
    rewrite Z2Nat.id; lia. }
  replace (n <? 1000) with false in H by (symmetry; apply Z.ltb_ge; lia).
  exact H.
Qed.

Lemma twoDigits_digits (n : Z) :
  0 <= n < 100 -> forallb isDigit (twoDigits n) = true.
Proof.
  intros Hn. unfold twoDigits. cbn [forallb].
  rewrite !isDigit_digitChar; [reflexivity| |];
    Z.div_mod_to_equations; lia.
Qed.

Lemma fourDigits_digits (n : Z) :
  1000 <= n <= 9999 -> forallb isDigit (fourDigits n) = true.
Proof.
  intros Hn. unfold fourDigits. cbn [forallb].
  rewrite !isDigit_digitChar; [reflexivity| | | |];
    Z.div_mod_to_equations; lia.
Qed.

Lemma formatDate_valid (env : Env) (iso : dateArg) (t : Z) :
  iso <> DNull -> iso <> DString [] ->
  newDateOf env iso = Some t ->
  formatDate env iso
  = Some (padStart 2 (cu "0") (intToString (DateFromTime (LocalTime env t)))
          ++ lit "."%string
          ++ padStart 2 (cu "0")
               (intToString (MonthFromTime (LocalTime env t) + 1))
          ++ lit "."%string
          ++ intToString (YearFromTime (LocalTime env t))).
Proof.
  intros Hnull Hempty Hdate. unfold formatDate.
  assert (Hfalsy : match iso with
                   | DNull => true
                   | DString s => negb (truthy (VString s))
                   | DDate _ => false
                   end = false).
  { destruct iso as [|[|c r]|d]; try reflexivity; contradiction. }
  rewrite Hfalsy, Hdate. reflexivity.
Qed.

(** C7, as amended.  [formatDate] returns null for null and for the empty
    string.  For every other argument that denotes a valid date whose
    local year has four digits it returns the day and the month of the
    local date on two digits each and the year on four, separated by
    periods: the fixed-width form [DD.MM.YYYY]; every date whose local
    calendar day is 2024-03-05 gives "05.03.2024". *)
Theorem formatDate_four_digit_years (env : Env) :
  formatDate env DNull = None
  /\ formatDate env (DString []) = None
  /\ (forall iso t,
        iso <> DNull -> iso <> DString [] ->
        newDateOf env iso = Some t ->
        1000 <= YearFromTime (LocalTime env t) <= 9999 ->
        let s := twoDigits (DateFromTime (LocalTime env t))
                 ++ lit "."%string
                 ++ twoDigits (MonthFromTime (LocalTime env t) + 1)
                 ++ lit "."%string
                 ++ fourDigits (YearFromTime (LocalTime env t)) in
        formatDate env iso = Some s /\ isDDMMYYYY s = true)
  /\ (forall iso t,
        iso <> DNull -> iso <> DString [] ->
        newDateOf env iso = Some t ->
        Day (LocalTime env t) = Day (MakeDate 2024 3 5) ->
        formatDate env iso = Some (lit "05.03.2024"%string)).
Proof.
  split; [reflexivity|]. split; [reflexivity|]. split.
  - intros iso t Hnull Hempty Hdate Hyear s.
    pose proof (DateFromTime_range (LocalTime env t)) as Hd.
    pose proof (MonthFromTime_range (LocalTime env t)) as Hm.
    split.
    + rewrite (formatDate_valid env iso t Hnull Hempty Hdate).
      rewrite !padStart_twoDigits by lia.
      rewrite intToString_fourDigits by exact Hyear. reflexivity.
    + unfold s, isDDMMYYYY. cbn [twoDigits fourDigits app lit
                                  list_ascii_of_string List.map].
      pose proof (twoDigits_digits (DateFromTime (LocalTime env t))) as H1.
      pose proof (twoDigits_digits (MonthFromTime (LocalTime env t) + 1)) as H2.
      pose proof (fourDigits_digits (YearFromTime (LocalTime env t)) Hyear) as H3.
      cbn [forallb twoDigits fourDigits] in *.
      rewrite !andb_true_iff in *.
      destruct H1 as (? & ? & _); [lia|].
      destruct H2 as (? & ? & _); [lia|].
      destruct H3 as (? & ? & ? & ? & _).
      repeat split; assumption.
  - intros iso t Hnull Hempty Hdate Hday.
    rewrite (formatDate_valid env iso t Hnull Hempty Hdate).
    unfold DateFromTime, MonthFromTime, InLeapYear, DayWithinYear, YearFromTime.
    rewrite Hday. vm_compute. reflexivity.
Qed.

(** The year is written as it is: a date of the year 999 has nine
    characters, so not every date is rendered in the fixed-width form. *)
Lemma formatDate_year_999 :
  formatDate Example.env (DDate (Some (MakeDate 999 3 5 - Example.tz)))
  = Some (lit "05.03.999"%string)
  /\ ~ (forall env t,
          exists s, formatDate env (DDate (Some t)) = Some s
                    /\ isDDMMYYYY s = true).
Proof.
  split; [vm_compute; reflexivity|].
  intros H.
  destruct (H Example.env (MakeDate 999 3 5 - Example.tz)) as (s & E & F).
  vm_compute in E. injection E as <-. discriminate F.
Qed.

(** The getters read the local calendar.  A date-only string is parsed
    as midnight UTC, which west of Greenwich is still the day before. *)
Lemma formatDate_date_only_string :
  formatDate Example.env (DString (lit "2024-03-05"%string))
  = Some (lit "05.03.2024"%string)
  /\ formatDate Example.envWest (DString (lit "2024-03-05"%string))
     = Some (lit "04.03.2024"%string).
Proof. split; vm_compute; reflexivity. Qed.

(** An invalid date is rendered, not turned into null. *)
Lemma formatDate_invalid (env : Env) :
  formatDate env (DDate None) = Some (lit "NaN.NaN.NaN"%string).
Proof. reflexivity. Qed.

End FormatDate.

Lemma formatDate_witness :
  TariffSheetSyncService.formatDate Example.env
    (DDate (Some (MakeDate 2024 3 5 - Example.tz)))
  = Some (lit "05.03.2024"%string)
  /\ isDDMMYYYY (lit "05.03.2024"%string) = true.
Proof.
  destruct (formatDate_four_digit_years Example.env) as (_ & _ & H & _).
  apply (H (DDate (Some (MakeDate 2024 3 5 - Example.tz)))
           (MakeDate 2024 3 5 - Example.tz)).
  - discriminate.
  - discriminate.
  - reflexivity.
  - vm_compute. split; discriminate.
Defined.

(** ** Loops run to their end *)

Section Fuel.

Lemma fold_digits (s : jsstring) :
  forall a,
    fold_left (fun a c => 10 * a + (Z.of_N c - Z.of_N (cu "0"))) s a
    = a * 10 ^ Z.of_nat (length s) + valueOf s.
Proof.
  unfold valueOf. induction s as [|c s IH]; intros a.
  - cbn. lia.
  - cbn [fold_left length]. rewrite IH, (IH (10 * 0 + _)).
    rewrite Nat2Z.inj_succ, Z.pow_succ_r by lia. lia.
Qed.

Lemma valueOf_cons (c : code_unit) (s : jsstring) :
  valueOf (c :: s)
  = (Z.of_N c - Z.of_N (cu "0")) * 10 ^ Z.of_nat (length s) + valueOf s.
Proof. unfold valueOf at 1. cbn [fold_left]. rewrite fold_digits. lia. Qed.

Lemma digitChar_value (d : Z) :
  0 <= d <= 9 -> Z.of_N (digitChar d) - Z.of_N (cu "0") = d.
Proof. intros H. digit_cases d H; reflexivity. Qed.

(** The digits written for [n] denote [n]: the fuel of [natToString] is
    enough. *)
Lemma decimalDigits_value (fuel : nat) :
  forall n acc,
    0 <= n < 2 ^ Z.of_nat fuel ->
    valueOf (decimalDigits fuel n acc)
    = n * 10 ^ Z.of_nat (length acc) + valueOf acc.
Proof.
  induction fuel as [|f IH]; intros n acc Hn; cbn [decimalDigits].
  - cbn in Hn. assert (n = 0) by lia. subst n. lia.
  - rewrite Nat2Z.inj_succ, Z.pow_succ_r in Hn by lia.
    assert (Hd : 0 <= n mod 10 <= 9) by (pose proof (Z.mod_pos_bound n 10); lia).
    destruct (Z.ltb_spec n 10) as [Hlt|Hge].
    + rewrite valueOf_cons, (digitChar_value _ Hd), Z.mod_small by lia.
      reflexivity.
    + rewrite IH by (Z.div_mod_to_equations; lia).
      rewrite valueOf_cons, (digitChar_value _ Hd).
      cbn [length]. rewrite Nat2Z.inj_succ, Z.pow_succ_r by lia.
      pose proof (Z.div_mod n 10). lia.
Qed.

Lemma natToString_value (n : Z) : 0 <= n -> valueOf (natToString n) = n.
Proof.
  intros Hn. unfold natToString. rewrite decimalDigits_value.
  - cbn [length valueOf fold_left]. cbn. lia.
  - split; [exact Hn|].
    rewrite Nat2Z.inj_succ, Z2Nat.id by apply Z.log2_nonneg.
    destruct (Z.eq_dec n 0) as [->|Hz]; [cbn; lia|].
    apply Z.log2_spec. lia.
Qed.

(** The chunk loop ends because it ran past the end of the list, not
    because its fuel ran out: more fuel changes nothing. *)
Lemma insertChunks_enough (l : list Tariff.t) (fuel : nat) :
  forall fuel' i env w,
    (length l <= i + WBTariffsSync.chunkSize * fuel)%nat ->
    (length l <= i + WBTariffsSync.chunkSize * fuel')%nat ->
    WBTariffsSync.insertChunks fuel i l env w
    = WBTariffsSync.insertChunks fuel' i l env w.
Proof.
  unfold WBTariffsSync.chunkSize.
  induction fuel as [|f IH]; intros fuel' i env w H H'.
  - cbn [WBTariffsSync.insertChunks].
    destruct fuel' as [|f']; [reflexivity|]. cbn [WBTariffsSync.insertChunks].
    replace (i <? length l)%nat with false
      by (symmetry; apply Nat.ltb_ge; lia).
    reflexivity.
  - cbn [WBTariffsSync.insertChunks].
    destruct (Nat.ltb_spec i (length l)) as [Hlt|Hge].
    + destruct fuel' as [|f']; [lia|]. cbn [WBTariffsSync.insertChunks].
      replace (i <? length l)%nat with true
        by (symmetry; apply Nat.ltb_lt; lia).
      unfold bind.
      destruct (knexInsert _ env w) as [[[]|e] w1]; [|reflexivity].
      apply IH; unfold WBTariffsSync.chunkSize; lia.
    + destruct fuel' as [|f']; [reflexivity|]. cbn [WBTariffsSync.insertChunks].
      replace (i <? length l)%nat with false
        by (symmetry; apply Nat.ltb_ge; lia).
      reflexivity.
Qed.

(** The loop test against the bound on the attempts, for any
    [maxRetries] but [Infinity]. *)
Lemma leNumber_bound (x : number) (n a : Z) :
  TariffSheetSyncService.attemptsBound x = Some n ->
  1 <= a ->
  TariffSheetSyncService.leNumber a x = (a <=? n).
Proof.
  intros Hn Ha.
  destruct x as [sg|[|]| |[|] m e]; cbn in Hn; try discriminate.
  - injection Hn as <-. reflexivity.
  - injection Hn as <-. cbn. symmetry. apply Z.leb_gt. lia.
  - injection Hn as <-. cbn. symmetry. apply Z.leb_gt. lia.
  - injection Hn as <-. unfold TariffSheetSyncService.leNumber.
    pose proof (fraction_pos m e) as [Hp Hq].
    destruct (fraction m e) as [p q]. cbn [fst snd] in Hp, Hq.
    replace (a <=? 0) with false by (symmetry; apply Z.leb_gt; lia).
    apply Z.leb_gt. nia.
  - unfold TariffSheetSyncService.leNumber.
    pose proof (fraction_pos m e) as [Hp Hq].
    destruct (fraction m e) as [p q]. cbn [fst snd] in Hp, Hq.
    injection Hn as <-.
    pose proof (Z.div_mod p q ltac:(lia)) as Hd.
    pose proof (Z.mod_pos_bound p q Hq) as Hm.
    destruct (Z.leb_spec (a * q) p), (Z.leb_spec a (p / q));
      try reflexivity; nia.
Qed.

(** Likewise for the retry loop, for every [maxRetries] below [2^53]: the
    loop ends by its own test, whatever fuel it is given beyond its
    bound. *)
Lemma attempts_enough (this : TariffSheetSyncService.t) (n : Z) (fuel : nat) :
  TariffSheetSyncService.attemptsBound (TariffSheetSyncService.maxRetries this)
  = Some n ->
  n < 2 ^ 53 ->
  forall fuel' a env w,
    1 <= a ->
    n - a + 1 <= Z.of_nat fuel ->
    n - a + 1 <= Z.of_nat fuel' ->
    TariffSheetSyncService.attempts fuel this a env w
    = TariffSheetSyncService.attempts fuel' this a env w.
Proof.
  intros Hn Hbig.
  induction fuel as [|f IH]; intros fuel' a env w Ha H H'.
  - cbn [TariffSheetSyncService.attempts].
    destruct fuel' as [|f']; [reflexivity|].
    cbn [TariffSheetSyncService.attempts].
    rewrite (leNumber_bound _ n a Hn Ha).
    replace (a <=? n) with false by (symmetry; apply Z.leb_gt; lia).
    reflexivity.
  - cbn [TariffSheetSyncService.attempts].
    rewrite (leNumber_bound _ n a Hn Ha).
    destruct (Z.leb_spec a n) as [Hle|Hgt].
    + destruct fuel' as [|f']; [lia|].
      cbn [TariffSheetSyncService.attempts].
      rewrite (leNumber_bound _ n a Hn Ha).
      replace (a <=? n) with true by (symmetry; apply Z.leb_le; lia).
      unfold bind at 1. symmetry. unfold bind at 1. symmetry.
      destruct (try_catch _ _ env w) as [[[|]|e] w1]; try reflexivity.
      replace (TariffSheetSyncService.increment a) with (a + 1)
        by (unfold TariffSheetSyncService.increment;
            replace (a <? 2 ^ 53) with true by (symmetry; apply Z.ltb_lt; lia);
            reflexivity).
      apply IH; lia.
    + destruct fuel' as [|f']; [reflexivity|].
      cbn [TariffSheetSyncService.attempts].
      rewrite (leNumber_bound _ n a Hn Ha).
      replace (a <=? n) with false by (symmetry; apply Z.leb_gt; lia).
      reflexivity.
Qed.

(** So [sync] is the loop with any fuel from the bound on. *)
Lemma sync_enough (this : TariffSheetSyncService.t) (n : Z) (fuel : nat) :
  TariffSheetSyncService.attemptsBound (TariffSheetSyncService.maxRetries this)
  = Some n ->
  n < 2 ^ 53 ->
  n <= Z.of_nat fuel ->
  forall env w,
    TariffSheetSyncService.sync this env w
    = TariffSheetSyncService.attempts fuel this 1 env w.
Proof.
  intros Hn Hbig Hfuel env w.
  unfold TariffSheetSyncService.sync, TariffSheetSyncService.attemptsLimit.
  rewrite Hn. apply (attempts_enough this n _ Hn Hbig); lia.
Qed.

End Fuel.

(** ** Kinds of events

    The rules of [respects] for a relation that tells the kinds of events
    apart: every primitive needs its own kind of event to be allowed. *)

Section Kinds.
Variable I : World -> World -> Prop.
Variable P : Event -> bool.
Hypothesis I_refl : forall w, I w w.
Hypothesis I_trans : forall a b c, I a b -> I b c -> I a c.
Hypothesis I_event :
  forall w e, P e = true -> I w (mkWorld (tariffs w) (trace w ++ [e]) (tick w)).
Hypothesis I_request :
  forall w, I w (mkWorld (tariffs w) (trace w) (S (tick w))).
Hypothesis I_insert :
  forall w text chunk tb',
    Db.insertOnConflictMerge text chunk (tariffs w) = Ok tb' ->
    I w (mkWorld tb' (trace w) (tick w)).
Hypothesis P_log : forall l m, P (Log l m) = true.
Hypothesis P_get : forall url, P (HttpGet url) = true.
Hypothesis P_insert : forall chunk, P (DbInsert chunk) = true.
Hypothesis P_select : P DbSelect = true.
Hypothesis P_clear : forall a b, P (SheetsClear a b) = true.
Hypothesis P_update : forall a b c, P (SheetsUpdate a b c) = true.
Hypothesis P_sleep : forall ms, P (Sleep ms) = true.

Lemma kind_emit (e : Event) : P e = true -> respects I (emit e).
Proof. intros He env w. apply I_event, He. Qed.

Let kind_ret {A} (a : A) : respects I (ret a) := respects_ret I I_refl a.
Let kind_throw {A} (e : Error) : respects I (@throw A e) :=
  respects_throw I I_refl e.
Let kind_bind {A B} (m : M A) (k : A -> M B) := respects_bind I I_trans m k.
Let kind_try_catch {A} (body : M A) (handler : Error -> M A) :=
  respects_try_catch I I_trans body handler.
Let kind_request := respects_request I I_request.
Let kind_ask := respects_ask I I_refl.

Ltac kind :=
  repeat first
    [ apply kind_ret
    | apply kind_throw
    | apply kind_request
    | apply kind_ask
    | apply kind_emit; solve [auto]
    | apply kind_bind; [|intros ?]
    | apply kind_try_catch; [|intros ?]
    | match goal with
      | |- respects _ (match ?x with _ => _ end) => destruct x
      | |- respects _ (if ?x then _ else _) => destruct x
      end
    | assumption ].

Lemma kind_newDate : respects I newDate.
Proof. unfold newDate. kind. Qed.

Lemma kind_parseNumericAny v : respects I (WBTariffsSync.parseNumericAny v).
Proof.
  unfold WBTariffsSync.parseNumericAny, WBTariffsSync.parseNumeric, log.
  destruct v; kind.
Qed.

Lemma kind_toTariff today w : respects I (WBTariffsSync.toTariff today w).
Proof.
  unfold WBTariffsSync.toTariff, WBTariffsSync.get.
  repeat first [ apply kind_parseNumericAny | apply kind_newDate
               | apply kind_ret | apply kind_throw
               | apply kind_bind; [|intros ?]
               | match goal with
                 | |- respects _ (match ?x with _ => _ end) => destruct x
                 end ].
Qed.

Lemma kind_mapM {A B} (f : A -> M B) (l : list A) :
  (forall a, respects I (f a)) -> respects I (mapM f l).
Proof. intros Hf. induction l; cbn [mapM]; kind. apply Hf. Qed.

Lemma kind_knexInsert chunk : respects I (knexInsert chunk).
Proof.
  unfold knexInsert.
  apply kind_bind; [apply kind_request|intros n].
  apply kind_bind; [apply kind_emit, P_insert|intros _].
  apply kind_bind; [apply kind_ask|intros env'].
  destruct (fault env' n); [apply kind_throw|].
  intros env w. cbn [getTable bind snd].
  destruct (Db.insertOnConflictMerge (pg_text env') chunk (tariffs w)) eqn:E;
    cbn [setTable throw snd]; [|apply I_refl].
  eapply I_insert, E.
Qed.

Lemma kind_insertChunks fuel i l :
  respects I (WBTariffsSync.insertChunks fuel i l).
Proof.
  revert i; induction fuel as [|f IH]; intros i;
    cbn [WBTariffsSync.insertChunks]; [apply kind_ret|].
  destruct (i <? length l)%nat; [|apply kind_ret].
  apply kind_bind; [apply kind_knexInsert|intros _; apply IH].
Qed.

Lemma kind_fetcher : respects I WBTariffsSync.sync.
Proof.
  unfold WBTariffsSync.sync, log, axiosGet.
  repeat first [ apply kind_newDate
               | apply kind_insertChunks
               | apply kind_mapM; intros ?; apply kind_toTariff
               | apply kind_emit; solve [auto]
               | apply kind_request | apply kind_ask | apply kind_ret
               | apply kind_throw
               | apply kind_bind; [|intros ?]
               | apply kind_try_catch; [|intros ?]
               | match goal with
                 | |- respects _ (match ?x with _ => _ end) => destruct x
                 end ].
Qed.

Lemma kind_attemptBody this :
  respects I (TariffSheetSyncService.attemptBody this).
Proof.
  unfold TariffSheetSyncService.attemptBody,
    TariffSheetSyncService.getTariffData, TariffSheetSyncService.clearSheet,
    TariffSheetSyncService.updateSheet, log, knexSelect, sheetsClear,
    sheetsUpdate, getTable.
  kind; intros env w; apply I_refl.
Qed.

Lemma kind_attemptFailed this a e :
  respects I (TariffSheetSyncService.attemptFailed this a e).
Proof.
  unfold TariffSheetSyncService.attemptFailed, log, sleep. kind.
Qed.

Lemma kind_attempts fuel this a :
  respects I (TariffSheetSyncService.attempts fuel this a).
Proof.
  revert a; induction fuel as [|f IH]; intros a;
    cbn [TariffSheetSyncService.attempts].
  - apply kind_ret.
  - destruct (TariffSheetSyncService.leNumber a
               (TariffSheetSyncService.maxRetries this));
      [|apply kind_ret].
    apply kind_bind.
    + apply kind_try_catch.
      * apply kind_bind; [apply kind_attemptBody|intros ?; apply kind_ret].
      * intros e. apply kind_bind;
          [apply kind_attemptFailed|intros ?; apply kind_ret].
    + intros [|]; [apply kind_ret|apply IH].
Qed.

Lemma kind_publisher this : respects I (TariffSheetSyncService.sync this).
Proof. apply kind_attempts. Qed.

End Kinds.

(** ** Runs of the fetcher, request by request *)

Section Runs.

Lemma since_app (w w' : World) (tr : list Event) :
  trace w' = trace w ++ tr -> since w w' = tr.
Proof.
  intros H. unfold since. rewrite H.
  rewrite skipn_app, skipn_all, Nat.sub_diag. reflexivity.
Qed.

Lemma grows_refl P (w : World) : grows P w w.
Proof. exists []. rewrite app_nil_r. split; reflexivity. Qed.

Lemma grows_trans P (a b c : World) : grows P a b -> grows P b c -> grows P a c.
Proof.
  intros [t1 [H1 F1]] [t2 [H2 F2]]. exists (t1 ++ t2).
  rewrite H2, H1, app_assoc, forallb_app, F1, F2. split; reflexivity.
Qed.

Lemma grows_event P (w : World) (e : Event) :
  P e = true -> grows P w (mkWorld (tariffs w) (trace w ++ [e]) (tick w)).
Proof. intros H. exists [e]. cbn. rewrite H. split; reflexivity. Qed.

Lemma grows_same P (w w' : World) : trace w' = trace w -> grows P w w'.
Proof. intros H. exists []. rewrite app_nil_r. split; [exact H|reflexivity]. Qed.

Lemma grows_weaken (P Q : Event -> bool) (w w' : World) :
  (forall e, P e = true -> Q e = true) -> grows P w w' -> grows Q w w'.
Proof.
  intros H [tr [E F]]. exists tr. split; [exact E|].
  rewrite forallb_forall in *. intros e He. apply H, F, He.
Qed.

Lemma keeps_refl P (w : World) : keeps P w w.
Proof. split; [reflexivity|apply grows_refl]. Qed.

Lemma keeps_trans P (a b c : World) : keeps P a b -> keeps P b c -> keeps P a c.
Proof.
  intros [T1 G1] [T2 G2]. split; [congruence|eapply grows_trans; eassumption].
Qed.

Lemma keeps_event P (w : World) (e : Event) :
  P e = true -> keeps P w (mkWorld (tariffs w) (trace w ++ [e]) (tick w)).
Proof. intros H. split; [reflexivity|apply grows_event, H]. Qed.

Lemma keeps_request P (w : World) :
  keeps P w (mkWorld (tariffs w) (trace w) (S (tick w))).
Proof. split; [reflexivity|apply grows_same; reflexivity]. Qed.

(** The fetcher produces log lines, HTTP requests and inserts only. *)
Lemma fetcher_grows : respects (grows isFetcherEvent) WBTariffsSync.sync.
Proof.
  apply (kind_fetcher (grows isFetcherEvent) isFetcherEvent);
    try reflexivity.
  - apply grows_refl.
  - apply grows_trans.
  - apply grows_event.
  - intros w. apply grows_same. reflexivity.
  - intros w text chunk tb' _. apply grows_same. reflexivity.
Qed.

(** The publisher reads the table and talks to the spreadsheet API; it
    leaves the table as it is. *)
Lemma publisher_keeps this :
  respects (keeps isPublisherEvent) (TariffSheetSyncService.sync this).
Proof.
  apply (kind_publisher (keeps isPublisherEvent) isPublisherEvent);
    try reflexivity.
  - apply keeps_refl.
  - apply keeps_trans.
  - apply keeps_event.
  - apply keeps_request.
Qed.

(** Mapping the upstream list only logs. *)
Lemma mapping_keeps today ws :
  respects (keeps isLog) (mapM (WBTariffsSync.toTariff today) ws).
Proof.
  apply kind_mapM; [apply keeps_refl|apply keeps_trans|].
  intros a. apply (kind_toTariff (keeps isLog) isLog); try reflexivity.
  - apply keeps_refl.
  - apply keeps_trans.
  - apply keeps_event.
  - apply keeps_request.
Qed.

Lemma inserting_grows fuel i l :
  respects (grows (fun e => match e with DbInsert _ => true | _ => false end))
    (WBTariffsSync.insertChunks fuel i l).
Proof.
  apply (kind_insertChunks _ (fun e => match e with DbInsert _ => true | _ => false end));
    try reflexivity.
  - apply grows_refl.
  - apply grows_trans.
  - apply grows_event.
  - intros w. apply grows_same. reflexivity.
  - intros w text chunk tb' _. apply grows_same. reflexivity.
Qed.

(** [sync], request by request. *)
Lemma fetcher_run (env : Env) (w : World) :
  let today := WBTariffsSync.isoDate (now env (tick w)) in
  let w0 := mkWorld (tariffs w)
              (trace w ++ [Log Logger.info (Logger.StartingSync today);
                           HttpGet (WBTariffsSync.url today)])
              (S (S (tick w))) in
  WBTariffsSync.sync env w =
  match http_get env (S (tick w)) (WBTariffsSync.url today) with
  | Throw e => (Ok tt, afterLog Logger.error (Logger.SyncError e) w0)
  | Ok response =>
      match WBTariffsSync.warehouseListOf response with
      | VArray ws =>
          match mapM (WBTariffsSync.toTariff today) ws env w0 with
          | (Throw e, w1) => (Ok tt, afterLog Logger.error (Logger.SyncError e) w1)
          | (Ok ts, w1) =>
              match WBTariffsSync.insertChunks (length ts) 0 ts env
                      (afterLog Logger.info (Logger.FoundTariffs (length ts)) w1) with
              | (Ok _, w2) => (Ok tt, afterLog Logger.info Logger.SyncCompleted w2)
              | (Throw e, w2) => (Ok tt, afterLog Logger.error (Logger.SyncError e) w2)
              end
          end
      | _ => (Ok tt, afterLog Logger.warn Logger.InvalidDataFormat w0)
      end
  end.
Proof.
  intros today w0. unfold WBTariffsSync.sync. run.
  fold today. rewrite <- app_assoc. cbn [app]. fold w0.
  destruct (http_get env (S (tick w)) (WBTariffsSync.url today)) as [response|e];
    [|reflexivity].
  destruct (WBTariffsSync.warehouseListOf response); try reflexivity.
  destruct (mapM (WBTariffsSync.toTariff today) xs env w0) as [[ts|e] w1];
    [|reflexivity].
  unfold afterLog.
  destruct (WBTariffsSync.insertChunks (length ts) 0 ts env _) as [[[]|e] w2];
    reflexivity.
Qed.

End Runs.

(** ** The chunks of the insert loop *)

Section Chunks.
Import WBTariffsSync.

Lemma knexInsert_run (chunk : list Tariff.t) (env : Env) (w : World) :
  knexInsert chunk env w =
  let tr := trace w ++ [DbInsert chunk] in
  match fault env (tick w) with
  | Some e => (Throw e, mkWorld (tariffs w) tr (S (tick w)))
  | None =>
      match Db.insertOnConflictMerge (pg_text env) chunk (tariffs w) with
      | Ok tb' => (Ok tt, mkWorld tb' tr (S (tick w)))
      | Throw e => (Throw e, mkWorld (tariffs w) tr (S (tick w)))
      end
  end.
Proof.
  unfold knexInsert. run. destruct (fault env (tick w)); [reflexivity|].
  run. destruct (Db.insertOnConflictMerge _ _ _); reflexivity.
Qed.

Lemma chunksOf_concat {A} (n : nat) (Hn : (1 <= n)%nat) (fuel : nat) :
  forall l : list A, (length l <= fuel)%nat -> concat (chunksOf fuel n l) = l.
Proof.
  induction fuel as [|f IH]; intros l Hl.
  - destruct l; [reflexivity|cbn in Hl; lia].
  - cbn [chunksOf]. destruct l as [|a l]; [reflexivity|].
    cbn [concat]. rewrite IH; [apply firstn_skipn|].
    rewrite length_skipn. cbn [length] in *. lia.
Qed.

Lemma chunksOf_sizes {A} (n : nat) (Hn : (1 <= n)%nat) (fuel : nat) :
  forall l : list A,
    Forall (fun c => (1 <= length c <= n)%nat) (chunksOf fuel n l).
Proof.
  induction fuel as [|f IH]; intros l; cbn [chunksOf]; [constructor|].
  destruct l as [|a l]; constructor; [|apply IH].
  rewrite length_firstn. cbn [length]. lia.
Qed.

Lemma chunksOf_count {A} (fuel : nat) :
  forall l : list A, (length l <= fuel)%nat ->
    length (chunksOf fuel 100 l) = ((length l + 99) / 100)%nat.
Proof.
  induction fuel as [|f IH]; intros l Hl.
  - destruct l; [reflexivity|cbn in Hl; lia].
  - cbn [chunksOf]. destruct l as [|a l]; [reflexivity|].
    cbn [length] in *. rewrite IH by (rewrite length_skipn; cbn [length]; lia).
    rewrite length_skipn. cbn [length].
    destruct (Nat.le_gt_cases 100 (S (length l))) as [H|H].
    + replace (S (length l) + 99)%nat with (S (length l) - 100 + 99 + 1 * 100)%nat by lia.
      rewrite Nat.div_add by lia. lia.
    + replace (S (length l) - 100)%nat with 0%nat by lia.
      change ((0 + 99) / 100)%nat with 0%nat.
      apply Nat.div_unique with (r := length l); lia.
Qed.

Lemma chunksOf_In {A} (n fuel : nat) :
  forall (l c : list A) (a : A), In c (chunksOf fuel n l) -> In a c -> In a l.
Proof.
  induction fuel as [|f IH]; intros l c a Hc Ha; cbn [chunksOf] in Hc;
    [destruct Hc|].
  destruct l as [|x l]; [destruct Hc|].
  rewrite <- (firstn_skipn n (x :: l)). apply in_or_app.
  destruct Hc as [Hc|Hc].
  - left. subst c. exact Ha.
  - right. eapply IH; eassumption.
Qed.

Lemma insertChunks_step (l : list Tariff.t) (env : Env) (f i : nat) (w : World) :
  (i < length l)%nat ->
  insertChunks (S f) i l env w =
  match knexInsert (firstn 100 (skipn i l)) env w with
  | (Ok _, w1) => insertChunks f (i + 100) l env w1
  | (Throw e, w1) => (Throw e, w1)
  end.
Proof.
  intros Hi. cbn [insertChunks]. apply Nat.ltb_lt in Hi. rewrite Hi.
  unfold bind, slice, chunkSize. replace (i + 100 - i)%nat with 100%nat by lia.
  reflexivity.
Qed.

(** The loop, chunk by chunk: it sends the first [j] chunks; when it
    returns it has sent them all and all are applied; when it throws, the
    chunks before the last one sent are applied. *)
Lemma insertChunks_run (l : list Tariff.t) (env : Env) (fuel : nat) :
  forall (i : nat) (w : World) (r : result unit) (w' : World),
    insertChunks fuel i l env w = (r, w') ->
    let cs := chunksOf fuel 100 (skipn i l) in
    exists j,
      (j <= length cs)%nat
      /\ trace w' = trace w ++ List.map DbInsert (firstn j cs)
      /\ match r with
         | Ok _ => j = length cs
                   /\ commit (pg_text env) cs (tariffs w) = Some (tariffs w')
         | Throw _ =>
             (1 <= j)%nat
             /\ commit (pg_text env) (firstn (j - 1) cs) (tariffs w)
                = Some (tariffs w')
         end.
Proof.
  induction fuel as [|f IH]; intros i w r w' H; cbn zeta.
  - injection H as <- <-. exists 0%nat. cbn. rewrite app_nil_r. auto.
  - destruct (Nat.lt_ge_cases i (length l)) as [Hi|Hi].
    + rewrite insertChunks_step in H by exact Hi.
      cbn [chunksOf].
      destruct (skipn i l) as [|x rest] eqn:Hs.
      { apply (f_equal (@length _)) in Hs. rewrite length_skipn in Hs.
        cbn in Hs. lia. }
      rewrite <- Hs in *.
      assert (Hn : skipn 100 (skipn i l) = skipn (i + 100) l).
      { rewrite skipn_skipn. f_equal. lia. }
      rewrite Hn.
      set (c := firstn 100 (skipn i l)) in *.
      rewrite knexInsert_run in H. cbn zeta in H.
      destruct (fault env (tick w)) as [e|].
      { injection H as <- <-. exists 1%nat. cbn [length firstn List.map trace tariffs commit Nat.sub].
        repeat split; lia. }
      destruct (Db.insertOnConflictMerge (pg_text env) c (tariffs w)) as [tb'|e] eqn:E.
      2:{ injection H as <- <-. exists 1%nat. cbn [length firstn List.map trace tariffs commit Nat.sub].
          repeat split; lia. }
      apply IH in H. cbn zeta in H. destruct H as [j [Hj [Ht Hr]]].
      exists (S j). cbn [length firstn List.map]. split; [lia|].
      split.
      { rewrite Ht. cbn [trace]. rewrite <- app_assoc. reflexivity. }
      cbn [tariffs] in Hr.
      destruct r.
      * destruct Hr as [Hr1 Hr2]. split; [lia|]. cbn [commit]. rewrite E. exact Hr2.
      * destruct Hr as [Hr1 Hr2]. split; [lia|].
        replace (S j - 1)%nat with (S (j - 1)) by lia.
        cbn [firstn commit]. rewrite E. exact Hr2.
    + cbn [insertChunks] in H. apply Nat.ltb_ge in Hi. rewrite Hi in H.
      injection H as <- <-. apply Nat.ltb_ge in Hi.
      rewrite skipn_all2 by exact Hi.
      exists 0%nat. cbn. rewrite app_nil_r. auto.
Qed.

End Chunks.

(** ** The mapping of the upstream list *)

Section Fetcher.
Import WBTariffsSync.

Lemma inserts_app (a b : list Event) : inserts (a ++ b) = inserts a ++ inserts b.
Proof. apply flat_map_app. Qed.

Lemma inserts_sent (cs : list (list Tariff.t)) :
  inserts (List.map DbInsert cs) = cs.
Proof.
  induction cs as [|c cs IH]; [reflexivity|].
  cbn [List.map]. change (inserts (DbInsert c :: List.map DbInsert cs))
    with (c :: inserts (List.map DbInsert cs)).
  rewrite IH. reflexivity.
Qed.

Lemma inserts_none (P : Event -> bool) (tr : list Event) :
  (forall c, P (DbInsert c) = false) -> forallb P tr = true -> inserts tr = [].
Proof.
  intros HP. induction tr as [|e tr IH]; cbn; [reflexivity|].
  intros H. apply andb_prop in H. destruct H as [He Ht].
  destruct e; try (apply IH, Ht). rewrite HP in He. discriminate.
Qed.

Lemma filter_none (P Q : Event -> bool) (tr : list Event) :
  (forall e, P e = true -> Q e = false) -> forallb P tr = true ->
  filter Q tr = [].
Proof.
  intros HP. induction tr as [|e tr IH]; cbn; [reflexivity|].
  intros H. apply andb_prop in H. destruct H as [He Ht].
  rewrite (HP e He). apply IH, Ht.
Qed.

Lemma httpGets_app (a b : list Event) :
  httpGets (a ++ b) = (httpGets a + httpGets b)%nat.
Proof. unfold httpGets. rewrite filter_app, length_app. reflexivity. Qed.

Lemma httpGets_none (P : Event -> bool) (tr : list Event) :
  (forall url, P (HttpGet url) = false) -> forallb P tr = true ->
  httpGets tr = 0%nat.
Proof.
  intros HP H. unfold httpGets. rewrite (filter_none P); [reflexivity| |exact H].
  intros [] Hx; try reflexivity. rewrite HP in Hx. discriminate.
Qed.

Lemma mapM_post {A B} (f : A -> M B) (Q : B -> Prop) :
  (forall a env w b w', f a env w = (Ok b, w') -> Q b) ->
  forall l env w bs w', mapM f l env w = (Ok bs, w') -> Forall Q bs.
Proof.
  intros Hf. induction l as [|a l IH]; intros env w bs w' H; cbn [mapM] in H.
  - injection H as <- <-. constructor.
  - unfold bind, ret in H.
    destruct (f a env w) as [[b|e] w1] eqn:E1; [|discriminate].
    destruct (mapM f l env w1) as [[bs'|e] w2] eqn:E2; [|discriminate].
    injection H as <- <-. constructor; [eapply Hf, E1|eapply IH, E2].
Qed.

Lemma mapM_throws {A B} (f : A -> M B) (l : list A) (a : A) :
  In a l -> (forall env w, exists e, fst (f a env w) = Throw e) ->
  forall env w, exists e, fst (mapM f l env w) = Throw e.
Proof.
  intros Hin Ha. induction l as [|x l IH]; [destruct Hin|].
  intros env w. cbn [mapM]. unfold bind, ret.
  destruct Hin as [->|Hin].
  - destruct (Ha env w) as [e He].
    destruct (f a env w) as [[b|e'] w1]; cbn [fst] in He; [discriminate|].
    exists e'. reflexivity.
  - destruct (f x env w) as [[b|e'] w1]; [|exists e'; reflexivity].
    destruct (IH Hin env w1) as [e He].
    destruct (mapM f l env w1) as [[bs|e'] w2]; cbn [fst] in He; [discriminate|].
    exists e'. reflexivity.
Qed.

Lemma parseNumericAny_notNaN (v : value) (env : Env) (w w' : World)
    (r : option number) :
  parseNumericAny v env w = (Ok r, w') -> notNaN r = true.
Proof.
  assert (HP : forall o, parseNumeric o env w = (Ok r, w') -> notNaN r = true).
  { intros [s|]; unfold parseNumeric.
    - destruct (negb (truthy (VString s)) || str_eqb (trim s) (lit "-"%string)).
      + intros H; injection H as <- <-. reflexivity.
      + destruct (isNaN (VNumber (parseFloat _))) eqn:E.
        * run. intros H; injection H as <- <-. reflexivity.
        * intros H; injection H as <- <-. cbn. unfold isNaN in E. cbn in E.
          rewrite E. reflexivity.
    - intros H; injection H as <- <-. reflexivity. }
  unfold parseNumericAny. destruct v; try apply HP;
    destruct (truthy _); try discriminate;
    intros H; injection H as <- <-; reflexivity.
Qed.

Lemma parseNumericAny_throws (v : value) (env : Env) (w : World) :
  truthyNonString v = true ->
  parseNumericAny v env w = (Throw notAFunction, w).
Proof.
  destruct v; cbn [truthyNonString parseNumericAny]; try discriminate;
    intros ->; reflexivity.
Qed.

Ltac next_field H :=
  match type of H with
  | context [parseNumericAny ?x ?env ?w] =>
      destruct (parseNumericAny x env w) as [[?|?] ?] eqn:?; [|discriminate H]
  end.

Lemma toTariff_stamped (today : jsstring) (v : value) (env : Env)
    (w w' : World) (t : Tariff.t) :
  toTariff today v env w = (Ok t, w') -> stamped today t.
Proof.
  unfold toTariff, get.
  destruct v; try discriminate; run; intros H;
    repeat next_field H; injection H as <- <-;
    repeat match goal with
           | E : parseNumericAny _ _ _ = (Ok _, _) |- _ =>
               apply parseNumericAny_notNaN in E
           end;
    repeat split; assumption.
Qed.

Ltac bad_field :=
  match goal with
  | |- context [parseNumericAny ?x ?env ?w] =>
      let E := fresh "E" in
      destruct (truthyNonString x) eqn:E;
      [ rewrite (parseNumericAny_throws x env w E); eexists; reflexivity
      | destruct (parseNumericAny x env w) as [[?|?] ?];
        [|eexists; reflexivity] ]
  end.

Lemma toTariff_bad (today : jsstring) (v : value) :
  badEntry v = true ->
  forall env w, exists e, fst (toTariff today v env w) = Throw e.
Proof.
  intros H env w. unfold toTariff, get.
  destruct v; try (eexists; reflexivity);
    cbn [badEntry existsb numericFields] in H; run;
    repeat bad_field;
    repeat match goal with
           | E : truthyNonString _ = false |- _ => rewrite E in H
           end;
    discriminate H.
Qed.

End Fetcher.

(** ** What a run of the fetcher does *)

Section FetcherRuns.
Import WBTariffsSync.

(** X1. [WBTariffsSync.sync] never throws: whatever the upstream, the
    clock and the database do, it returns normally, and the last thing it
    does is to log one of three messages: the completion, the warning
    about the data format, or the error it caught. *)
Theorem fetcher_never_throws (env : Env) (w : World) :
  exists w1 last,
    sync env w = (Ok tt, mkWorld (tariffs w1) (trace w1 ++ [last]) (tick w1))
    /\ (last = Log Logger.info Logger.SyncCompleted
        \/ last = Log Logger.warn Logger.InvalidDataFormat
        \/ exists e, last = Log Logger.error (Logger.SyncError e)).
Proof.
  assert (H : forall l m w1,
             (l, m) = (Logger.info, Logger.SyncCompleted)
             \/ (l, m) = (Logger.warn, Logger.InvalidDataFormat)
             \/ (exists e, (l, m) = (Logger.error, Logger.SyncError e)) ->
             exists w1' last,
               (Ok tt, afterLog l m w1)
               = (Ok tt, mkWorld (tariffs w1') (trace w1' ++ [last]) (tick w1'))
               /\ (last = Log Logger.info Logger.SyncCompleted
                   \/ last = Log Logger.warn Logger.InvalidDataFormat
                   \/ exists e, last = Log Logger.error (Logger.SyncError e))).
  { intros l m w1 Hlm. exists w1, (Log l m). split; [reflexivity|].
    destruct Hlm as [Hlm|[Hlm|[e Hlm]]]; injection Hlm as -> ->; eauto. }
  rewrite fetcher_run.
  destruct (http_get env _ _) as [response|e]; [|apply H; eauto].
  destruct (warehouseListOf response); try (apply H; eauto).
  destruct (mapM _ _ _ _) as [[ts|e] w1]; [|apply H; eauto].
  destruct (insertChunks _ _ _ _ _) as [[[]|e] w2]; apply H; eauto.
Qed.

(** X2. When the HTTP request fails, [WBTariffsSync.sync] logs the
    error and stops: its events are the start message, the request and
    the error message, and the table is left as it was. *)
Theorem fetcher_http_failure (env : Env) (w : World) (e : Error) :
  let today := isoDate (now env (tick w)) in
  http_get env (S (tick w)) (url today) = Throw e ->
  sync env w =
  (Ok tt,
   mkWorld (tariffs w)
     (trace w ++ [Log Logger.info (Logger.StartingSync today);
                  HttpGet (url today);
                  Log Logger.error (Logger.SyncError e)])
     (S (S (tick w)))).
Proof.
  intros today H. rewrite fetcher_run. fold today. rewrite H.
  unfold afterLog. cbn [tariffs trace tick]. rewrite <- app_assoc. reflexivity.
Qed.

(** X3. One bad entry spoils the whole list: when an entry of
    [warehouseList] is null or undefined, or has a truthy value that is
    not a string in one of its five numeric fields, the mapping throws
    before the first insert, so that [sync] writes nothing, leaves the
    table as it was and ends with the error message; between the request
    and that message it only logs. *)
Theorem fetcher_bad_entry_writes_nothing (env : Env) (w : World)
    (response : value) (ws : list value) :
  let today := isoDate (now env (tick w)) in
  let w' := after sync env w in
  http_get env (S (tick w)) (url today) = Ok response ->
  warehouseListOf response = VArray ws ->
  existsb badEntry ws = true ->
  tariffs w' = tariffs w
  /\ dbWrites (since w w') = 0%nat
  /\ exists warnings e,
       forallb isLog warnings = true
       /\ since w w'
          = [Log Logger.info (Logger.StartingSync today); HttpGet (url today)]
            ++ warnings ++ [Log Logger.error (Logger.SyncError e)].
Proof.
  intros today w' Hget Hlist Hbad. subst w'. unfold after.
  rewrite fetcher_run. fold today. rewrite Hget, Hlist.
  set (w0 := mkWorld _ _ _).
  apply existsb_exists in Hbad. destruct Hbad as [v [Hin Hv]].
  destruct (mapM_throws (toTariff today) ws v Hin (toTariff_bad today v Hv) env w0)
    as [e He].
  destruct (mapping_keeps today ws env w0) as [Htb [warnings [Htr Hlog]]].
  destruct (mapM (toTariff today) ws env w0) as [[ts|e'] w1];
    cbn [fst snd] in *; [discriminate|].
  assert (Hs : since w (afterLog Logger.error (Logger.SyncError e') w1)
               = [Log Logger.info (Logger.StartingSync today); HttpGet (url today)]
                 ++ warnings ++ [Log Logger.error (Logger.SyncError e')]).
  { apply since_app. unfold afterLog. cbn [trace]. rewrite Htr.
    unfold w0. cbn [trace]. rewrite <- !app_assoc. reflexivity. }
  split; [exact Htb|]. split.
  - rewrite Hs. unfold dbWrites.
    rewrite !filter_app, (filter_none isLog _ warnings); [reflexivity| |exact Hlog].
    intros [] Hx; try discriminate Hx; reflexivity.
  - exists warnings, e'. split; [exact Hlog|exact Hs].
Qed.

(** X4. The loop over the records sends them in consecutive chunks of
    at most 100: the chunks are not empty, put together they are the list
    of records, there are [ceil(length / 100)] of them, and the events of
    the loop are the inserts of the first [j] chunks, in order, with all
    of them sent when the loop returns. *)
Theorem insert_loop_sends_chunks (l : list Tariff.t) (env : Env) (w : World) :
  let cs := chunks 100 l in
  let run := insertChunks (length l) 0 l env w in
  concat cs = l
  /\ Forall (fun c => (1 <= length c <= 100)%nat) cs
  /\ length cs = ((length l + 99) / 100)%nat
  /\ exists j,
       (j <= length cs)%nat
       /\ since w (snd run) = List.map DbInsert (firstn j cs)
       /\ (fst run = Ok tt -> j = length cs).
Proof.
  intros cs run. subst cs. unfold chunks.
  split; [apply chunksOf_concat; lia|].
  split; [apply chunksOf_sizes; lia|].
  split; [apply chunksOf_count; lia|].
  destruct (insertChunks_run l env (length l) 0 w (fst run) (snd run))
    as [j [Hj [Ht Hr]]]; [apply surjective_pairing|].
  cbn [skipn] in *. exists j. split; [exact Hj|].
  split; [apply since_app, Ht|].
  intros Hok. rewrite Hok in Hr. apply Hr.
Qed.

(** X5. The loop is not one transaction.  When it returns, the table is
    the result of applying the statements of all chunks in order; when
    the statement for chunk [j] fails, the statements of the [j - 1]
    chunks before it stay applied and no later chunk is sent. *)
Theorem insert_loop_commits_chunk_by_chunk (l : list Tariff.t) (env : Env)
    (w : World) :
  let cs := chunks 100 l in
  let run := insertChunks (length l) 0 l env w in
  match fst run with
  | Ok _ => commit (pg_text env) cs (tariffs w) = Some (tariffs (snd run))
  | Throw _ =>
      exists j,
        (1 <= j <= length cs)%nat
        /\ inserts (since w (snd run)) = firstn j cs
        /\ commit (pg_text env) (firstn (j - 1) cs) (tariffs w)
           = Some (tariffs (snd run))
  end.
Proof.
  intros cs run. subst cs. unfold chunks.
  destruct (insertChunks_run l env (length l) 0 w (fst run) (snd run))
    as [j [Hj [Ht Hr]]]; [apply surjective_pairing|].
  cbn [skipn] in *. destruct (fst run).
  - apply Hr.
  - exists j. split; [lia|]. split; [|apply Hr].
    rewrite (since_app _ _ _ Ht). apply inserts_sent.
Qed.

Lemma fetcher_one_get (env : Env) (w : World) :
  httpGets (since w (after sync env w)) = 1%nat.
Proof.
  unfold after. rewrite fetcher_run.
  set (today := isoDate (now env (tick w))). set (w0 := mkWorld _ _ _).
  assert (H0 : forall l m, httpGets (since w (afterLog l m w0)) = 1%nat).
  { intros l m. erewrite since_app; [|unfold afterLog, w0; cbn [trace];
      rewrite <- app_assoc; reflexivity]. reflexivity. }
  destruct (http_get env _ _) as [response|e]; [|apply H0].
  destruct (warehouseListOf response); try apply H0.
  destruct (mapping_keeps today xs env w0) as [_ [t1 [Ht1 Hl1]]].
  destruct (mapM _ _ _ _) as [[ts|e] w1] eqn:E1; cbn [snd] in *.
  - pose proof (inserting_grows (length ts) 0 ts env
                  (afterLog Logger.info (Logger.FoundTariffs (length ts)) w1))
      as [t2 [Ht2 Hl2]].
    assert (H2 : forall l m w2,
               trace w2 = trace (afterLog Logger.info
                                   (Logger.FoundTariffs (length ts)) w1) ++ t2 ->
               httpGets (since w (afterLog l m w2)) = 1%nat).
    { intros l m w2 Hw2.
      erewrite since_app; [|unfold afterLog in *; cbn [trace] in *;
        rewrite Hw2, Ht1; unfold w0; cbn [trace];
        rewrite <- !app_assoc; reflexivity].
      rewrite !httpGets_app, (httpGets_none isLog t1),
        (httpGets_none _ t2 (fun _ => eq_refl) Hl2);
        [reflexivity|reflexivity|exact Hl1]. }
    destruct (insertChunks _ _ _ _ _) as [[[]|e] w2]; cbn [snd] in Ht2;
      apply H2, Ht2.
  - erewrite since_app; [|unfold afterLog; cbn [trace]; rewrite Ht1;
      unfold w0; cbn [trace]; rewrite <- !app_assoc; reflexivity].
    rewrite !httpGets_app, (httpGets_none isLog t1);
      [reflexivity|reflexivity|exact Hl1].
Qed.

(** X6. A run of [WBTariffsSync.sync] makes exactly one request through
    the HTTP client, and besides that it only logs and inserts: it never
    reads the table, never calls the spreadsheet API and never sleeps. *)
Theorem fetcher_requests (env : Env) (w : World) :
  let tr := since w (after sync env w) in
  forallb isFetcherEvent tr = true /\ httpGets tr = 1%nat.
Proof.
  cbn zeta. split; [|apply fetcher_one_get].
  destruct (fetcher_grows env w) as [tr [Ht Hf]].
  unfold after. rewrite (since_app _ _ _ Ht). exact Hf.
Qed.

End FetcherRuns.

Lemma fetcher_http_failure_witness :
  WBTariffsSync.sync Example.envDown Example.world =
  (Ok tt,
   mkWorld Db.up
     [Log Logger.info (Logger.StartingSync (lit "2024-03-05"%string));
      HttpGet (lit "/tariffs/box?date=2024-03-05"%string);
      Log Logger.error (Logger.SyncError Example.timedOut)]
     2).
Proof.
  apply (fetcher_http_failure Example.envDown Example.world Example.timedOut).
  reflexivity.
Defined.

Lemma fetcher_bad_entry_witness :
  tariffs (after WBTariffsSync.sync Example.envWithNull Example.world) = Db.up
  /\ dbWrites (since Example.world
                 (after WBTariffsSync.sync Example.envWithNull Example.world))
     = 0%nat
  /\ exists warnings e,
       forallb isLog warnings = true
       /\ since Example.world
            (after WBTariffsSync.sync Example.envWithNull Example.world)
          = [Log Logger.info (Logger.StartingSync (lit "2024-03-05"%string));
             HttpGet (lit "/tariffs/box?date=2024-03-05"%string)]
            ++ warnings ++ [Log Logger.error (Logger.SyncError e)].
Proof.
  apply (fetcher_bad_entry_writes_nothing Example.envWithNull Example.world
           (Example.response Example.withNull) Example.withNull);
    reflexivity.
Defined.

Section FetcherRecords.
Import WBTariffsSync.

Lemma In_firstn {A} (n : nat) (l : list A) (x : A) :
  In x (firstn n l) -> In x l.
Proof.
  intros H. rewrite <- (firstn_skipn n l). apply in_or_app. left. exact H.
Qed.

(** The chunks that a run of the fetcher sends are the first chunks of
    the records it mapped, if it sends any. *)
Lemma fetcher_inserts (env : Env) (w : World) :
  let today := isoDate (now env (tick w)) in
  inserts (since w (after sync env w)) = []
  \/ exists ws w0 ts w1 j,
       mapM (toTariff today) ws env w0 = (Ok ts, w1)
       /\ inserts (since w (after sync env w)) = firstn j (chunks 100 ts).
Proof.
  intros today. unfold after. rewrite fetcher_run. fold today.
  set (w0 := mkWorld _ _ _).
  assert (H0 : forall l m, inserts (since w (afterLog l m w0)) = []).
  { intros l m. erewrite since_app; [|unfold afterLog, w0; cbn [trace];
      rewrite <- app_assoc; reflexivity]. reflexivity. }
  destruct (http_get env _ _) as [response|e]; [|left; apply H0].
  destruct (warehouseListOf response); try (left; apply H0).
  destruct (mapping_keeps today xs env w0) as [_ [t1 [Ht1 Hl1]]].
  destruct (mapM _ _ _ _) as [[ts|e] w1] eqn:E1; cbn [snd] in *.
  - right. exists xs, w0, ts, w1.
    destruct (insertChunks (length ts) 0 ts env
                (afterLog Logger.info (Logger.FoundTariffs (length ts)) w1))
      as [r w2] eqn:E2.
    destruct (insertChunks_run _ _ _ _ _ _ _ E2) as [j [_ [Ht2 _]]].
    cbn [skipn] in Ht2. exists j. split; [exact E1|].
    assert (H2 : forall l m,
               inserts (since w (afterLog l m w2)) = firstn j (chunks 100 ts)).
    { intros l m.
      erewrite since_app; [|unfold afterLog in *; cbn [trace] in *;
        rewrite Ht2, Ht1; unfold w0; cbn [trace];
        rewrite <- !app_assoc; reflexivity].
      rewrite !inserts_app, (inserts_none isLog t1), inserts_sent;
        [|reflexivity|exact Hl1].
      cbn. rewrite app_nil_r. reflexivity. }
    destruct r as [[]|e]; apply H2.
  - left. erewrite since_app; [|unfold afterLog; cbn [trace]; rewrite Ht1;
      unfold w0; cbn [trace]; rewrite <- !app_assoc; reflexivity].
    rewrite !inserts_app, (inserts_none isLog t1); [reflexivity|reflexivity|exact Hl1].
Qed.

(** X7. Every record that [WBTariffsSync.sync] sends to the database
    carries the calendar date (UTC) of the instant at which the run
    started, and none of its five numeric fields is [NaN]. *)
Theorem fetcher_records_stamped (env : Env) (w : World) :
  let today := isoDate (now env (tick w)) in
  Forall (Forall (stamped today)) (inserts (since w (after sync env w))).
Proof.
  intros today.
  destruct (fetcher_inserts env w) as [H|[ws [w0 [ts [w1 [j [Hm H]]]]]]];
    fold today in H; rewrite H; [constructor|].
  assert (Hts : Forall (stamped today) ts).
  { eapply mapM_post; [|exact Hm]. intros a env' w' b w''.
    apply toTariff_stamped. }
  rewrite Forall_forall in *. intros c Hc. rewrite Forall_forall. intros t Ht.
  apply Hts. apply In_firstn in Hc. eapply chunksOf_In; eassumption.
Qed.

End FetcherRecords.

(** ** [parseNumeric] on a number inside text *)

Section Surroundings.
Import WBTariffsSync.

Lemma trimStart_lead (lead s : jsstring) :
  forallb isStrWhiteSpaceChar lead = true ->
  trimStart (lead ++ s) = trimStart s.
Proof.
  induction lead as [|c lead IH]; [reflexivity|].
  cbn [forallb app trimStart]. intros H. apply andb_prop in H.
  destruct H as [-> H]. apply IH, H.
Qed.

Lemma trimStart_keeps (x : jsstring) (c : code_unit) (y : jsstring) :
  isStrWhiteSpaceChar c = false ->
  exists x', trimStart (x ++ c :: y) = x' ++ c :: y.
Proof.
  intros Hc. induction x as [|a x IH]; cbn [app trimStart].
  - rewrite Hc. exists []. reflexivity.
  - destruct (isStrWhiteSpaceChar a); [exact IH|].
    exists (a :: x). reflexivity.
Qed.

Lemma trimEnd_keeps (a : jsstring) (c : code_unit) (b : jsstring) :
  isStrWhiteSpaceChar c = false ->
  exists b', trimEnd (a ++ c :: b) = a ++ c :: b'.
Proof.
  intros Hc. unfold trimEnd. rewrite rev_app_distr. cbn [rev].
  rewrite <- app_assoc. cbn [app].
  destruct (trimStart_keeps (rev b) c (rev a) Hc) as [x' E]. rewrite E.
  rewrite rev_app_distr. cbn [rev]. rewrite rev_involutive, <- app_assoc.
  exists (rev x'). reflexivity.
Qed.

Lemma whitespace_no_comma (lead : jsstring) :
  forallb isStrWhiteSpaceChar lead = true ->
  Forall (fun c => cu_eqb (cu ",") c = false) lead.
Proof.
  intros H. apply Forall_forall. intros c Hc.
  rewrite forallb_forall in H. specialize (H c Hc).
  destruct (cu_eqb (cu ",") c) eqn:E; [|reflexivity].
  rewrite (comma_not_space c E) in H. discriminate.
Qed.

Lemma exponentPart_none (rest : jsstring) :
  endsNumber rest = true -> exponentPart rest = (0, rest).
Proof.
  destruct rest as [|c r]; [reflexivity|].
  cbn [endsNumber exponentPart]. rewrite negb_true_iff, !orb_false_iff.
  intros [[_ ->] ->]. reflexivity.
Qed.

Lemma endsNumber_digit (rest : jsstring) :
  endsNumber rest = true ->
  match rest with c :: _ => digitValue c = None | [] => True end.
Proof.
  destruct rest as [|c r]; [exact (fun _ => I)|].
  cbn [endsNumber]. rewrite negb_true_iff, !orb_false_iff.
  intros [[H _] _]. unfold digitValue. fold (isDigit c). rewrite H. reflexivity.
Qed.

Lemma unsigned_decimal_rest (neg : bool) (ip fp : list Z) (rest : jsstring) :
  areDigits ip -> areDigits fp -> endsNumber rest = true ->
  strUnsignedDecimalLiteral neg
    (digits ip ++ lit "."%string ++ digits fp ++ rest)
  = Some (ofDecimal neg (digitsValue (ip ++ fp)) (0 - Z.of_nat (length fp)),
          rest).
Proof.
  intros [Hne Hip] [_ Hfp] Hrest. unfold strUnsignedDecimalLiteral.
  destruct ip as [|d ip]; [contradiction|].
  assert (Hd : 0 <= d <= 9) by (inversion Hip; assumption).
  replace (isPrefix (lit "Infinity"%string)
             (digits (d :: ip) ++ lit "."%string ++ digits fp ++ rest))
    with false.
  2:{ cbn [digits List.map app lit list_ascii_of_string isPrefix].
      change (N_of_ascii "I") with (cu "I").
      destruct (digitChar_plain d Hd) as (_ & _ & _ & _ & ->). reflexivity. }
  rewrite (takeDigits_digits (d :: ip) (lit "."%string ++ digits fp ++ rest)
             Hip eq_refl).
  cbn [lit list_ascii_of_string List.map app].
  change (cu_eqb (N_of_ascii ".") (cu ".")) with true. cbn iota.
  rewrite (takeDigits_digits fp rest Hfp (endsNumber_digit rest Hrest)).
  rewrite (exponentPart_none rest Hrest). reflexivity.
Qed.

(** The body of a comma decimal: its sign and digits, with the text that
    follows. *)
Lemma surrounded_parseFloat (neg : bool) (ip fp : list Z)
    (lead rest : jsstring) :
  areDigits ip -> areDigits fp ->
  forallb isStrWhiteSpaceChar lead = true -> endsNumber rest = true ->
  parseFloat (replace (lit ","%string) (lit "."%string)
                (lead ++ commaDecimal neg ip fp ++ rest))
  = ofDecimal neg (digitsValue (ip ++ fp)) (- Z.of_nat (length fp)).
Proof.
  intros Hip Hfp Hlead Hrest.
  assert (E : replace (lit ","%string) (lit "."%string)
                (lead ++ commaDecimal neg ip fp ++ rest)
              = lead ++ (if neg then lit "-"%string else [])
                  ++ digits ip ++ lit "."%string ++ digits fp ++ rest).
  { unfold commaDecimal.
    replace (lead ++ ((if neg then lit "-"%string else [])
                        ++ digits ip ++ lit ","%string ++ digits fp) ++ rest)
      with ((lead ++ (if neg then lit "-"%string else []) ++ digits ip)
              ++ lit ","%string ++ (digits fp ++ rest))
      by (rewrite <- !app_assoc; reflexivity).
    rewrite replace_comma; [rewrite <- !app_assoc; reflexivity|].
    apply Forall_app. split; [apply whitespace_no_comma, Hlead|].
    apply Forall_app. split; [destruct neg; repeat constructor|].
    unfold digits. apply Forall_map. destruct Hip as [_ Hip].
    eapply Forall_impl; [|exact Hip].
    intros d Hd. apply (digitChar_plain d Hd). }
  rewrite E. unfold parseFloat. rewrite (trimStart_lead lead _ Hlead).
  destruct Hip as [Hne Hds]. destruct ip as [|d ip]; [contradiction|].
  assert (Hd : 0 <= d <= 9) by (inversion Hds; assumption).
  destruct (digitChar_plain d Hd) as (Hws & _ & Hplus & Hminus & _).
  destruct neg.
  - cbn [lit list_ascii_of_string List.map app trimStart].
    change (isStrWhiteSpaceChar (N_of_ascii "-")) with false. cbn iota.
    unfold strDecimalLiteral.
    change (cu_eqb (N_of_ascii "-") (cu "+")) with false.
    change (cu_eqb (N_of_ascii "-") (cu "-")) with true. cbn iota.
    change (N_of_ascii "." :: digits fp ++ rest)
      with (lit "."%string ++ digits fp ++ rest).
    rewrite (unsigned_decimal_rest true (d :: ip) fp rest (conj Hne Hds) Hfp Hrest).
    reflexivity.
  - cbn [app digits List.map]. rewrite (trimStart_plain _ _ Hws).
    unfold strDecimalLiteral. rewrite Hplus, Hminus.
    change (digitChar d :: List.map digitChar ip ++ lit "."%string ++ digits fp ++ rest)
      with (digits (d :: ip) ++ lit "."%string ++ digits fp ++ rest).
    rewrite (unsigned_decimal_rest false (d :: ip) fp rest (conj Hne Hds) Hfp Hrest).
    reflexivity.
Qed.

Lemma surrounded_not_dash (neg : bool) (ip fp : list Z) (lead rest : jsstring) :
  areDigits ip ->
  forallb isStrWhiteSpaceChar lead = true ->
  trim (lead ++ commaDecimal neg ip fp ++ rest) <> lit "-"%string.
Proof.
  intros [Hne Hds] Hlead. unfold trim. rewrite (trimStart_lead lead _ Hlead).
  destruct ip as [|d ip]; [contradiction|].
  assert (Hd : 0 <= d <= 9) by (inversion Hds; assumption).
  destruct (digitChar_plain d Hd) as (Hws & _ & _ & Hminus & _).
  unfold commaDecimal. destruct neg.
  - cbn [lit list_ascii_of_string List.map app digits trimStart].
    change (isStrWhiteSpaceChar (N_of_ascii "-")) with false. cbn iota.
    match goal with
    | |- context [trimEnd (?a :: ?c :: ?b)] =>
        destruct (trimEnd_keeps [a] c b Hws) as [b' E]
    end.
    cbn [app] in E. rewrite E. discriminate.
  - cbn [app digits List.map]. rewrite (trimStart_plain _ _ Hws).
    match goal with
    | |- context [trimEnd (?c :: ?b)] =>
        destruct (trimEnd_head c b Hws) as [r' E]
    end.
    rewrite E. intros H. injection H as H _.
    rewrite H in Hminus. discriminate Hminus.
Qed.

(** X8. [parseNumeric] reads a comma decimal out of the text around it:
    white space before the number is skipped, and whatever follows it is
    ignored, as long as that does not start with a digit or with the
    letter of an exponent.  So only the first comma counts as the decimal
    point: "1,234,5" is read as 1.234. *)
Theorem parseNumeric_ignores_surroundings (neg : bool) (ip fp : list Z)
    (lead rest : jsstring) (env : Env) (w : World) :
  areDigits ip -> areDigits fp ->
  forallb isStrWhiteSpaceChar lead = true -> endsNumber rest = true ->
  parseNumeric (Some (lead ++ commaDecimal neg ip fp ++ rest)) env w
  = (Ok (Some (ofDecimal neg (digitsValue (ip ++ fp)) (- Z.of_nat (length fp)))),
     w).
Proof.
  intros Hip Hfp Hlead Hrest. rewrite parseNumeric_string.
  - cbn zeta. rewrite (surrounded_parseFloat neg ip fp lead rest Hip Hfp Hlead Hrest).
    rewrite ofDecimal_not_NaN. reflexivity.
  - intros E. apply (f_equal (@length _)) in E.
    unfold commaDecimal, digits in E. rewrite !length_app, !length_map in E.
    destruct Hip as [Hne _]. destruct ip; [contradiction|]. cbn in E. lia.
  - apply surrounded_not_dash; assumption.
Qed.

End Surroundings.

Lemma parseNumeric_surroundings_witness :
  WBTariffsSync.parseNumeric (Some (lit " 1,234,5 rub"%string))
    Example.env Example.world
  = (Ok (Some (ofDecimal false 1234 (-3))), Example.world).
Proof.
  apply (parseNumeric_ignores_surroundings false [1] [2; 3; 4]
           (lit " "%string) (lit ",5 rub"%string) Example.env Example.world).
  - split; [discriminate|repeat constructor; lia].
  - split; [discriminate|repeat constructor; lia].
  - reflexivity.
  - reflexivity.
Defined.

(** ** Inserts that meet rows of the table *)

Section InPlace.

Lemma upsert_ids_present (new : Db.row) (rs : list Db.row) :
  In (Db.key new) (List.map Db.key rs) ->
  List.map Db.id (Db.upsert new rs) = List.map Db.id rs.
Proof.
  induction rs as [|r rs IH]; intros Hin; [destruct Hin|].
  cbn [Db.upsert]. destruct (Db.key_eqb (Db.key r) (Db.key new)) eqn:E.
  - reflexivity.
  - cbn [List.map]. f_equal. apply IH.
    destruct Hin as [Hin|Hin]; [|exact Hin].
    rewrite Hin, key_eqb_refl in E. discriminate.
Qed.

Lemma upsertAll_present (news : list Db.row) :
  forall touched rs rs',
    Db.upsertAll touched news rs = Ok rs' ->
    Forall (fun n => In (Db.key n) (List.map Db.key rs)) news ->
    List.map Db.id rs' = List.map Db.id rs
    /\ List.map Db.key rs' = List.map Db.key rs.
Proof.
  induction news as [|n news IH]; intros touched rs rs' H Hin;
    cbn [Db.upsertAll] in H.
  - injection H as <-. split; reflexivity.
  - destruct (existsb _ touched); [discriminate|].
    inversion Hin as [|? ? Hn Hrest]; subst.
    apply IH in H.
    + rewrite (upsert_ids_present n rs Hn), (upsert_keys_present n rs Hn) in H.
      exact H.
    + rewrite (upsert_keys_present n rs Hn). exact Hrest.
Qed.

Lemma proposeAll_keys (text : value -> jsstring)
    (keys : list (jsstring * jsstring)) (chunk : list Tariff.t) :
  forall nid news,
    Db.proposeAll text nid chunk = Ok news ->
    Forall (fun t => exists k, keyOf t = Some k /\ In k keys) chunk ->
    Forall (fun n => In (Db.key n) keys) news.
Proof.
  induction chunk as [|t chunk IH]; intros nid news H Hin;
    cbn [Db.proposeAll] in H.
  - injection H as <-. constructor.
  - destruct (Db.propose text nid t) as [r|e] eqn:Er; [|discriminate].
    destruct (Db.proposeAll text (nid + 1) chunk) as [rs|e] eqn:Ers; [|discriminate].
    injection H as <-. inversion Hin as [|? ? [k [Hk Hkin]] Hrest]; subst.
    constructor; [|eapply IH; eassumption].
    unfold keyOf in Hk. unfold Db.propose in Er.
    destruct (Tariff.warehouse_name t); try discriminate Hk.
    injection Hk as <-.
    repeat match type of Er with
           | context [match Db.column ?x with _ => _ end] =>
               destruct (Db.column x)
           end; try discriminate Er.
    injection Er as <-. exact Hkin.
Qed.

(** X9. An insert whose records all have a key that the table already
    holds updates rows in place: afterwards the table has the same rows
    under the same ids and the same keys, in the same order, so that no
    row was added. *)
Theorem reinsert_updates_in_place (text : value -> jsstring)
    (chunk : list Tariff.t) (tb tb' : Db.table) :
  Db.insertOnConflictMerge text chunk tb = Ok tb' ->
  Forall (fun t => exists k, keyOf t = Some k
                             /\ In k (List.map Db.key (Db.rows tb))) chunk ->
  List.map Db.id (Db.rows tb') = List.map Db.id (Db.rows tb)
  /\ List.map Db.key (Db.rows tb') = List.map Db.key (Db.rows tb).
Proof.
  intros H Hin. unfold Db.insertOnConflictMerge in H.
  destruct (Db.proposeAll text (Db.next_id tb) chunk) as [news|e] eqn:Ep;
    [|discriminate].
  destruct (Db.upsertAll [] news (Db.rows tb)) as [rs|e] eqn:Eu; [|discriminate].
  injection H as <-. cbn [Db.rows].
  eapply upsertAll_present; [exact Eu|].
  eapply proposeAll_keys; eassumption.
Qed.

End InPlace.

Lemma reinsert_witness :
  List.map Db.id (Db.rows Example.tableB) = List.map Db.id (Db.rows Example.tableA)
  /\ List.map Db.key (Db.rows Example.tableB)
     = List.map Db.key (Db.rows Example.tableA).
Proof.
  apply (reinsert_updates_in_place ToString [Example.recordB] Example.tableA
           Example.tableB).
  - vm_compute. reflexivity.
  - constructor; [|constructor].
    exists Example.koledino. split; [reflexivity|vm_compute; left; reflexivity].
Defined.

(** ** The value that [formatNumber] shows *)

Section Hundredths.
Import TariffSheetSyncService.

Lemma valueOf_zeros (k : nat) (s : jsstring) :
  valueOf (repeat (cu "0") k ++ s) = valueOf s.
Proof.
  induction k as [|k IH]; [reflexivity|].
  cbn [repeat app]. rewrite valueOf_cons, IH. lia.
Qed.

(** X10. For a finite Number [x] with [|x| < 10^21], [formatNumber]
    returns its sign, at least one digit, a comma and two digits, and
    these digits, read as a number of hundredths, are the integer nearest
    to [100 * |x|], the larger one when two are as near. *)
Theorem formatNumber_nearest_hundredth (neg : bool) (m : positive) (e : Z) :
  let p := fst (fraction m e) in
  let q := snd (fraction m e) in
  p < 10 ^ 21 * q ->
  exists a b,
    formatNumber (VNumber (S754_finite neg m e))
    = Some ((if neg then lit "-"%string else []) ++ a ++ cu "," :: b)
    /\ a <> [] /\ length b = 2%nat
    /\ Forall (fun c => isDigit c = true) (a ++ b)
    /\ 2 * q * valueOf (a ++ b) - q <= 200 * p < 2 * q * valueOf (a ++ b) + q.
Proof.
  intros p q Hrange. destruct (fraction_pos m e) as [Hp Hq].
  fold p in Hp. fold q in Hq.
  unfold formatNumber. cbn [ToNumber isNaN isNaN_num].
  unfold toFixed. subst p q. destruct (fraction m e) as [p q].
  cbn [fst snd] in *.
  replace (10 ^ 21 * q <=? p) with false by (symmetry; apply Z.leb_gt; lia).
  set (n := (2 * p * 10 ^ Z.of_nat 2 + q) / (2 * q)).
  set (ds := repeat (cu "0") (2 + 1 - length (natToString n)) ++ natToString n).
  assert (Hn : 0 <= n) by (apply Z.div_pos; lia).
  assert (Hds : Forall (fun c => isDigit c = true) ds).
  { apply Forall_app. split; [|apply natToString_digits].
    apply Forall_forall. intros c Hc. apply repeat_spec in Hc. subst c.
    reflexivity. }
  assert (Hlen : (3 <= length ds)%nat).
  { unfold ds. rewrite length_app, repeat_length.
    pose proof (natToString_nonempty n). lia. }
  assert (Hval : valueOf ds = n).
  { unfold ds. rewrite valueOf_zeros. apply natToString_value, Hn. }
  set (a := firstn (length ds - 2) ds).
  set (b := skipn (length ds - 2) ds).
  assert (Hab : a ++ b = ds) by apply firstn_skipn.
  assert (Ha : a <> []).
  { intros E. apply (f_equal (@length _)) in E. unfold a in E.
    rewrite length_firstn in E. cbn [length] in E. lia. }
  assert (Hb : length b = 2%nat) by (unfold b; rewrite length_skipn; lia).
  exists a, b. rewrite Hab, Hval.
  split; [|split; [exact Ha|split; [exact Hb|split; [exact Hds|]]]].
  - f_equal. rewrite app_assoc.
    change (lit "."%string ++ b) with (cu "." :: b).
    change (lit "."%string) with [cu "."]. change (lit ","%string) with [cu ","].
    rewrite replace_unit; [rewrite <- app_assoc; reflexivity|].
    apply Forall_app. split; [destruct neg; repeat constructor|].
    apply digits_no_dot. rewrite <- Hab in Hds. apply Forall_app in Hds.
    apply Hds.
  - subst n. change (10 ^ Z.of_nat 2) with 100.
    pose proof (Z.div_mod (2 * p * 100 + q) (2 * q)) as Hd.
    pose proof (Z.mod_pos_bound (2 * p * 100 + q) (2 * q)) as Hm.
    nia.
Qed.

End Hundredths.

Lemma formatNumber_nearest_witness :
  exists a b,
    TariffSheetSyncService.formatNumber
      (VNumber (S754_finite true 5429652300748554 (-42)))
    = Some (lit "-"%string ++ a ++ cu "," :: b)
    /\ a <> [] /\ length b = 2%nat
    /\ Forall (fun c => isDigit c = true) (a ++ b)
    /\ 2 * 2 ^ 42 * valueOf (a ++ b) - 2 ^ 42
       <= 200 * 5429652300748554
       < 2 * 2 ^ 42 * valueOf (a ++ b) + 2 ^ 42.
Proof.
  apply (formatNumber_nearest_hundredth true 5429652300748554 (-42)).
  vm_compute. reflexivity.
Defined.

(** ** The day that [formatDate] shows *)

Section LocalDay.
Import TariffSheetSyncService.

(** The day, the month and the year of a time value name its day. *)
Lemma calendar_day (t : Z) :
  DayFromYear (YearFromTime t) + monthStart (YearFromTime t) (MonthFromTime t)
    + (DateFromTime t - 1)
  = Day t.
Proof.
  pose proof (DayWithinYear_range t) as Hd.
  unfold DateFromTime, monthStart, MonthFromTime, InLeapYear in *.
  unfold DayWithinYear in *.
  destruct (isLeap (YearFromTime t));
    repeat match goal with
           | |- context [if ?a <? ?b then _ else _] =>
               destruct (Z.ltb_spec a b)
           end; lia.
Qed.

Lemma date_in_month (t : Z) :
  DateFromTime t <= daysInMonth (YearFromTime t) (MonthFromTime t + 1).
Proof.
  pose proof (DayWithinYear_range t) as Hd.
  unfold daysInMonth, DateFromTime, monthStart, MonthFromTime, InLeapYear in *.
  destruct (isLeap (YearFromTime t));
    repeat match goal with
           | |- context [if ?a <? ?b then _ else _] =>
               destruct (Z.ltb_spec a b)
           end; cbn; lia.
Qed.

(** X11. For an argument that is not null and not the empty string but
    gives an invalid Date (a string that cannot be parsed, or a time
    value out of range), [formatDate] returns the string "NaN.NaN.NaN",
    not null. *)
Theorem formatDate_invalid_date (env : Env) (iso : dateArg) :
  iso <> DNull -> iso <> DString [] ->
  newDateOf env iso = None ->
  formatDate env iso = Some (lit "NaN.NaN.NaN"%string).
Proof.
  intros Hnull Hempty Hdate. unfold formatDate.
  assert (Hfalsy : match iso with
                   | DNull => true
                   | DString s => negb (truthy (VString s))
                   | DDate _ => false
                   end = false).
  { destruct iso as [|[|c r]|d]; try reflexivity; contradiction. }
  rewrite Hfalsy, Hdate. reflexivity.
Qed.

(** X12. For a valid Date, [formatDate] returns [DD.MM.] and the year,
    for the day [d] (two digits), the month [m] (two digits) and the year
    [y] (as many digits as it has) of the calendar day, in the local time
    zone, that contains the instant: [d] is a day of month [m] of [y], and
    the local time lies between the midnight that begins that day and the
    next one. *)
Theorem formatDate_local_calendar_day (env : Env) (iso : dateArg) (t : Z) :
  iso <> DNull -> iso <> DString [] ->
  newDateOf env iso = Some t ->
  exists y m d,
    formatDate env iso
    = Some (twoDigits d ++ lit "."%string ++ twoDigits m ++ lit "."%string
            ++ intToString y)
    /\ 1 <= m <= 12 /\ 1 <= d <= daysInMonth y m
    /\ MakeDate y m d <= LocalTime env t < MakeDate y m d + msPerDay.
Proof.
  intros Hnull Hempty Hdate.
  set (lt := LocalTime env t).
  pose proof (MonthFromTime_range lt) as Hm.
  pose proof (DateFromTime_range lt) as Hd.
  exists (YearFromTime lt), (MonthFromTime lt + 1), (DateFromTime lt).
  pose proof (date_in_month lt) as Hdm.
  split; [|split; [lia|split; [lia|]]].
  - rewrite (formatDate_valid env iso t Hnull Hempty Hdate). fold lt.
    rewrite !padStart_twoDigits by lia. reflexivity.
  - unfold MakeDate. rewrite Z.add_simpl_r, calendar_day.
    unfold Day, msPerDay. pose proof (Z.div_mod lt 86400000).
    pose proof (Z.mod_pos_bound lt 86400000). lia.
Qed.

End LocalDay.

Lemma formatDate_invalid_witness :
  TariffSheetSyncService.formatDate Example.env (DString (lit "soon"%string))
  = Some (lit "NaN.NaN.NaN"%string).
Proof.
  apply (formatDate_invalid_date Example.env (DString (lit "soon"%string)));
    [discriminate|discriminate|reflexivity].
Defined.

Lemma formatDate_local_witness :
  exists y m d,
    TariffSheetSyncService.formatDate Example.envWest
      (DString (lit "2024-03-05"%string))
    = Some (twoDigits d ++ lit "."%string ++ twoDigits m ++ lit "."%string
            ++ intToString y)
    /\ 1 <= m <= 12 /\ 1 <= d <= daysInMonth y m
    /\ MakeDate y m d
       <= TariffSheetSyncService.LocalTime Example.envWest (MakeDate 2024 3 5)
       < MakeDate y m d + msPerDay.
Proof.
  apply (formatDate_local_calendar_day Example.envWest
           (DString (lit "2024-03-05"%string)) (MakeDate 2024 3 5));
    [discriminate|discriminate|reflexivity].
Defined.

(** ** The cost of a run of the publisher *)

Section Counts.
Import TariffSheetSyncService.

Lemma selects_app (a b : list Event) :
  selects (a ++ b) = (selects a + selects b)%nat.
Proof. unfold selects. rewrite filter_app, length_app. reflexivity. Qed.

Lemma sheetRequests_app (a b : list Event) :
  sheetRequests (a ++ b) = (sheetRequests a + sheetRequests b)%nat.
Proof. unfold sheetRequests. rewrite filter_app, length_app. reflexivity. Qed.

Lemma sleeps_app (a b : list Event) : sleeps (a ++ b) = sleeps a ++ sleeps b.
Proof. apply flat_map_app. Qed.

Lemma totalSleep_app (a b : list Event) :
  totalSleep (a ++ b) = totalSleep a + totalSleep b.
Proof.
  unfold totalSleep. rewrite sleeps_app.
  induction (sleeps a) as [|x l IH]; cbn [app fold_right]; lia.
Qed.

Lemma attemptEvents_counts (this : t) (env : Env) (w : World) :
  selects (attemptEvents this env w) = 1%nat
  /\ S (sheetRequests (attemptEvents this env w)) = attemptTicks env w
  /\ (sheetRequests (attemptEvents this env w) <= 2)%nat.
Proof.
  unfold attemptEvents, attemptTicks.
  destruct (fault env (tick w)); [cbn; lia|].
  destruct (fault env (S (tick w))); [cbn; lia|].
  destruct (fault env (S (S (tick w)))); cbn; lia.
Qed.

(** The requests of the retry loop: every attempt reads the table once
    and then makes at most two requests to the spreadsheet API, and these
    are all the requests of the loop. *)
Lemma attempts_counts (this : t) (env : Env) (fuel : nat) :
  forall (a : Z) (w : World) (r : result unit) (w' : World),
    attempts fuel this a env w = (r, w') ->
    exists tr,
      trace w' = trace w ++ tr
      /\ (selects tr <= fuel)%nat
      /\ (sheetRequests tr <= 2 * selects tr)%nat
      /\ tick w' = (tick w + selects tr + sheetRequests tr)%nat.
Proof.
  induction fuel as [|f IH]; intros a w r w' H.
  { injection H as <- <-. exists []. cbn. rewrite app_nil_r. repeat split; lia. }
  cbn [attempts] in H.
  destruct (leNumber a (maxRetries this)).
  2:{ injection H as <- <-. exists []. cbn. rewrite app_nil_r.
      repeat split; lia. }
  unfold bind at 1, try_catch in H. unfold bind at 1 in H.
  rewrite attemptBody_run in H.
  destruct (attemptEvents_counts this env w) as (Hs & Hr & Hr2).
  destruct (attemptResult env w) as [[]|e].
  - injection H as <- <-. exists (attemptEvents this env w). cbn [trace tick].
    split; [reflexivity|]. repeat split; lia.
  - unfold attemptFailed in H.
    destruct (ltNumber a (maxRetries this));
      unfold bind, log, sleep, emit, ret in H; cbn [trace tick tariffs] in H;
      apply IH in H; destruct H as (tr & Ht & Hsel & Hsh & Htick);
      cbn [trace tick] in *;
      match type of Ht with
      | _ = ((((trace w ++ _) ++ ?f1) ++ ?f2) ++ ?f3) ++ _ =>
          exists (attemptEvents this env w ++ f1 ++ f2 ++ f3 ++ tr)
      | _ = (((trace w ++ _) ++ ?f1) ++ ?f2) ++ _ =>
          exists (attemptEvents this env w ++ f1 ++ f2 ++ tr)
      end;
      rewrite Ht, Htick, !selects_app, !sheetRequests_app, Hs;
      (split; [rewrite <- !app_assoc; reflexivity|]);
      cbn [selects sheetRequests filter length]; repeat split; lia.
Qed.

Lemma sum_delays (n a : nat) :
  fold_right Z.add 0 (List.map (fun i => 1000 * 2 ^ Z.of_nat i) (seq a n))
  = 1000 * (2 ^ Z.of_nat (a + n) - 2 ^ Z.of_nat a).
Proof.
  revert a; induction n as [|n IH]; intros a.
  - cbn [seq List.map fold_right]. rewrite Nat.add_0_r. lia.
  - cbn [seq List.map fold_right]. rewrite IH.
    replace (Z.of_nat (S a + n)) with (Z.of_nat (a + S n)) by lia.
    replace (Z.of_nat (S a)) with (Z.of_nat a + 1) by lia.
    rewrite Z.pow_add_r by lia. lia.
Qed.

Lemma selects_of_steps (tr : list Event) :
  selects tr
  = length (filter (fun s => match s with Attempt => true | _ => false end)
              (steps tr)).
Proof.
  induction tr as [|e tr IH]; [reflexivity|].
  unfold selects in *. destruct e; cbn; rewrite ?IH; reflexivity.
Qed.

Lemma schedule_attempts (k : nat) :
  forall a,
    length (filter (fun s => match s with Attempt => true | _ => false end)
              (scheduleFrom a k)) = k.
Proof.
  induction k as [|k IH]; intros a; [reflexivity|].
  destruct k as [|k]; [reflexivity|].
  rewrite scheduleFrom_next. cbn [filter length]. rewrite IH. reflexivity.
Qed.

(** The timers run between 1 ms and [TIMEOUT_MAX]. *)
Lemma timeoutOf_range (delay : number) :
  1 <= timeoutOf delay <= TIMEOUT_MAX.
Proof.
  assert (HT : 1 <= TIMEOUT_MAX) by (vm_compute; discriminate).
  unfold timeoutOf. destruct delay as [sg|sg| |[|] m e]; try lia.
  pose proof (fraction_pos m e) as [Hp Hq].
  destruct (fraction m e) as [p q]. cbn [fst snd] in Hp, Hq.
  destruct (Z.leb_spec q p); cbn [andb]; [|lia].
  destruct (Z.leb_spec p (TIMEOUT_MAX * q)); [|lia].
  split.
  - apply Z.div_le_lower_bound; lia.
  - apply Z.div_le_upper_bound; lia.
Qed.

Lemma schedule_timers (k : nat) :
  forall a,
    Forall (fun ms => 1 <= ms <= TIMEOUT_MAX)
      (flat_map (fun s => match s with Slept ms => [ms] | Attempt => [] end)
         (scheduleOf timer a k)).
Proof.
  induction k as [|k IH]; intros a; [constructor|].
  destruct k as [|k]; [constructor|].
  change (scheduleOf timer a (S (S k)))
    with (Attempt :: Slept (timer a) :: scheduleOf timer (a + 1) (S k)).
  cbn [flat_map app]. constructor; [apply timeoutOf_range|apply IH].
Qed.

Lemma timers_attempts (k : nat) :
  forall a,
    length (filter (fun s => match s with Attempt => true | _ => false end)
              (scheduleOf timer a k)) = k.
Proof.
  induction k as [|k IH]; intros a; [reflexivity|].
  destruct k as [|k]; [reflexivity|].
  change (scheduleOf timer a (S (S k)))
    with (Attempt :: Slept (timer a) :: scheduleOf timer (a + 1) (S k)).
  cbn [filter length]. rewrite IH. reflexivity.
Qed.

(** The attempts and the timers of a run of the publisher that may make
    an attempt, and the time it sleeps while the delays are times Node's
    timers take as they are. *)
Lemma publisher_schedule (this : t) (env : Env) (w : World) (n : Z) :
  integerOf (maxRetries this) = Some n ->
  1 <= n < 2 ^ 53 ->
  let tr := since w (after (sync this) env w) in
  (1 <= selects tr)%nat /\ Z.of_nat (selects tr) <= n
  /\ Forall (fun ms => 1 <= ms <= TIMEOUT_MAX) (sleeps tr)
  /\ (n <= 22 -> totalSleep tr = 1000 * (2 ^ Z.of_nat (selects tr) - 2)).
Proof.
  intros Hn Hmax. cbn zeta. unfold after.
  destruct (sync_run this env n w Hn Hmax)
    as (k & tr & w' & Hrun & Htr & _ & (Hk & Hsteps & _)).
  rewrite Hrun. cbn [snd]. rewrite (since_app _ _ _ Htr).
  assert (Hsel : selects tr = k).
  { rewrite selects_of_steps, Hsteps. apply timers_attempts. }
  rewrite Hsel. split; [lia|]. split; [lia|]. split.
  { rewrite sleeps_of_steps, Hsteps. apply schedule_timers. }
  intros Hsmall.
  rewrite schedule_nominal in Hsteps by lia.
  unfold totalSleep. rewrite sleeps_of_steps, Hsteps.
  change (scheduleFrom 1 k) with (scheduleFrom (Z.of_nat 1) k).
  rewrite (schedule_delays k 1), sum_delays.
  replace (1 + (k - 1))%nat with k by lia. reflexivity.
Qed.

(** X13. The publisher only reads the table: a run of
    [TariffSheetSyncService.sync] leaves the table as it was, and its
    events are log lines, reads of the table, requests to the spreadsheet
    API and sleeps; it never inserts and never calls the upstream API. *)
Theorem publisher_is_read_only (this : t) (env : Env) (w : World) :
  let w' := after (sync this) env w in
  tariffs w' = tariffs w
  /\ forallb isPublisherEvent (since w w') = true.
Proof.
  cbn zeta. destruct (publisher_keeps this env w) as [Ht [tr [Htr Hp]]].
  split; [exact Ht|]. unfold after. rewrite (since_app _ _ _ Htr). exact Hp.
Qed.

(** X14. The cost of a run of the publisher with an integral
    [maxRetries >= 1] (below [2^53]): it makes between 1 and [maxRetries]
    attempts, each with one read of the table and at most two requests to
    the spreadsheet API, and these are all its requests; every sleep lasts
    from 1 ms to Node's [TIMEOUT_MAX]; and with [maxRetries <= 22], where
    every delay is a time the timers take as it is, after [k] attempts it
    has slept [1000 * (2^k - 2)] ms in all, which is at most
    [1000 * (2^maxRetries - 2)] ms (6 seconds for the default of 3). *)
Theorem publisher_is_bounded (this : t) (env : Env) (w : World) (n : Z) :
  integerOf (maxRetries this) = Some n ->
  1 <= n < 2 ^ 53 ->
  let w' := after (sync this) env w in
  let tr := since w w' in
  (1 <= selects tr)%nat /\ Z.of_nat (selects tr) <= n
  /\ (sheetRequests tr <= 2 * selects tr)%nat
  /\ tick w' = (tick w + selects tr + sheetRequests tr)%nat
  /\ Forall (fun ms => 1 <= ms <= TIMEOUT_MAX) (sleeps tr)
  /\ (n <= 22 ->
      totalSleep tr = 1000 * (2 ^ Z.of_nat (selects tr) - 2)
      /\ totalSleep tr <= 1000 * (2 ^ n - 2)).
Proof.
  intros Hn Hmax w' tr.
  destruct (publisher_schedule this env w n Hn Hmax) as (H1 & H2 & H3 & H4).
  fold w' in H1, H2, H3, H4. fold tr in H1, H2, H3, H4.
  destruct (attempts_counts this env (attemptsLimit (maxRetries this)) 1 w
              (fst (sync this env w)) w')
    as (tr' & Ht & _ & Hsh & Htick); [apply surjective_pairing|].
  assert (E : tr = tr') by (apply since_app, Ht). subst tr'.
  split; [exact H1|]. split; [exact H2|]. split; [exact Hsh|].
  split; [exact Htick|]. split; [exact H3|].
  intros Hsmall. specialize (H4 Hsmall). split; [exact H4|].
  rewrite H4.
  assert (2 ^ Z.of_nat (selects tr) <= 2 ^ n)
    by (apply Z.pow_le_mono_r; lia).
  lia.
Qed.

End Counts.

Lemma publisher_is_bounded_witness :
  (1 <= selects (since Example.world Example.published))%nat
  /\ Z.of_nat (selects (since Example.world Example.published)) <= 3
  /\ (sheetRequests (since Example.world Example.published)
      <= 2 * selects (since Example.world Example.published))%nat
  /\ tick Example.published
     = (tick Example.world + selects (since Example.world Example.published)
        + sheetRequests (since Example.world Example.published))%nat
  /\ Forall (fun ms => 1 <= ms <= TIMEOUT_MAX)
       (sleeps (since Example.world Example.published))
  /\ totalSleep (since Example.world Example.published)
     = 1000 * (2 ^ Z.of_nat (selects (since Example.world Example.published))
               - 2)
  /\ totalSleep (since Example.world Example.published) <= 1000 * (2 ^ 3 - 2).
Proof.
  destruct (publisher_is_bounded Example.publisher Example.env Example.world 3)
    as (H1 & H2 & H3 & H4 & H5 & H6).
  - vm_compute. reflexivity.
  - lia.
  - repeat (split; [assumption|]). apply H6. lia.
Defined.

(** ** A firing of the job *)

Section Firing.

Let publish (env : Env) (w : World) (id : jsstring) : World :=
  after (TariffSheetSyncService.sync (TariffSheetSyncService.new id None None))
        env w.

Lemma publishers_keep_table (env : Env) (ids : list jsstring) :
  forall w, tariffs (fold_left (publish env) ids w) = tariffs w.
Proof.
  induction ids as [|id ids IH]; intros w; cbn [fold_left]; [reflexivity|].
  rewrite IH. apply (publisher_keeps _ env w).
Qed.

Lemma sleeps_none (P : Event -> bool) (tr : list Event) :
  (forall ms, P (Sleep ms) = false) -> forallb P tr = true -> sleeps tr = [].
Proof.
  intros HP. induction tr as [|e tr IH]; cbn; [reflexivity|].
  intros H. apply andb_prop in H. destruct H as [He Ht].
  destruct e; try (apply IH, Ht). rewrite HP in He. discriminate.
Qed.

Lemma fetcher_counts (env : Env) (w : World) :
  exists tr,
    trace (after WBTariffsSync.sync env w) = trace w ++ tr
    /\ httpGets tr = 1%nat /\ selects tr = 0%nat
    /\ sheetRequests tr = 0%nat /\ totalSleep tr = 0.
Proof.
  destruct (fetcher_grows env w) as [tr [Ht Hf]]. exists tr.
  split; [exact Ht|]. split.
  { rewrite <- (since_app _ _ _ Ht). apply fetcher_one_get. }
  unfold selects, sheetRequests, totalSleep.
  rewrite (sleeps_none isFetcherEvent tr (fun _ => eq_refl) Hf).
  repeat split;
    (rewrite (filter_none isFetcherEvent _ tr); [reflexivity| |exact Hf]);
    intros [] Hx; try discriminate Hx; reflexivity.
Qed.

Lemma publisher_counts (env : Env) (w : World) (id : jsstring) :
  exists tr,
    trace (publish env w id) = trace w ++ tr
    /\ httpGets tr = 0%nat /\ (selects tr <= 3)%nat
    /\ (sheetRequests tr <= 6)%nat /\ totalSleep tr <= 6000.
Proof.
  set (this := TariffSheetSyncService.new id None None).
  destruct (publisher_keeps this env w) as [_ [tr [Ht Hp]]]. exists tr.
  split; [exact Ht|]. split.
  { apply (httpGets_none isPublisherEvent); [reflexivity|exact Hp]. }
  assert (Hn : integerOf (TariffSheetSyncService.maxRetries this) = Some 3)
    by (vm_compute; reflexivity).
  destruct (publisher_schedule this env w 3 Hn) as (H1 & H2 & _ & H3); [lia|].
  specialize (H3 ltac:(lia)).
  destruct (attempts_counts this env
              (TariffSheetSyncService.attemptsLimit
                 (TariffSheetSyncService.maxRetries this)) 1 w
              (fst (TariffSheetSyncService.sync this env w))
              (snd (TariffSheetSyncService.sync this env w)))
    as (tr' & Ht' & _ & Hsh & _); [apply surjective_pairing|].
  unfold after in H1, H2, H3.
  rewrite (since_app _ _ _ Ht) in H1, H2, H3.
  assert (E : tr' = tr).
  { rewrite <- (since_app _ _ _ Ht'). apply since_app, Ht. }
  subst tr'.
  split; [lia|]. split; [lia|]. rewrite H3.
  assert (Hk : selects tr = 1%nat \/ selects tr = 2%nat \/ selects tr = 3%nat)
    by lia.
  destruct Hk as [ -> | [ -> | -> ]]; cbn; lia.
Qed.

Lemma publishers_counts (env : Env) (ids : list jsstring) :
  forall w,
    exists tr,
      trace (fold_left (publish env) ids w) = trace w ++ tr
      /\ httpGets tr = 0%nat
      /\ (selects tr <= 3 * length ids)%nat
      /\ (sheetRequests tr <= 6 * length ids)%nat
      /\ totalSleep tr <= 6000 * Z.of_nat (length ids).
Proof.
  induction ids as [|id ids IH]; intros w; cbn [fold_left].
  - exists []. rewrite app_nil_r. cbn. repeat split; lia.
  - destruct (publisher_counts env w id) as (t1 & Ht1 & Hg1 & Hs1 & Hr1 & Hz1).
    destruct (IH (publish env w id)) as (t2 & Ht2 & Hg2 & Hs2 & Hr2 & Hz2).
    exists (t1 ++ t2).
    rewrite Ht2, Ht1, httpGets_app, selects_app, sheetRequests_app,
      totalSleep_app, <- app_assoc.
    cbn [length]. repeat split; lia.
Qed.

(** X15. A failed fetch does not stop the job: when the HTTP request of
    the fetcher fails, the job logs the error, then logs that the tariffs
    were fetched and saved all the same, and runs the publisher of every
    spreadsheet on the table as it was before the firing. *)
Theorem job_publishes_after_failed_fetch (ids : list jsstring) (env : Env)
    (w : World) (e : Error) :
  let today := WBTariffsSync.isoDate (now env (tick w)) in
  let w2 :=
    mkWorld (tariffs w)
      (trace w ++ [Log Logger.info Logger.RunningHourlyJob;
                   Log Logger.info (Logger.StartingSync today);
                   HttpGet (WBTariffsSync.url today);
                   Log Logger.error (Logger.SyncError e);
                   Log Logger.info Logger.TariffsFetched])
      (S (S (tick w))) in
  http_get env (S (tick w)) (WBTariffsSync.url today) = Throw e ->
  Cron.job ids env w
  = (Ok tt,
     fold_left
       (fun w id =>
          after (TariffSheetSyncService.sync
                   (TariffSheetSyncService.new id None None)) env w)
       ids w2)
  /\ tariffs (after (Cron.job ids) env w) = tariffs w.
Proof.
  intros today w2 H.
  assert (E : Cron.job ids env w = (Ok tt, fold_left (publish env) ids w2)).
  { rewrite job_run. f_equal. fold (publish env). f_equal.
    unfold after. rewrite fetcher_run. cbn [afterLog tick trace tariffs].
    fold today. rewrite H. unfold afterLog. cbn [snd tariffs trace tick].
    rewrite <- !app_assoc. reflexivity. }
  split; [exact E|].
  unfold after. rewrite E. cbn [snd]. rewrite publishers_keep_table.
  reflexivity.
Qed.

(** X16. The cost of a firing of the hourly job for [n] spreadsheets: one
    request through the HTTP client, at most [3 * n] reads of the table,
    at most [6 * n] requests to the spreadsheet API and at most
    [6 * n] seconds of sleep. *)
Theorem job_is_bounded (ids : list jsstring) (env : Env) (w : World) :
  let tr := since w (after (Cron.job ids) env w) in
  httpGets tr = 1%nat
  /\ (selects tr <= 3 * length ids)%nat
  /\ (sheetRequests tr <= 6 * length ids)%nat
  /\ totalSleep tr <= 6000 * Z.of_nat (length ids).
Proof.
  intros tr.
  set (w1 := afterLog Logger.info Logger.RunningHourlyJob w).
  destruct (fetcher_counts env w1) as (t1 & Ht1 & Hg1 & Hs1 & Hr1 & Hz1).
  destruct (publishers_counts env ids
              (afterLog Logger.info Logger.TariffsFetched
                 (after WBTariffsSync.sync env w1)))
    as (t2 & Ht2 & Hg2 & Hs2 & Hr2 & Hz2).
  assert (E : tr = [Log Logger.info Logger.RunningHourlyJob] ++ t1
                   ++ [Log Logger.info Logger.TariffsFetched] ++ t2).
  { subst tr. apply since_app. unfold after at 1. rewrite job_run. cbn [snd].
    fold (publish env). fold w1. rewrite Ht2. unfold afterLog at 1.
    cbn [trace]. rewrite Ht1. unfold w1, afterLog. cbn [trace].
    rewrite <- !app_assoc. reflexivity. }
  rewrite E.
  rewrite !httpGets_app, !selects_app, !sheetRequests_app, !totalSleep_app,
    Hg1, Hg2, Hs1, Hr1, Hz1.
  cbn [httpGets selects sheetRequests totalSleep sleeps flat_map filter length
       fold_right app].
  repeat split; lia.
Qed.

End Firing.

Lemma job_failed_fetch_witness :
  Cron.job [Example.sheet] Example.envDown Example.world
  = (Ok tt,
     fold_left
       (fun w id =>
          after (TariffSheetSyncService.sync
                   (TariffSheetSyncService.new id None None)) Example.envDown w)
       [Example.sheet]
       (mkWorld Db.up
          [Log Logger.info Logger.RunningHourlyJob;
           Log Logger.info (Logger.StartingSync (lit "2024-03-05"%string));
           HttpGet (lit "/tariffs/box?date=2024-03-05"%string);
           Log Logger.error (Logger.SyncError Example.timedOut);
           Log Logger.info Logger.TariffsFetched]
          2))
  /\ tariffs (after (Cron.job [Example.sheet]) Example.envDown Example.world)
     = Db.up.
Proof.
  apply (job_publishes_after_failed_fetch [Example.sheet] Example.envDown
           Example.world Example.timedOut).
  reflexivity.
Defined.

(** ** The configuration *)

Section Configuration.
Import Config.

Lemma split_nonempty (sep : code_unit) (s : jsstring) : split sep s <> [].
Proof.
  induction s as [|c r IH]; cbn [split]; [discriminate|].
  destruct (cu_eqb c sep); [discriminate|].
  destruct (split sep r); discriminate.
Qed.

Lemma split_length (sep : code_unit) (s : jsstring) :
  length (split sep s) = S (occurrences sep s).
Proof.
  unfold occurrences. induction s as [|c r IH]; [reflexivity|].
  cbn [split filter].
  replace (cu_eqb sep c) with (cu_eqb c sep)
    by (unfold cu_eqb; apply N.eqb_sym).
  destruct (cu_eqb c sep); cbn [length]; [rewrite IH; reflexivity|].
  pose proof (split_nonempty sep r) as Hne.
  destruct (split sep r); [contradiction|exact IH].
Qed.

Lemma split_plain (sep : code_unit) (a : jsstring) :
  Forall (fun c => cu_eqb c sep = false) a -> split sep a = [a].
Proof.
  intros H. induction H as [|c a Hc _ IH]; [reflexivity|].
  cbn [split]. rewrite Hc, IH. reflexivity.
Qed.

Lemma split_app (sep : code_unit) (a r : jsstring) :
  Forall (fun c => cu_eqb c sep = false) a ->
  split sep (a ++ sep :: r) = a :: split sep r.
Proof.
  intros H. induction H as [|c a Hc _ IH].
  - cbn [app split]. rewrite cu_eqb_refl. reflexivity.
  - cbn [app split]. rewrite Hc, IH. reflexivity.
Qed.

Lemma split_join (sep : code_unit) (pieces : list jsstring) :
  pieces <> [] ->
  Forall (Forall (fun c => cu_eqb c sep = false)) pieces ->
  split sep (joinWith sep pieces) = pieces.
Proof.
  intros Hne H. induction H as [|a l Ha Hl IH]; [contradiction|].
  destruct l as [|b l].
  - cbn [joinWith]. apply split_plain, Ha.
  - change (joinWith sep (a :: b :: l)) with (a ++ sep :: joinWith sep (b :: l)).
    rewrite (split_app sep a _ Ha), IH; [reflexivity|discriminate].
Qed.

Lemma small_code_units (P : code_unit -> bool) (k : nat) :
  forallb P (List.map N.of_nat (seq 0 k)) = true ->
  forall c, (c < N.of_nat k)%N -> P c = true.
Proof.
  intros H c Hc. rewrite forallb_forall in H. apply H.
  apply in_map_iff. exists (N.to_nat c). split; [lia|].
  apply in_seq. lia.
Qed.

Lemma isIdChar_plain (c : code_unit) :
  isIdChar c = true ->
  isStrWhiteSpaceChar c = false /\ cu_eqb c (cu ",") = false.
Proof.
  intros H.
  assert (Hc : (c < N.of_nat 123)%N).
  { unfold isIdChar, cu_eqb in H.
    repeat match type of H with
           | context [(?a <=? ?b)%N] => destruct (N.leb_spec a b)
           | context [(?a =? ?b)%N] => destruct (N.eqb_spec a b)
           end; cbn in *; try discriminate H; lia. }
  pose proof (small_code_units
                (fun c => implb (isIdChar c)
                            (negb (isStrWhiteSpaceChar c)
                             && negb (cu_eqb c (cu ","))))
                123 eq_refl c Hc) as Hp.
  cbn beta in Hp. rewrite H in Hp. cbn [implb] in Hp.
  apply andb_prop in Hp. destruct Hp as [H1 H2].
  apply negb_true_iff in H1, H2. split; assumption.
Qed.

Lemma whitespace_not_comma (c : code_unit) :
  isStrWhiteSpaceChar c = true -> cu_eqb c (cu ",") = false.
Proof.
  intros H. destruct (cu_eqb c (cu ",")) eqn:E; [|reflexivity].
  apply cu_eqb_eq in E. subst c. discriminate H.
Qed.

(** An id between white space is what [trim] leaves. *)
Lemma trim_padded (lead id trail : jsstring) :
  forallb isStrWhiteSpaceChar lead = true ->
  isId id = true ->
  forallb isStrWhiteSpaceChar trail = true ->
  trim (lead ++ id ++ trail) = id.
Proof.
  intros Hl Hid Ht. unfold trim. rewrite (trimStart_lead lead _ Hl).
  unfold isId in Hid. destruct id as [|c id]; [discriminate|].
  assert (Hall : forall x, In x (c :: id) -> isStrWhiteSpaceChar x = false).
  { intros x Hx. rewrite forallb_forall in Hid.
    apply isIdChar_plain, Hid, Hx. }
  cbn [app]. rewrite trimStart_plain by (apply Hall; left; reflexivity).
  unfold trimEnd.
  change (c :: id ++ trail) with ((c :: id) ++ trail).
  rewrite rev_app_distr, trimStart_lead.
  2:{ rewrite forallb_forall in *. intros x Hx. apply Ht, in_rev, Hx. }
  destruct (exists_last (l := c :: id)) as (l' & z & E); [discriminate|].
  rewrite E, rev_app_distr. cbn [rev app].
  rewrite trimStart_plain.
  - cbn [rev]. rewrite rev_involutive. reflexivity.
  - apply Hall. rewrite E. apply in_or_app. right. left. reflexivity.
Qed.

Lemma padded_no_comma (lead id trail : jsstring) :
  forallb isStrWhiteSpaceChar lead = true ->
  isId id = true ->
  forallb isStrWhiteSpaceChar trail = true ->
  Forall (fun c => cu_eqb c (cu ",") = false) (lead ++ id ++ trail).
Proof.
  intros Hl Hid Ht. rewrite forallb_forall in Hl, Ht.
  assert (Hi : forall x, In x id -> isIdChar x = true).
  { unfold isId in Hid. destruct id; [discriminate|].
    rewrite forallb_forall in Hid. exact Hid. }
  apply Forall_forall. intros x Hx.
  apply in_app_or in Hx. destruct Hx as [Hx|Hx];
    [apply whitespace_not_comma, Hl, Hx|].
  apply in_app_or in Hx. destruct Hx as [Hx|Hx];
    [apply isIdChar_plain, Hi, Hx|apply whitespace_not_comma, Ht, Hx].
Qed.

End Configuration.

Section ConfigurationParsed.
Import Config.

Lemma isId_chars (id : jsstring) :
  isId id = true -> id <> [] /\ Forall (fun c => isIdChar c = true) id.
Proof.
  unfold isId. destruct id as [|c id]; [discriminate|].
  intros H. split; [discriminate|]. apply Forall_forall.
  rewrite forallb_forall in H. exact H.
Qed.

(** X17. What a configuration that was accepted holds in
    [GOOGLE_SHEETS_IDS]: the pieces of the variable between its commas,
    trimmed, so one id more than there are commas; none of them is empty,
    and each one consists of letters, digits, hyphens and underscores
    only, so that it contains no white space and no comma. *)
Theorem parse_gives_sheet_ids (e : ProcessEnv.t) (cfg : Config.t) :
  parse e = inr cfg ->
  exists str,
    ProcessEnv.GOOGLE_SHEETS_IDS e = Some str
    /\ GOOGLE_SHEETS_IDS cfg = List.map trim (split (cu ",") str)
    /\ length (GOOGLE_SHEETS_IDS cfg) = S (occurrences (cu ",") str)
    /\ Forall (fun id => id <> []
                         /\ Forall (fun c => isIdChar c = true) id
                         /\ Forall (fun c => isStrWhiteSpaceChar c = false
                                             /\ cu_eqb c (cu ",") = false) id)
         (GOOGLE_SHEETS_IDS cfg).
Proof.
  intros H. unfold parse in H. cbv zeta in H.
  destruct (sheetIds (ProcessEnv.GOOGLE_SHEETS_IDS e)) as [ids|] eqn:Eids.
  2:{ repeat match type of H with
             | context [match ?x with _ => _ end] => destruct x
             end; discriminate H. }
  assert (Hcfg : GOOGLE_SHEETS_IDS cfg = ids).
  { repeat match type of H with
           | context [match ?x with _ => _ end] => destruct x
           end; try discriminate H.
    injection H as <-. reflexivity. }
  clear H. rewrite Hcfg. unfold sheetIds in Eids.
  destruct (ProcessEnv.GOOGLE_SHEETS_IDS e) as [str|]; [|discriminate].
  destruct (1 <=? length str)%nat; [|discriminate].
  destruct (forallb isId (List.map trim (split (cu ",") str))) eqn:Hall;
    [|discriminate].
  injection Eids as <-. exists str. split; [reflexivity|].
  split; [reflexivity|]. split; [rewrite length_map; apply split_length|].
  apply Forall_forall. intros id Hid.
  rewrite forallb_forall in Hall. specialize (Hall id Hid).
  destruct (isId_chars id Hall) as [Hne Hch].
  split; [exact Hne|]. split; [exact Hch|].
  eapply Forall_impl; [|exact Hch]. intros c. apply isIdChar_plain.
Qed.

(** X18. Ids written as a comma-separated list, each one with white
    space before and after it or without, are read back as they were:
    the schema of [GOOGLE_SHEETS_IDS] accepts the list and returns the
    ids, in order. *)
Theorem sheet_ids_round_trip (entries : list (jsstring * jsstring * jsstring)) :
  entries <> [] ->
  forallb isPadded entries = true ->
  sheetIds (Some (joinWith (cu ",") (List.map padId entries)))
  = Some (List.map idOf entries).
Proof.
  intros Hne Hall. unfold sheetIds.
  assert (Hparts : forall p, In p entries ->
            trim (padId p) = idOf p
            /\ Forall (fun c => cu_eqb c (cu ",") = false) (padId p)
            /\ isId (idOf p) = true).
  { intros [[lead id] trail] Hp. rewrite forallb_forall in Hall.
    specialize (Hall _ Hp). cbn [isPadded] in Hall.
    apply andb_prop in Hall. destruct Hall as [Hall Ht].
    apply andb_prop in Hall. destruct Hall as [Hl Hid].
    cbn [padId idOf]. split; [apply trim_padded; assumption|].
    split; [apply padded_no_comma; assumption|exact Hid]. }
  rewrite split_join.
  2:{ destruct entries; [contradiction|discriminate]. }
  2:{ apply Forall_forall. intros s Hs. apply in_map_iff in Hs.
      destruct Hs as [p [<- Hp]]. apply Hparts, Hp. }
  assert (Hlen : (1 <=? length (joinWith (cu ",") (List.map padId entries)))%nat
                 = true).
  { apply Nat.leb_le. destruct entries as [|p rest]; [contradiction|].
    destruct (Hparts p (or_introl eq_refl)) as (_ & _ & Hid).
    destruct p as [[lead id] trail]. cbn [idOf] in Hid.
    destruct id as [|c id]; [discriminate Hid|].
    cbn [List.map padId joinWith].
    destruct (List.map padId rest); rewrite !length_app; cbn [length]; lia. }
  rewrite Hlen, map_map.
  assert (Hmap : List.map (fun p => trim (padId p)) entries = List.map idOf entries).
  { apply map_ext_in. intros p Hp. apply Hparts, Hp. }
  rewrite Hmap.
  assert (Hids : forallb isId (List.map idOf entries) = true).
  { apply forallb_forall. intros s Hs. apply in_map_iff in Hs.
    destruct Hs as [p [<- Hp]]. apply Hparts, Hp. }
  rewrite Hids. reflexivity.
Qed.

Lemma radix10_digits (s : jsstring) :
  forallb isDecimalDigit s = true ->
  takeRadixDigits 10 s
  = List.map (fun c => Z.of_N c - Z.of_N (cu "0")) s.
Proof.
  induction s as [|c s IH]; [reflexivity|].
  cbn [forallb takeRadixDigits List.map]. intros H.
  apply andb_prop in H. destruct H as [Hc Hs].
  unfold radixDigitValue. unfold isDecimalDigit in Hc. rewrite Hc.
  apply andb_prop in Hc. destruct Hc as [H0 H9].
  apply N.leb_le in H0, H9. change (cu "0") with 48%N in *.
  change (cu "9") with 57%N in *.
  replace (Z.of_N (c - 48) <? 10) with true by (symmetry; apply Z.ltb_lt; lia).
  rewrite (IH Hs). f_equal. lia.
Qed.

Lemma fold_radix10 (s : jsstring) :
  forall a,
    fold_left (fun a d => 10 * a + d)
      (List.map (fun c => Z.of_N c - Z.of_N (cu "0")) s) a
    = fold_left (fun a c => 10 * a + (Z.of_N c - Z.of_N (cu "0"))) s a.
Proof. induction s as [|c s IH]; intros a; [reflexivity|apply IH]. Qed.

Lemma fold_digits_nonneg (s : jsstring) :
  forall a, 0 <= a -> forallb isDecimalDigit s = true ->
    0 <= fold_left (fun a c => 10 * a + (Z.of_N c - Z.of_N (cu "0"))) s a.
Proof.
  induction s as [|c s IH]; intros a Ha H; cbn [fold_left forallb] in *;
    [exact Ha|].
  apply andb_prop in H. destruct H as [Hc Hs]. apply IH; [|exact Hs].
  unfold isDecimalDigit in Hc. apply andb_prop in Hc. destruct Hc as [H0 _].
  apply N.leb_le in H0. change (cu "0") with 48%N in *. lia.
Qed.

Lemma digit_plain (c : code_unit) :
  isDecimalDigit c = true ->
  isStrWhiteSpaceChar c = false
  /\ cu_eqb c (cu "-") = false /\ cu_eqb c (cu "+") = false
  /\ cu_eqb c (cu "x") = false /\ cu_eqb c (cu "X") = false.
Proof.
  intros H.
  assert (Hc : (c < N.of_nat 58)%N).
  { unfold isDecimalDigit in H. apply andb_prop in H. destruct H as [_ H9].
    apply N.leb_le in H9. change (cu "9") with 57%N in H9. lia. }
  pose proof (small_code_units
                (fun c => implb (isDecimalDigit c)
                            (negb (isStrWhiteSpaceChar c)
                             && negb (cu_eqb c (cu "-"))
                             && negb (cu_eqb c (cu "+"))
                             && negb (cu_eqb c (cu "x"))
                             && negb (cu_eqb c (cu "X"))))
                58 eq_refl c Hc) as Hp.
  cbn beta in Hp. rewrite H in Hp. cbn [implb] in Hp.
  repeat (apply andb_prop in Hp; destruct Hp as [Hp ?]).
  repeat match goal with
         | H : negb _ = true |- _ => apply negb_true_iff in H
         end.
  repeat split; assumption.
Qed.

(** [parseInt] on a string of decimal digits. *)
Lemma parseInt_digits (s : jsstring) :
  allDigits s = true ->
  parseInt s = if valueOf s =? 0 then S754_zero false else ofZ (valueOf s).
Proof.
  unfold allDigits. destruct s as [|c r]; [discriminate|]. intros H.
  pose proof (radix10_digits (c :: r) H) as Hds.
  cbn [forallb] in H. apply andb_prop in H. destruct H as [Hc Hr].
  destruct (digit_plain c Hc) as (Hws & Hminus & Hplus & _).
  assert (Hval : fold_left (fun a d => 10 * a + d)
                   (List.map (fun c0 => Z.of_N c0 - Z.of_N (cu "0")) (c :: r)) 0
                 = valueOf (c :: r)) by apply fold_radix10.
  unfold parseInt. rewrite (trimStart_plain c r Hws), Hminus, Hplus.
  cbv beta iota zeta.
  destruct r as [|x r'].
  - rewrite Hds, <- Hval. reflexivity.
  - cbn [forallb] in Hr. apply andb_prop in Hr. destruct Hr as [Hx _].
    destruct (digit_plain x Hx) as (_ & _ & _ & -> & ->).
    rewrite andb_false_r. cbv beta iota. rewrite Hds, <- Hval. reflexivity.
Qed.

Lemma iter_xO_value (p k : positive) :
  Zpos (Pos.iter xO p k) = Zpos p * 2 ^ Zpos k.
Proof.
  induction k as [|k IH] using Pos.peano_ind.
  - cbn [Pos.iter]. lia.
  - rewrite Pos.iter_succ, Pos2Z.inj_xO, IH, Pos2Z.inj_succ, Z.pow_succ_r by lia.
    lia.
Qed.

Lemma iter_xO_digits (p k : positive) :
  digits2_pos (Pos.iter xO p k) = (digits2_pos p + k)%positive.
Proof.
  induction k as [|k IH] using Pos.peano_ind.
  - cbn [Pos.iter digits2_pos]. lia.
  - rewrite Pos.iter_succ. cbn [digits2_pos]. rewrite IH. lia.
Qed.

Lemma digits2_lower (p : positive) :
  2 ^ (Zpos (digits2_pos p) - 1) <= Zpos p.
Proof.
  induction p as [p IH|p IH|]; cbn [digits2_pos]; [| |cbn; lia];
    rewrite Pos2Z.inj_succ;
    replace (Z.succ (Zpos (digits2_pos p)) - 1)
      with (Z.succ (Zpos (digits2_pos p) - 1)) by lia;
    rewrite Z.pow_succ_r by lia; lia.
Qed.

Lemma round_aux_canonical (m : positive) (e : Z) :
  Zpos (digits2_pos m) = 53 -> -1074 <= e <= 971 ->
  binary_round_aux prec emax false (Zpos m) e loc_Exact = S754_finite false m e.
Proof.
  intros Hm He.
  unfold binary_round_aux, shr_fexp, fexp, emin, Zdigits2, prec, emax.
  rewrite Hm.
  match goal with
  | |- context [shr ?r e ?n] => replace n with 0 by lia
  end.
  cbn [shr shr_record_of_loc shr_m loc_of_shr_record round_nearest_even].
  rewrite Hm.
  match goal with
  | |- context [shr ?r e ?n] => replace n with 0 by lia
  end.
  cbn [shr shr_m].
  replace (e <=? 1024 - 53) with true by (symmetry; apply Z.leb_le; lia).
  reflexivity.
Qed.

(** The Number of a positive integer below [2^53]: its mantissa is the
    integer shifted to 53 bits. *)
Lemma ofZ_small (p : positive) :
  Zpos p < 2 ^ 53 ->
  ofZ (Zpos p)
  = match 53 - Zpos (digits2_pos p) with
    | Zpos d => S754_finite false (Pos.iter xO p d) (Zneg d)
    | _ => S754_finite false p 0
    end.
Proof.
  intros Hp.
  assert (Hd : Zpos (digits2_pos p) <= 53).
  { pose proof (digits2_lower p) as Hl.
    destruct (Z.le_gt_cases (Zpos (digits2_pos p)) 53) as [H|H]; [exact H|].
    assert (2 ^ 53 <= 2 ^ (Zpos (digits2_pos p) - 1))
      by (apply Z.pow_le_mono_r; lia).
    lia. }
  unfold ofZ, binary_normalize, binary_round, shl_align.
  assert (Hf : fexp prec emax (Zpos (digits2_pos p) + 0)
               = Zpos (digits2_pos p) - 53)
    by (unfold fexp, emin, prec, emax; lia).
  rewrite Hf.
  replace (Zpos (digits2_pos p) - 53 - 0) with (- (53 - Zpos (digits2_pos p)))
    by lia.
  destruct (53 - Zpos (digits2_pos p)) as [|d|d] eqn:Ek; try lia.
  - cbn [Z.opp]. apply round_aux_canonical; lia.
  - cbn [Z.opp]. replace (Zpos (digits2_pos p) - 53) with (Zneg d) by lia.
    apply round_aux_canonical; [|lia].
    rewrite iter_xO_digits, Pos2Z.inj_add. lia.
Qed.

Lemma integers_exact (n : Z) :
  0 <= n < 2 ^ 53 -> integerOf (ofZ n) = Some n.
Proof.
  intros Hn. destruct n as [|p|p]; [reflexivity| |lia].
  rewrite (ofZ_small p) by lia.
  destruct (53 - Zpos (digits2_pos p)) as [|d|d] eqn:Ek.
  - unfold integerOf. cbn [Z.leb Z.compare]. f_equal. lia.
  - unfold integerOf.
    replace (0 <=? Zneg d) with false by (symmetry; apply Z.leb_gt; lia).
    cbn [Z.opp]. rewrite iter_xO_value.
    rewrite Z.mod_mul by (apply Z.pow_nonzero; lia). cbn [Z.eqb].
    rewrite Z.div_mul by (apply Z.pow_nonzero; lia). reflexivity.
  - unfold integerOf. cbn [Z.leb Z.compare]. f_equal. lia.
Qed.

(** X19. A port written in decimal digits is read as the integer that
    the digits denote, leading zeros included, exactly, for every value
    below [2^53]. *)
Theorem port_reads_digits (s : jsstring) :
  allDigits s = true -> valueOf s < 2 ^ 53 ->
  exists x, port (Some s) = Some x /\ integerOf x = Some (valueOf s).
Proof.
  intros Hs Hv. unfold port. rewrite Hs, (parseInt_digits s Hs).
  assert (H0 : 0 <= valueOf s).
  { unfold allDigits in Hs. destruct s; [discriminate|].
    apply (fold_digits_nonneg _ 0); [lia|exact Hs]. }
  destruct (Z.eqb_spec (valueOf s) 0) as [E|E].
  - eexists. split; [reflexivity|]. rewrite E. reflexivity.
  - eexists. split; [reflexivity|]. apply integers_exact. lia.
Qed.

End ConfigurationParsed.

Lemma parse_sheet_ids_witness :
  exists str,
    ProcessEnv.GOOGLE_SHEETS_IDS Example.processEnv = Some str
    /\ [lit "sheet-1"%string; lit "sheet_2"%string]
       = List.map trim (Config.split (cu ",") str)
    /\ length [lit "sheet-1"%string; lit "sheet_2"%string]
       = S (occurrences (cu ",") str)
    /\ Forall (fun id => id <> []
                         /\ Forall (fun c => Config.isIdChar c = true) id
                         /\ Forall (fun c => isStrWhiteSpaceChar c = false
                                             /\ cu_eqb c (cu ",") = false) id)
         [lit "sheet-1"%string; lit "sheet_2"%string].
Proof.
  apply (parse_gives_sheet_ids Example.processEnv
           (Config.mk (Some Config.production) (Some (lit "postgres"%string))
              (Config.parseInt (lit "5432"%string)) (lit "postgres"%string)
              (lit "postgres"%string) (lit "postgres"%string)
              (Some (Config.parseInt (lit "5000"%string))) (lit "key"%string)
              [lit "sheet-1"%string; lit "sheet_2"%string]
              (lit "./credentials.json"%string))).
  vm_compute. reflexivity.
Defined.

Lemma sheet_ids_round_trip_witness :
  Config.sheetIds (Some (lit "sheet-1, sheet_2 "%string))
  = Some [lit "sheet-1"%string; lit "sheet_2"%string].
Proof.
  apply (sheet_ids_round_trip
           [([], lit "sheet-1"%string, []);
            (lit " "%string, lit "sheet_2"%string, lit " "%string)]).
  - discriminate.
  - reflexivity.
Defined.

Lemma port_reads_digits_witness :
  exists x, Config.port (Some (lit "05432"%string)) = Some x
            /\ integerOf x = Some (valueOf (lit "05432"%string)).
Proof.
  apply (port_reads_digits (lit "05432"%string)).
  - reflexivity.
  - vm_compute. reflexivity.
Defined.

(** ** The requests of the publisher *)

Section Aim.
Import TariffSheetSyncService.




End Aim.


(** ** The date of a run of the fetcher *)

Section UtcDay.

Lemma decimalDigits_short (fuel : nat) :
  forall (n : Z) (acc : jsstring) (k : nat),
    (1 <= k)%nat -> 0 <= n < 10 ^ Z.of_nat k ->
    (length (decimalDigits fuel n acc) <= length acc + k)%nat.
Proof.
  induction fuel as [|f IH]; intros n acc k Hk Hn; cbn [decimalDigits]; [lia|].
  destruct (Z.ltb_spec n 10) as [Hlt|Hge]; [cbn [length]; lia|].
  destruct k as [|[|k]]; [lia|cbn in Hn; lia|].
  specialize (IH (n / 10) (digitChar (n mod 10) :: acc) (S k)).
  cbn [length] in IH.
  assert (Hq : 0 <= n / 10 < 10 ^ Z.of_nat (S k)).
  { rewrite (Nat2Z.inj_succ (S k)), Z.pow_succ_r in Hn by lia.
    Z.div_mod_to_equations. lia. }
  specialize (IH ltac:(lia) Hq). lia.
Qed.

Lemma pad_digits (width : nat) (n : Z) :
  (1 <= width)%nat -> 0 <= n < 10 ^ Z.of_nat width ->
  length (pad width n) = width
  /\ Forall (fun c => isDigit c = true) (pad width n)
  /\ valueOf (pad width n) = n.
Proof.
  intros Hw Hn. unfold pad, padStart.
  pose proof (decimalDigits_short (S (Z.to_nat (Z.log2 n))) n [] width Hw Hn) as Hl.
  fold (natToString n) in Hl. cbn [length] in Hl.
  split; [rewrite length_app, repeat_length; lia|]. split.
  - apply Forall_app. split; [|apply natToString_digits].
    apply Forall_forall. intros c Hc. apply repeat_spec in Hc. subst c.
    reflexivity.
  - rewrite valueOf_zeros. apply natToString_value. lia.
Qed.

Lemma pad_twoDigits (n : Z) : 0 <= n < 100 -> pad 2 n = twoDigits n.
Proof.
  intros Hn. rewrite <- padStart_twoDigits by exact Hn.
  unfold pad, intToString.
  replace (n <? 0) with false by (symmetry; apply Z.ltb_ge; lia).
  reflexivity.
Qed.

Lemma splitHead_app (sep : code_unit) (a r : jsstring) :
  Forall (fun c => cu_eqb c sep = false) a ->
  splitHead sep (a ++ sep :: r) = a.
Proof.
  intros H. induction H as [|c a Hc _ IH]; cbn [app splitHead].
  - rewrite cu_eqb_refl. reflexivity.
  - rewrite Hc, IH. reflexivity.
Qed.

Lemma digit_not_T (c : code_unit) :
  isDigit c = true -> cu_eqb c (cu "T") = false.
Proof.
  intros H. destruct (cu_eqb c (cu "T")) eqn:E; [|reflexivity].
  apply cu_eqb_eq in E. subst c. discriminate H.
Qed.

(** X21. For an instant whose UTC year is between 0 and 9999, the date
    that the fetcher sends upstream and stores with every record has the
    form [YYYY-MM-DD], with four digits for the year and two for the month
    and for the day, and it names the UTC calendar day that contains the
    instant. *)
Theorem isoDate_is_the_utc_day (t : Z) :
  0 <= YearFromTime t <= 9999 ->
  exists yyyy m d,
    WBTariffsSync.isoDate t
    = yyyy ++ lit "-"%string ++ twoDigits m ++ lit "-"%string ++ twoDigits d
    /\ length yyyy = 4%nat
    /\ Forall (fun c => isDigit c = true) yyyy
    /\ 1 <= m <= 12 /\ 1 <= d <= daysInMonth (valueOf yyyy) m
    /\ MakeDate (valueOf yyyy) m d <= t < MakeDate (valueOf yyyy) m d + msPerDay.
Proof.
  intros Hy.
  pose proof (MonthFromTime_range t) as Hm.
  pose proof (DateFromTime_range t) as Hd.
  pose proof (date_in_month t) as Hdm.
  destruct (pad_digits 4 (YearFromTime t)) as (Hlen & Hdig & Hval);
    [lia|cbn; lia|].
  exists (pad 4 (YearFromTime t)), (MonthFromTime t + 1), (DateFromTime t).
  rewrite Hval.
  split; [|split; [exact Hlen|split; [exact Hdig|split; [lia|split; [lia|]]]]].
  - unfold WBTariffsSync.isoDate, toISOString.
    replace ((0 <=? YearFromTime t) && (YearFromTime t <=? 9999)) with true
      by (symmetry; apply andb_true_intro; split; apply Z.leb_le; lia).
    rewrite (pad_twoDigits (MonthFromTime t + 1)),
      (pad_twoDigits (DateFromTime t)) by lia.
    set (rest := pad 2 (HourFromTime t) ++ _).
    replace (pad 4 (YearFromTime t) ++ lit "-"%string
             ++ twoDigits (MonthFromTime t + 1) ++ lit "-"%string
             ++ twoDigits (DateFromTime t) ++ lit "T"%string ++ rest)
      with ((pad 4 (YearFromTime t) ++ lit "-"%string
             ++ twoDigits (MonthFromTime t + 1) ++ lit "-"%string
             ++ twoDigits (DateFromTime t)) ++ cu "T" :: rest)
      by (rewrite <- !app_assoc; reflexivity).
    apply splitHead_app.
    assert (H2 : forall n, 0 <= n < 100 ->
                 Forall (fun c => cu_eqb c (cu "T") = false) (twoDigits n)).
    { intros n Hn. apply Forall_forall. intros c Hc. apply digit_not_T.
      pose proof (twoDigits_digits n Hn) as Hn2.
      rewrite forallb_forall in Hn2. apply Hn2, Hc. }
    apply Forall_app. split.
    { eapply Forall_impl; [|exact Hdig]. intros c. apply digit_not_T. }
    apply Forall_app. split; [repeat constructor|].
    apply Forall_app. split; [apply H2; lia|].
    apply Forall_app. split; [repeat constructor|apply H2; lia].
  - unfold MakeDate. rewrite Z.add_simpl_r, calendar_day.
    unfold Day, msPerDay. pose proof (Z.div_mod t 86400000).
    pose proof (Z.mod_pos_bound t 86400000). lia.
Qed.

End UtcDay.

Lemma isoDate_witness :
  exists yyyy m d,
    WBTariffsSync.isoDate Example.start
    = yyyy ++ lit "-"%string ++ twoDigits m ++ lit "-"%string ++ twoDigits d
    /\ length yyyy = 4%nat
    /\ Forall (fun c => isDigit c = true) yyyy
    /\ 1 <= m <= 12 /\ 1 <= d <= daysInMonth (valueOf yyyy) m
    /\ MakeDate (valueOf yyyy) m d <= Example.start
       < MakeDate (valueOf yyyy) m d + msPerDay.
Proof.
  apply (isoDate_is_the_utc_day Example.start).
  vm_compute. split; discriminate.
Defined.

(** ** Lists of ids that are refused *)

Section Rejected.
Import Config.

Lemma split_pieces (sep : code_unit) (a r : jsstring) :
  split sep (a ++ sep :: r) = split sep a ++ split sep r.
Proof.
  induction a as [|c a IH]; cbn [app split].
  - rewrite cu_eqb_refl. reflexivity.
  - destruct (cu_eqb c sep); [rewrite IH; reflexivity|].
    rewrite IH. pose proof (split_nonempty sep a) as Hne.
    destruct (split sep a); [contradiction|reflexivity].
Qed.

Lemma blank_piece_rejected (str piece : jsstring) :
  In piece (split (cu ",") str) -> trim piece = [] ->
  sheetIds (Some str) = None.
Proof.
  intros Hin Hblank. unfold sheetIds.
  destruct (1 <=? length str)%nat; [|reflexivity].
  destruct (forallb isId (List.map trim (split (cu ",") str))) eqn:E;
    [|reflexivity].
  rewrite forallb_forall in E.
  specialize (E (trim piece) (in_map trim _ _ Hin)).
  rewrite Hblank in E. discriminate E.
Qed.

Lemma trim_blank (blank : jsstring) :
  forallb isStrWhiteSpaceChar blank = true -> trim blank = [].
Proof.
  intros H. unfold trim.
  rewrite <- (app_nil_r blank), (trimStart_lead blank [] H). reflexivity.
Qed.

(** X22. The schema of [GOOGLE_SHEETS_IDS] rejects an absent piece:
    the variable is refused when it is empty or only white space, and
    when nothing or only white space stands before its first comma, after
    its last comma, or between two commas. *)
Theorem sheet_ids_rejects_blank_pieces (a b blank : jsstring) :
  forallb isStrWhiteSpaceChar blank = true ->
  sheetIds (Some blank) = None
  /\ sheetIds (Some (blank ++ cu "," :: b)) = None
  /\ sheetIds (Some (a ++ cu "," :: blank)) = None
  /\ sheetIds (Some (a ++ cu "," :: blank ++ cu "," :: b)) = None.
Proof.
  intros Hblank.
  assert (Hsplit : split (cu ",") blank = [blank]).
  { apply split_plain. apply Forall_forall. intros c Hc.
    rewrite forallb_forall in Hblank. apply whitespace_not_comma, Hblank, Hc. }
  pose proof (trim_blank blank Hblank) as Htrim.
  repeat split; apply (blank_piece_rejected _ blank); try exact Htrim.
  - rewrite Hsplit. left. reflexivity.
  - rewrite split_pieces, Hsplit. left. reflexivity.
  - rewrite split_pieces, Hsplit. apply in_or_app. right. left. reflexivity.
  - rewrite split_pieces, split_pieces, Hsplit.
    apply in_or_app. right. left. reflexivity.
Qed.

End Rejected.

Lemma sheet_ids_rejects_witness :
  Config.sheetIds (Some []) = None
  /\ Config.sheetIds (Some (lit ",sheet-2"%string)) = None
  /\ Config.sheetIds (Some (lit "sheet-1,"%string)) = None
  /\ Config.sheetIds (Some (lit "sheet-1,,sheet-2"%string)) = None.
Proof.
  apply (sheet_ids_rejects_blank_pieces (lit "sheet-1"%string)
           (lit "sheet-2"%string) []).
  reflexivity.
Defined.
